(** * Yolo-Dataset-Modifier: the label parser, the edit session, the image
      cache and the view transform, embedded from the JavaScript sources.

    - [js/LabelParser.js]   : [parse], [serialize], [cloneBox], [cloneBoxes],
                              the pixel coordinates, [getCorners],
                              [rectsIntersect] and [pointInBox]; [parse]
                              once more on binary64 numbers ([Binary64])
    - [StateManager.js]     : per-image edit state, undo/redo, modified set
    - [js/LRUCache.js]      : the bounded cache used for decoded images
    - [js/main.js]          : [getFitScale], [getViewTransform] and the two
                              coordinate maps; zoom with the resize of the
                              canvas that [draw] does, [navigate],
                              [getBoxUnderPoint], [finalizeSelectionRect],
                              [getBoxCanvasRect] and [syncModifiedFlag]
    - [js/FileManager.js]   : [getExtension] and [getBaseName]
    - [DatasetLoader.js]    : the index, the modified flags, [search] and
                              the label cache

    Conventions of the embedding.
    - A JavaScript string is a [string] whose characters are read as code
      units 0..255.
    - A JavaScript number is a [Number]: [NaN], the two infinities, or a
      rational.  The arithmetic is exact: sums, products and quotients are
      not rounded to binary64.  The numbers [parse] reads are given twice:
      as the exact value of the literal, for the round trip to six
      decimals, and in [Binary64] rounded to the nearest binary64 number as
      the engine does, for the decision whether a line is a box.
    - A [Map] keyed by image index is a [gmap Z], a [Set] of indices a
      [gset Z]; a [Map] whose iteration order matters (the cache) is an
      association list in insertion order.
    - [StateManager] is given twice: on lists of box values, for what its
      methods compute, and on a store of objects ([Live]), for the
      references its two read methods return. *)

From Stdlib Require Import ZArith QArith Qpower Qround Qabs Lqa Lia String Ascii List.
From stdpp Require Import gmap strings list.
Import ListNotations.

Local Open Scope string_scope.
Local Open Scope list_scope.
Local Open Scope Z_scope.

(* ===================================================================== *)
(** * JavaScript strings *)
(* ===================================================================== *)

Definition chars := list ascii.

Definition code (c : ascii) : N := N_of_ascii c.

(** WhiteSpace and LineTerminator code units below 256: TAB, LF, VT, FF, CR,
    SP and NBSP.  [String.prototype.trim] and the class [\s] use this set. *)
Definition isWhiteSpace (c : ascii) : bool :=
  ((9 <=? code c)%N && (code c <=? 13)%N) || (code c =? 32)%N || (code c =? 160)%N.

Definition isDigit (c : ascii) : bool :=
  (48 <=? code c)%N && (code c <=? 57)%N.

Definition digitValue (c : ascii) : Z := Z.of_N (code c) - 48.

Fixpoint dropWhile {A} (p : A -> bool) (l : list A) : list A :=
  match l with
  | [] => []
  | x :: r => if p x then dropWhile p r else l
  end.

Fixpoint takeWhile {A} (p : A -> bool) (l : list A) : list A :=
  match l with
  | [] => []
  | x :: r => if p x then x :: takeWhile p r else []
  end.

Definition trimStart (s : chars) : chars := dropWhile isWhiteSpace s.

(** [s.trimEnd()]: a character stays when something stays after it or when
    it is not white space. *)
Fixpoint trimEnd (s : chars) : chars :=
  match s with
  | [] => []
  | c :: r =>
      match trimEnd r with
      | [] => if isWhiteSpace c then [] else [c]
      | t => c :: t
      end
  end.

(** [s.trim()] *)
Definition trim (s : chars) : chars := trimEnd (trimStart s).

(** [s.split(sep)] for a one-character separator: the pieces between the
    occurrences of [sep]; the empty string gives one empty piece. *)
Fixpoint split (sep : ascii) (s : chars) : list chars :=
  match s with
  | [] => [[]]
  | c :: r =>
      if Ascii.eqb c sep then [] :: split sep r
      else match split sep r with
           | p :: ps => (c :: p) :: ps
           | [] => [[c]]
           end
  end.

Definition startsWhite (s : chars) : bool :=
  match s with
  | c :: _ => isWhiteSpace c
  | [] => false
  end.

(** [s.split(/\s+/)]: every maximal run of white space is one separator, so
    leading or trailing white space leaves an empty first or last piece. *)
Fixpoint splitWhite (s : chars) : list chars :=
  match s with
  | [] => [[]]
  | c :: r =>
      if isWhiteSpace c then
        if startsWhite r then splitWhite r else [] :: splitWhite r
      else match splitWhite r with
           | p :: ps => (c :: p) :: ps
           | [] => [[c]]
           end
  end.

(** [s.startsWith(c)] for a one-character [c]. *)
Definition startsWith (c : ascii) (s : chars) : bool :=
  match s with
  | x :: _ => Ascii.eqb x c
  | [] => false
  end.

(** [pieces.join(sep)] *)
Fixpoint join (sep : chars) (pieces : list chars) : chars :=
  match pieces with
  | [] => []
  | [p] => p
  | p :: ps => p ++ sep ++ join sep ps
  end.

(* ===================================================================== *)
(** * JavaScript numbers *)
(* ===================================================================== *)

Inductive Number : Type :=
  | NaN : Number
  | Infinity (negative : bool) : Number
  | Finite (q : Q) : Number.

Definition isNaN (x : Number) : bool :=
  match x with NaN => true | _ => false end.

(** [x <= y]; every comparison with [NaN] is false. *)
Definition lessEq (x y : Number) : bool :=
  match x, y with
  | NaN, _ | _, NaN => false
  | Infinity true, _ => true
  | _, Infinity false => true
  | Infinity false, _ => false
  | _, Infinity true => false
  | Finite p, Finite q => Qle_bool p q
  end.

(** [x < y] *)
Definition less (x y : Number) : bool :=
  match x, y with
  | NaN, _ | _, NaN => false
  | Infinity a, Infinity b => a && negb b
  | Infinity true, Finite _ => true
  | Finite _, Infinity false => true
  | Infinity false, Finite _ => false
  | Finite _, Infinity true => false
  | Finite p, Finite q => negb (Qle_bool q p)
  end.

Definition greaterEq (x y : Number) : bool := lessEq y x.
Definition greater (x y : Number) : bool := less y x.

Definition zero : Number := Finite 0%Q.
Definition one : Number := Finite 1%Q.

(** Value of a run of decimal digits, most significant first. *)
Definition digitsValue (ds : chars) : Z :=
  fold_left (fun acc c => 10 * acc + digitValue c) ds 0.

Definition isSign (c : ascii) : bool := Ascii.eqb c "+" || Ascii.eqb c "-".
Definition isMinus (c : ascii) : bool := Ascii.eqb c "-".

(** Splits an optional sign off the front: (negative, rest). *)
Definition readSign (s : chars) : bool * chars :=
  match s with
  | c :: r => if isSign c then (isMinus c, r) else (false, s)
  | [] => (false, s)
  end.

(** [parseInt(s, 10)]: leading white space is dropped, an optional sign is
    read, and the longest run of decimal digits is the value; no digit gives
    [NaN], which is [None] here.  Whatever follows the digits is ignored.
    The value is the integer the digits write; [Binary64.parseInt] gives
    the number the engine makes of it. *)
Definition parseInt (s : chars) : option Z :=
  let '(neg, r) := readSign (trimStart s) in
  match takeWhile isDigit r with
  | [] => None
  | ds => Some (if neg then - digitsValue ds else digitsValue ds)
  end.

(** [10^e] as a rational, for any integer [e]. *)
Definition pow10 (e : Z) : Q := Qpower 10%Q e.

Definition isExpMark (c : ascii) : bool := Ascii.eqb c "e" || Ascii.eqb c "E".

(** The exponent part [[eE][+-]?digits] at the front of [s], if there is
    one; otherwise the exponent is 0. *)
Definition readExponent (s : chars) : Z :=
  match s with
  | c :: r =>
      if isExpMark c then
        let '(neg, r') := readSign r in
        match takeWhile isDigit r' with
        | [] => 0
        | ds => if neg then - digitsValue ds else digitsValue ds
        end
      else 0
  | [] => 0
  end.

Definition infinityWord : chars := list_ascii_of_string "Infinity".

Fixpoint isPrefix (p s : chars) : bool :=
  match p, s with
  | [], _ => true
  | a :: p', b :: s' => Ascii.eqb a b && isPrefix p' s'
  | _ :: _, [] => false
  end.

Definition applySign (neg : bool) (q : Q) : Q := if neg then Qopp q else q.

(** [parseFloat(s)]: leading white space is dropped and the longest prefix
    that is a decimal literal is the value: an optional sign, then
    [Infinity], or digits with an optional fraction, or a fraction that
    starts with the dot, and an optional exponent.  No such prefix gives
    [NaN].  The value is that of the literal, exact; [Binary64.parseFloat]
    gives the number the engine makes of it. *)
Definition parseFloat (s : chars) : Number :=
  let '(neg, r) := readSign (trimStart s) in
  let ip := takeWhile isDigit r in
  let r1 := dropWhile isDigit r in
  match r1 with
  | c :: r2 =>
      if Ascii.eqb c "." then
        let fp := takeWhile isDigit r2 in
        let r3 := dropWhile isDigit r2 in
        match ip, fp with
        | [], [] => NaN
        | _, _ =>
            Finite (applySign neg
              (inject_Z (digitsValue (ip ++ fp))
               * pow10 (readExponent r3 - Z.of_nat (length fp)))%Q)
        end
      else
        match ip with
        | [] => if isPrefix infinityWord r then Infinity neg else NaN
        | _ => Finite (applySign neg
                 (inject_Z (digitsValue ip) * pow10 (readExponent r1))%Q)
        end
  | [] =>
      match ip with
      | [] => NaN
      | _ => Finite (applySign neg (inject_Z (digitsValue ip)))
      end
  end.

Definition digitChar (d : Z) : ascii := ascii_of_N (Z.to_N (48 + d)).

(** Decimal digits of a non-negative integer, most significant first; [0]
    has the one digit "0".  The fuel is the bit length, which bounds the
    number of decimal digits. *)
Fixpoint digitsFuel (fuel : nat) (n : Z) (acc : chars) : chars :=
  match fuel with
  | O => digitChar (n mod 10) :: acc
  | S f =>
      if n <? 10 then digitChar n :: acc
      else digitsFuel f (n / 10) (digitChar (n mod 10) :: acc)
  end.

Definition digits (n : Z) : chars := digitsFuel (Z.to_nat (Z.log2 n)) n [].

Fixpoint stripTrailingZeros (ds : chars) : chars :=
  match ds with
  | [] => []
  | c :: r =>
      match stripTrailingZeros r with
      | [] => if Ascii.eqb c "0" then [] else [c]
      | r' => c :: r'
      end
  end.

Definition chr (s : string) : chars := list_ascii_of_string s.

(** Number::toString on an integer value, as a template literal applies it:
    plain digits below [10^21], exponent notation from there on. *)
Definition integerToString (n : Z) : chars :=
  let a := Z.abs n in
  let sign := if n <? 0 then chr "-" else [] in
  if a <? 10 ^ 21 then sign ++ digits a
  else
    let ds := digits a in
    let e := digits (Z.of_nat (length ds) - 1) in
    match stripTrailingZeros ds with
    | [] => sign ++ ds
    | [d] => sign ++ [d] ++ chr "e+" ++ e
    | d :: more => sign ++ [d] ++ chr "." ++ more ++ chr "e+" ++ e
    end.

(** The integer [n] for which [n / 10^6] is nearest to [x], the larger one
    on a tie. *)
Definition roundMicro (x : Q) : Z := Qfloor (x * 1000000 + (1 # 2))%Q.

Definition padZeros (k : nat) (ds : chars) : chars :=
  repeat "0"%char (k - length ds) ++ ds.

(** [x.toFixed(6)] for a finite non-negative [x] below [10^21]: the digits
    of [roundMicro x], padded to seven, with the point before the last
    six. *)
Definition fixedDigits (n : Z) : chars :=
  let m := padZeros 7 (digits n) in
  take (length m - 6) m ++ chr "." ++ drop (length m - 6) m.

(** [x.toFixed(6)].  From [10^21] on JavaScript prints the number with
    Number::toString instead, here through [integerToString] on the
    integer part. *)
Definition toFixed6 (x : Number) : chars :=
  match x with
  | NaN => chr "NaN"
  | Infinity neg => if neg then chr "-Infinity" else chr "Infinity"
  | Finite q =>
      let neg := negb (Qle_bool 0%Q q) in
      let a := if neg then Qopp q else q in
      let body :=
        if Qle_bool (inject_Z (10 ^ 21)) a then integerToString (Qfloor a)
        else fixedDigits (roundMicro a) in
      if neg then chr "-" ++ body else body
  end.

(* ===================================================================== *)
(** * js/LabelParser.js *)
(* ===================================================================== *)

Record Box : Type := mkBox {
  id : string;
  classId : Z;
  xCenter : Number;
  yCenter : Number;
  width : Number;
  height : Number;
  deleted : bool;
  selected : bool;
  lineIndex : nat
}.

(** The test of [parse] on the five parsed values. *)
Definition validValues (c : option Z) (x y w h : Number) : bool :=
  match c with
  | None => false
  | Some n =>
      (n >=? 0)
      && negb (isNaN x) && greaterEq x zero && lessEq x one
      && negb (isNaN y) && greaterEq y zero && lessEq y one
      && negb (isNaN w) && greater w zero && lessEq w one
      && negb (isNaN h) && greater h zero && lessEq h one
  end.

(** One turn of the loop of [parse] on [lines[i]]: the box pushed, if any.
    [uuid] is the identifier [crypto.randomUUID()] returns at this call. *)
Definition parseLine (uuid : string) (i : nat) (raw : chars) : option Box :=
  let line := trim raw in
  match line with
  | [] => None
  | _ =>
      if startsWith "#" line then None
      else
        match splitWhite line with
        | p0 :: p1 :: p2 :: p3 :: p4 :: _ =>
            let c := parseInt p0 in
            let x := parseFloat p1 in
            let y := parseFloat p2 in
            let w := parseFloat p3 in
            let h := parseFloat p4 in
            if validValues c x y w h then
              Some (mkBox uuid (default 0 c) x y w h false false i)
            else None
        | _ => None
        end
  end.

(** The loop of [parse]: [i] is the line index, [k] the number of
    identifiers drawn so far. *)
Fixpoint parseLines (randomUUID : nat -> string) (i k : nat)
    (lines : list chars) : list Box :=
  match lines with
  | [] => []
  | raw :: rest =>
      match parseLine (randomUUID k) i raw with
      | Some b => b :: parseLines randomUUID (S i) (S k) rest
      | None => parseLines randomUUID (S i) k rest
      end
  end.

(** [LabelParser.parse(content)].  [randomUUID k] is the result of the
    [k]-th call of [crypto.randomUUID()]. *)
Definition parse (randomUUID : nat -> string) (content : string) : list Box :=
  let s := chr content in
  match trim s with
  | [] => []
  | t => parseLines randomUUID 0 0 (split "010"%char t)
  end.

Definition serializeBox (box : Box) : chars :=
  integerToString (classId box) ++ chr " " ++ toFixed6 (xCenter box)
    ++ chr " " ++ toFixed6 (yCenter box) ++ chr " " ++ toFixed6 (width box)
    ++ chr " " ++ toFixed6 (height box).

(** [LabelParser.serialize(boxes)] *)
Definition serialize (boxes : list Box) : string :=
  string_of_list_ascii
    (join (chr (String "010"%char EmptyString))
       (map serializeBox (List.filter (fun box => negb (deleted box)) boxes))).

(** ** Lines and tokens *)

(** [tokens] is written from the parse contract of the specification, not
    from the code; [lineValues] gives the values [parse] above reads from
    a line of tokens. *)




Definition Values : Type := Z * Number * Number * Number * Number.


(** The results of [f] on the elements it accepts, in order. *)
Fixpoint filterMap {A B} (f : A -> option B) (l : list A) : list B :=
  match l with
  | [] => []
  | x :: r =>
      match f x with
      | Some y => y :: filterMap f r
      | None => filterMap f r
      end
  end.

(** What the body of the loop of [parse] computes from the trimmed line. *)
Definition trimmedValues (line : chars) : option Values :=
  match line with
  | [] => None
  | _ =>
      if startsWith "#" line then None
      else
        match splitWhite line with
        | p0 :: p1 :: p2 :: p3 :: p4 :: _ =>
            if validValues (parseInt p0) (parseFloat p1) (parseFloat p2)
                 (parseFloat p3) (parseFloat p4)
            then Some (default 0 (parseInt p0), parseFloat p1, parseFloat p2,
                       parseFloat p3, parseFloat p4)
            else None
        | _ => None
        end
  end.

Definition boxValues (b : Box) : Values :=
  (classId b, xCenter b, yCenter b, width b, height b).

Definition newline : ascii := "010"%char.


(** [LabelParser.cloneBox(box)]: the spread copies every field. *)
Definition cloneBox (box : Box) : Box :=
  mkBox (id box) (classId box) (xCenter box) (yCenter box) (width box)
    (height box) (deleted box) (selected box) (lineIndex box).

(** [LabelParser.cloneBoxes(boxes)] *)
Definition cloneBoxes (boxes : list Box) : list Box := map cloneBox boxes.

(* ===================================================================== *)
(** * StateManager.js *)
(* ===================================================================== *)

(** The arrays of one image state hold box objects that the class creates
    itself with [cloneBoxes], each object once; a box that a method mutates
    through an element of [state.boxes] is therefore the element at that
    position, and the methods are functions on lists of box values.  The
    references that escape the class are the subject of the store model
    further down. *)

Record Action : Type := mkAction {
  action_type : string;
  action_boxes : list Box;
  action_timestamp : Z
}.

Record ImageState : Type := mkImageState {
  boxes : list Box;
  originalBoxes : list Box;
  undoStack : list Action;
  redoStack : list Action
}.

(** [maxStackSize] is set to 50 by the constructor and never assigned
    again; it is a constant here. *)
Record StateManager : Type := mkStateManager {
  currentIndex : Z;
  imageStates : gmap Z ImageState;
  globalModified : gset Z
}.

Definition maxStackSize : Z := 50.

(** [new StateManager()] *)
Definition newStateManager : StateManager :=
  mkStateManager (-1) ∅ ∅.

Definition currentState (s : StateManager) : option ImageState :=
  imageStates s !! currentIndex s.

Definition setState (st : ImageState) (s : StateManager) : StateManager :=
  mkStateManager (currentIndex s) (<[currentIndex s := st]> (imageStates s))
    (globalModified s).

(** [initImageState(index, boxes)]: an image that has a state keeps it. *)
Definition initImageState (index : Z) (bs : list Box) (s : StateManager)
    : StateManager :=
  let states :=
    match imageStates s !! index with
    | Some _ => imageStates s
    | None =>
        <[index := mkImageState (cloneBoxes bs) (cloneBoxes bs) [] []]>
          (imageStates s)
    end in
  mkStateManager index states (globalModified s).

Definition setCurrentIndex (index : Z) (s : StateManager) : StateManager :=
  mkStateManager index (imageStates s) (globalModified s).

Definition getCurrentBoxes (s : StateManager) : list Box :=
  match currentState s with
  | Some st => boxes st
  | None => []
  end.

Definition setCurrentBoxes (bs : list Box) (s : StateManager) : StateManager :=
  match currentState s with
  | Some st =>
      setState (mkImageState (cloneBoxes bs) (originalBoxes st)
                  (undoStack st) (redoStack st)) s
  | None => s
  end.

(** [undoStack.push(action)] followed by the trim with [shift()]. *)
Definition pushTrimmed (stack : list Action) (a : Action) : list Action :=
  let pushed := stack ++ [a] in
  if Z.of_nat (length pushed) >? maxStackSize then tail pushed else pushed.

(** [recordAction(type, affectedBoxes)], the call with the default
    [extraData = {}] that [deleteSelected] and [restoreDeleted] make; [now]
    is the value of [Date.now()].  [recordActionWith] below is the call
    with an [extraData]. *)
Definition recordAction (type : string) (affectedBoxes : list Box) (now : Z)
    (s : StateManager) : StateManager :=
  match currentState s with
  | None => s
  | Some st =>
      let action := mkAction type (map cloneBox affectedBoxes) now in
      setState (mkImageState (boxes st) (originalBoxes st)
                  (pushTrimmed (undoStack st) action) []) s
  end.

(** The fields of the action that the spread [...extraData] writes over
    when [extraData] has the key; no method reads another key of an
    action. *)
Record ExtraData : Type := mkExtraData {
  extra_type : option string;
  extra_boxes : option (list Box);
  extra_timestamp : option Z
}.

Definition noExtraData : ExtraData := mkExtraData None None None.

(** [recordAction(type, affectedBoxes, extraData)] *)
Definition recordActionWith (extraData : ExtraData) (type : string)
    (affectedBoxes : list Box) (now : Z) (s : StateManager) : StateManager :=
  match currentState s with
  | None => s
  | Some st =>
      let action :=
        mkAction (default type (extra_type extraData))
          (default (map cloneBox affectedBoxes) (extra_boxes extraData))
          (default now (extra_timestamp extraData)) in
      setState (mkImageState (boxes st) (originalBoxes st)
                  (pushTrimmed (undoStack st) action) []) s
  end.

Definition setFlags (d : bool) (b : Box) : Box :=
  mkBox (id b) (classId b) (xCenter b) (yCenter b) (width b) (height b)
    d false (lineIndex b).

Definition setSelected (v : bool) (b : Box) : Box :=
  mkBox (id b) (classId b) (xCenter b) (yCenter b) (width b) (height b)
    (deleted b) v (lineIndex b).

(** [const box = bs.find(b => b.id === i); if (box) { box := f box }] *)
Fixpoint updateFound (i : string) (f : Box -> Box) (bs : list Box) : list Box :=
  match bs with
  | [] => []
  | b :: rest =>
      if String.eqb (id b) i then f b :: rest
      else b :: updateFound i f rest
  end.

(** The loop [for (const savedBox of action.boxes)] of [undo] and [redo],
    writing [deleted = d; selected = false] into each box found. *)
Definition replay (d : bool) (saved : list Box) (bs : list Box) : list Box :=
  fold_left (fun acc savedBox => updateFound (id savedBox) (setFlags d) acc)
    saved bs.

(** [bs.find(o => o.id === i)] *)
Definition findById (i : string) (bs : list Box) : option Box :=
  List.find (fun o => String.eqb (id o) i) bs.

(** [!original || box.deleted !== original.deleted] *)
Definition differsFromOriginal (orig : list Box) (box : Box) : bool :=
  match findById (id box) orig with
  | None => true
  | Some original => negb (Bool.eqb (deleted box) (deleted original))
  end.

(** The loop of [updateModifiedState]. *)
Definition hasChanges (st : ImageState) : bool :=
  existsb (differsFromOriginal (originalBoxes st)) (boxes st).

Definition updateModifiedState (s : StateManager) : StateManager :=
  match currentState s with
  | None => s
  | Some st =>
      mkStateManager (currentIndex s) (imageStates s)
        (if hasChanges st then {[currentIndex s]} ∪ globalModified s
         else globalModified s ∖ {[currentIndex s]})
  end.

Definition markModified (s : StateManager) : StateManager :=
  mkStateManager (currentIndex s) (imageStates s)
    ({[currentIndex s]} ∪ globalModified s).

(** [stack.pop()]: the last element and the rest. *)
Definition pop (stack : list Action) : option (Action * list Action) :=
  match rev stack with
  | [] => None
  | a :: r => Some (a, rev r)
  end.

(** [undo()]: the result and the session after the call. *)
Definition undo (s : StateManager) : bool * StateManager :=
  match currentState s with
  | None => (false, s)
  | Some st =>
      match pop (undoStack st) with
      | None => (false, s)
      | Some (action, rest) =>
          let bs :=
            if String.eqb (action_type action) "delete"
            then replay false (action_boxes action) (boxes st)
            else if String.eqb (action_type action) "restore"
            then replay true (action_boxes action) (boxes st)
            else boxes st in
          (true,
           updateModifiedState
             (setState (mkImageState bs (originalBoxes st) rest
                          (redoStack st ++ [action])) s))
      end
  end.

(** [redo()] *)
Definition redo (s : StateManager) : bool * StateManager :=
  match currentState s with
  | None => (false, s)
  | Some st =>
      match pop (redoStack st) with
      | None => (false, s)
      | Some (action, rest) =>
          let bs :=
            if String.eqb (action_type action) "delete"
            then replay true (action_boxes action) (boxes st)
            else if String.eqb (action_type action) "restore"
            then replay false (action_boxes action) (boxes st)
            else boxes st in
          (true,
           updateModifiedState
             (setState (mkImageState bs (originalBoxes st)
                          (undoStack st ++ [action]) rest) s))
      end
  end.

Definition canUndo (s : StateManager) : bool :=
  match currentState s with
  | Some st => 0 <? Z.of_nat (length (undoStack st))
  | None => false
  end.

Definition canRedo (s : StateManager) : bool :=
  match currentState s with
  | Some st => 0 <? Z.of_nat (length (redoStack st))
  | None => false
  end.

(** [b.selected && !b.deleted] *)
Definition isSelectedLive (b : Box) : bool := selected b && negb (deleted b).

(** The boxes of [chosen] are elements of [state.boxes]; the loop over them
    rewrites exactly the elements that pass the filter. *)
Definition mutateWhere (p : Box -> bool) (f : Box -> Box) (bs : list Box)
    : list Box :=
  map (fun b => if p b then f b else b) bs.

Definition withBoxes (f : list Box -> list Box) (s : StateManager) : StateManager :=
  match currentState s with
  | None => s
  | Some st =>
      setState (mkImageState (f (boxes st)) (originalBoxes st)
                  (undoStack st) (redoStack st)) s
  end.

Definition deleteSelected (now : Z) (s : StateManager) : Z * StateManager :=
  match currentState s with
  | None => (0, s)
  | Some st =>
      let chosen := List.filter (fun b => isSelectedLive b) (boxes st) in
      match chosen with
      | [] => (0, s)
      | _ =>
          (Z.of_nat (length chosen),
           markModified
             (withBoxes (mutateWhere isSelectedLive (setFlags true))
                (recordAction "delete" chosen now s)))
      end
  end.

Definition restoreFilter (onlySelected : bool) (b : Box) : bool :=
  if onlySelected then deleted b && selected b else deleted b.

Definition restoreDeleted (onlySelected : bool) (now : Z) (s : StateManager)
    : Z * StateManager :=
  match currentState s with
  | None => (0, s)
  | Some st =>
      let toRestore := List.filter (fun b => restoreFilter onlySelected b) (boxes st) in
      match toRestore with
      | [] => (0, s)
      | _ =>
          (Z.of_nat (length toRestore),
           markModified
             (withBoxes (mutateWhere (restoreFilter onlySelected) (setFlags false))
                (recordAction "restore" toRestore now s)))
      end
  end.

Definition selectAll (s : StateManager) : StateManager :=
  withBoxes (mutateWhere (fun b => negb (deleted b)) (setSelected true)) s.

Definition clearSelection (s : StateManager) : StateManager :=
  withBoxes (map (setSelected false)) s.

Definition toggleBoxSelection (boxId : string) (s : StateManager) : StateManager :=
  withBoxes (updateFound boxId
    (fun b => if deleted b then b else setSelected (negb (selected b)) b)) s.

Definition selectBox (boxId : string) (s : StateManager) : StateManager :=
  withBoxes (updateFound boxId
    (fun b => if deleted b then b else setSelected true b)) (clearSelection s).

Definition countWhere (p : Box -> bool) (s : StateManager) : Z :=
  match currentState s with
  | None => 0
  | Some st => Z.of_nat (length (List.filter (fun b => p b) (boxes st)))
  end.

Definition getSelectedCount : StateManager -> Z := countWhere isSelectedLive.
Definition getBoxCount : StateManager -> Z := countWhere (fun b => negb (deleted b)).
Definition getDeletedCount : StateManager -> Z := countWhere deleted.

Definition isCurrentModified (s : StateManager) : bool :=
  bool_decide (currentIndex s ∈ globalModified s).

Definition isModified (index : Z) (s : StateManager) : bool :=
  bool_decide (index ∈ globalModified s).

Definition markSaved (s : StateManager) : StateManager :=
  match currentState s with
  | None => s
  | Some st =>
      let nonDeleted := List.filter (fun b => negb (deleted b)) (boxes st) in
      let s1 := setState (mkImageState (cloneBoxes nonDeleted)
                            (cloneBoxes nonDeleted) [] []) s in
      mkStateManager (currentIndex s1) (imageStates s1)
        (globalModified s1 ∖ {[currentIndex s1]})
  end.

Definition markSavedAt (index : Z) (s : StateManager) : StateManager :=
  setCurrentIndex (currentIndex s) (markSaved (setCurrentIndex index s)).

Definition getBoxesForSave (s : StateManager) : list Box :=
  match currentState s with
  | None => []
  | Some st => List.filter (fun b => negb (deleted b)) (boxes st)
  end.

Definition getModifiedCount (s : StateManager) : Z :=
  Z.of_nat (size (globalModified s)).

Definition getModifiedIndices (s : StateManager) : gset Z := globalModified s.

Definition hasUnsavedChanges (s : StateManager) : bool :=
  0 <? Z.of_nat (size (globalModified s)).

Definition clearImageState (index : Z) (s : StateManager) : StateManager :=
  mkStateManager (currentIndex s) (delete index (imageStates s))
    (globalModified s ∖ {[index]}).

Definition clearAll (s : StateManager) : StateManager :=
  mkStateManager (-1) ∅ ∅.

Definition resetCurrent (s : StateManager) : StateManager :=
  match currentState s with
  | None => s
  | Some st =>
      let s1 := setState (mkImageState (cloneBoxes (originalBoxes st))
                            (originalBoxes st) [] []) s in
      mkStateManager (currentIndex s1) (imageStates s1)
        (globalModified s1 ∖ {[currentIndex s1]})
  end.

(** ** Sessions as sequences of calls *)

Inductive Op : Type :=
  | OpInitImageState (index : Z) (bs : list Box)
  | OpSetCurrentIndex (index : Z)
  | OpSetCurrentBoxes (bs : list Box)
  | OpRecordAction (type : string) (bs : list Box) (now : Z)
  | OpUndo
  | OpRedo
  | OpDeleteSelected (now : Z)
  | OpRestoreDeleted (onlySelected : bool) (now : Z)
  | OpSelectAll
  | OpClearSelection
  | OpToggleBoxSelection (boxId : string)
  | OpSelectBox (boxId : string)
  | OpMarkModified
  | OpUpdateModifiedState
  | OpMarkSaved
  | OpMarkSavedAt (index : Z)
  | OpClearImageState (index : Z)
  | OpClearAll
  | OpResetCurrent.

Definition step (s : StateManager) (o : Op) : StateManager :=
  match o with
  | OpInitImageState index bs => initImageState index bs s
  | OpSetCurrentIndex index => setCurrentIndex index s
  | OpSetCurrentBoxes bs => setCurrentBoxes bs s
  | OpRecordAction type bs now => recordAction type bs now s
  | OpUndo => snd (undo s)
  | OpRedo => snd (redo s)
  | OpDeleteSelected now => snd (deleteSelected now s)
  | OpRestoreDeleted onlySelected now => snd (restoreDeleted onlySelected now s)
  | OpSelectAll => selectAll s
  | OpClearSelection => clearSelection s
  | OpToggleBoxSelection boxId => toggleBoxSelection boxId s
  | OpSelectBox boxId => selectBox boxId s
  | OpMarkModified => markModified s
  | OpUpdateModifiedState => updateModifiedState s
  | OpMarkSaved => markSaved s
  | OpMarkSavedAt index => markSavedAt index s
  | OpClearImageState index => clearImageState index s
  | OpClearAll => clearAll s
  | OpResetCurrent => resetCurrent s
  end.

Definition run (ops : list Op) (s : StateManager) : StateManager :=
  fold_left step ops s.

(** Select everything, delete it, restore it: one delete action and one
    restore action, stamped [2 * t] and [2 * t + 1]. *)
Definition deleteRestorePair (t : Z) : list Op :=
  [OpSelectAll; OpDeleteSelected (2 * t); OpRestoreDeleted false (2 * t + 1)].

Definition deleteRestorePairs (n : nat) : list Op :=
  flat_map (fun k => deleteRestorePair (Z.of_nat k)) (seq 0 n).

(** ** Words of the modification rule *)

(** [o] is the box of the snapshot that matches [box]: the first one with
    the same id. *)
Definition matchingOriginal (orig : list Box) (box o : Box) : Prop :=
  exists pre post,
    orig = pre ++ o :: post /\ id o = id box /\
    forall p, In p pre -> id p <> id box.

Definition differentFromOriginal (orig : list Box) (box : Box) : Prop :=
  (forall o, In o orig -> id o <> id box) \/
  (exists o, matchingOriginal orig box o /\ deleted box <> deleted o).

(** ** Words of the replay *)

(** No box before position [k] has the id of [b]: [b] is the one [find]
    returns for its id. *)
Definition foundById (bs : list Box) (k : nat) (b : Box) : Prop :=
  forall j b', (j < k)%nat -> bs !! j = Some b' -> id b' <> id b.

Definition recordedIn (saved : list Box) (b : Box) : Prop :=
  exists sb, In sb saved /\ id sb = id b.

(** The value [undo] writes into [deleted] for an action of this type, if
    it writes at all; [redo] writes the opposite. *)
Definition undoFlag (type : string) : option bool :=
  if String.eqb type "delete" then Some false
  else if String.eqb type "restore" then Some true
  else None.

Definition redoFlag (type : string) : option bool :=
  option_map negb (undoFlag type).

(* ===================================================================== *)
(** * js/LRUCache.js *)
(* ===================================================================== *)

Section LRUCacheModel.
Context {K V : Type} `{EqDecision K}.

(** [value && typeof value.close === 'function'] *)
Variable hasClose : V -> bool.

(** The [Map] of the cache, in insertion order (oldest first), and the
    values whose [close()] has been called so far, in call order. *)
Record LRUCache : Type := mkLRUCache {
  maxSize : Z;
  cache : list (K * V);
  closeCalls : list V
}.

Definition newLRUCache (size : Z) : LRUCache := mkLRUCache size [] [].

Fixpoint mapGet (key : K) (m : list (K * V)) : option V :=
  match m with
  | [] => None
  | (k, v) :: r => if decide (k = key) then Some v else mapGet key r
  end.

Definition mapHas (key : K) (m : list (K * V)) : bool :=
  match mapGet key m with Some _ => true | None => false end.

Fixpoint mapDelete (key : K) (m : list (K * V)) : list (K * V) :=
  match m with
  | [] => []
  | (k, v) :: r => if decide (k = key) then r else (k, v) :: mapDelete key r
  end.

(** [Map.prototype.set]: a present key keeps its place, a new one goes
    last. *)
Fixpoint mapSet (key : K) (value : V) (m : list (K * V)) : list (K * V) :=
  match m with
  | [] => [(key, value)]
  | (k, v) :: r =>
      if decide (k = key) then (k, value) :: r
      else (k, v) :: mapSet key value r
  end.

Definition closeIfPresent (v : V) (calls : list V) : list V :=
  if hasClose v then calls ++ [v] else calls.

Definition lruGet (key : K) (c : LRUCache) : option V * LRUCache :=
  match mapGet key (cache c) with
  | None => (None, c)
  | Some value =>
      (Some value,
       mkLRUCache (maxSize c) (mapSet key value (mapDelete key (cache c)))
         (closeCalls c))
  end.

Definition lruSet (key : K) (value : V) (c : LRUCache) : LRUCache :=
  if mapHas key (cache c) then
    mkLRUCache (maxSize c) (mapSet key value (mapDelete key (cache c)))
      (closeCalls c)
  else if Z.of_nat (length (cache c)) >=? maxSize c then
    match cache c with
    | (firstKey, evicted) :: _ =>
        mkLRUCache (maxSize c)
          (mapSet key value (mapDelete firstKey (cache c)))
          (closeIfPresent evicted (closeCalls c))
    | [] => mkLRUCache (maxSize c) (mapSet key value (cache c)) (closeCalls c)
    end
  else mkLRUCache (maxSize c) (mapSet key value (cache c)) (closeCalls c).

Definition lruHas (key : K) (c : LRUCache) : bool := mapHas key (cache c).

Definition lruDelete (key : K) (c : LRUCache) : bool * LRUCache :=
  match mapGet key (cache c) with
  | Some value =>
      (true, mkLRUCache (maxSize c) (mapDelete key (cache c))
               (closeIfPresent value (closeCalls c)))
  | None => (false, c)
  end.

Definition lruClear (c : LRUCache) : LRUCache :=
  mkLRUCache (maxSize c) []
    (fold_left (fun calls v => closeIfPresent v calls)
       (map snd (cache c)) (closeCalls c)).

Definition lruSize (c : LRUCache) : Z := Z.of_nat (length (cache c)).
Definition lruKeys (c : LRUCache) : list K := map fst (cache c).
Definition lruValues (c : LRUCache) : list V := map snd (cache c).

(** [set] called on each pair in turn. *)
Definition lruSetAll (kvs : list (K * V)) (c : LRUCache) : LRUCache :=
  fold_left (fun acc kv => lruSet (fst kv) (snd kv) acc) kvs c.

(** Promotion: the entry leaves its place and goes last. *)
Definition promoted (key : K) (value : V) (m : list (K * V)) : list (K * V) :=
  mapDelete key m ++ [(key, value)].
End LRUCacheModel.

Arguments LRUCache : clear implicits.

(* ===================================================================== *)
(** * js/main.js: the view transform *)
(* ===================================================================== *)

Definition nadd (x y : Number) : Number :=
  match x, y with
  | NaN, _ | _, NaN => NaN
  | Infinity a, Infinity b => if Bool.eqb a b then Infinity a else NaN
  | Infinity a, Finite _ | Finite _, Infinity a => Infinity a
  | Finite p, Finite q => Finite (p + q)%Q
  end.

Definition nneg (x : Number) : Number :=
  match x with
  | NaN => NaN
  | Infinity a => Infinity (negb a)
  | Finite p => Finite (- p)%Q
  end.

Definition nsub (x y : Number) : Number := nadd x (nneg y).

Definition isNegative (q : Q) : bool := negb (Qle_bool 0%Q q).
Definition isZero (q : Q) : bool := Qeq_bool q 0%Q.

Definition nmul (x y : Number) : Number :=
  match x, y with
  | NaN, _ | _, NaN => NaN
  | Infinity a, Infinity b => Infinity (xorb a b)
  | Infinity a, Finite q | Finite q, Infinity a =>
      if isZero q then NaN else Infinity (xorb a (isNegative q))
  | Finite p, Finite q => Finite (p * q)%Q
  end.

(** Division; the sign of a zero divisor is not modelled, a zero divisor
    counts as positive. *)
Definition ndiv (x y : Number) : Number :=
  match x, y with
  | NaN, _ | _, NaN => NaN
  | Infinity _, Infinity _ => NaN
  | Infinity a, Finite q => Infinity (xorb a (isNegative q))
  | Finite _, Infinity _ => Finite 0%Q
  | Finite p, Finite q =>
      if isZero q then (if isZero p then NaN else Infinity (isNegative p))
      else Finite (p / q)%Q
  end.

(** [Math.min(x, y)] *)
Definition nmin (x y : Number) : Number :=
  match x, y with
  | NaN, _ | _, NaN => NaN
  | _, _ => if lessEq x y then x else y
  end.

(** The module-level variables the transform reads. *)
Record View : Type := mkView {
  currentBitmap : bool;
  currentImageWidth : Number;
  currentImageHeight : Number;
  zoom : Number;
  canvasWidth : Number;
  canvasHeight : Number
}.

Definition getFitScale (v : View) (canvasPxW canvasPxH : Number) : Number :=
  if negb (currentBitmap v) || lessEq (currentImageWidth v) zero
     || lessEq (currentImageHeight v) zero
  then one
  else nmin (ndiv canvasPxW (currentImageWidth v))
            (ndiv canvasPxH (currentImageHeight v)).

Record Transform : Type := mkTransform {
  scale : Number;
  offsetX : Number;
  offsetY : Number
}.

Definition two : Number := Finite 2%Q.

Definition getViewTransform (v : View) : Transform :=
  let canvasW := canvasWidth v in
  let canvasH := canvasHeight v in
  let fit := getFitScale v canvasW canvasH in
  let scale := nmul fit (zoom v) in
  let drawW := nmul (currentImageWidth v) scale in
  let drawH := nmul (currentImageHeight v) scale in
  mkTransform scale (ndiv (nsub canvasW drawW) two) (ndiv (nsub canvasH drawH) two).

Definition canvasPxToImagePx (v : View) (canvasX canvasY : Number)
    : Number * Number :=
  let t := getViewTransform v in
  (ndiv (nsub canvasX (offsetX t)) (scale t),
   ndiv (nsub canvasY (offsetY t)) (scale t)).

Definition imagePxToCanvasPx (v : View) (imgX imgY : Number)
    : Number * Number :=
  let t := getViewTransform v in
  (nadd (offsetX t) (nmul imgX (scale t)),
   nadd (offsetY t) (nmul imgY (scale t))).

(** The range [zoomIn] and [zoomOut] clamp the zoom to. *)
Definition inZoomRange (z : Q) : Prop := (5 # 100 <= z)%Q /\ (z <= 20)%Q.

(* ===================================================================== *)
(** * StateManager.js with the store: who holds which object *)
(* ===================================================================== *)

(** [getCurrentBoxes] and [getBoxesForSave] hand objects of the session to
    the caller.  To say what the caller can do with them, boxes and arrays
    are placed in a store and the session holds references.  An object is
    allocated at the end of the store, so a new reference is the length of
    the store and differs from every reference in use.  The value that a
    reference to an array stands for is read back with [boxesAt], which
    links this model to the lists of the model above. *)
Module Live.

(** The names of the list model that this module gives a second meaning. *)
Abbreviation BoxAction := Action.
Abbreviation boxAction := mkAction.
Abbreviation copyFields := cloneBox.

(** A reference is an address in the store. *)
Abbreviation ref := nat.

Record Store : Type := mkStore {
  objects : list Box;
  arrays : list (list ref)
}.

Definition emptyStore : Store := mkStore [] [].

Definition allocBox (b : Box) (h : Store) : ref * Store :=
  (length (objects h), mkStore (objects h ++ [b]) (arrays h)).

Definition allocArray (a : list ref) (h : Store) : ref * Store :=
  (length (arrays h), mkStore (objects h) (arrays h ++ [a])).

Definition readBox (h : Store) (r : ref) : option Box := objects h !! r.

Definition readArray (h : Store) (a : ref) : list ref :=
  default [] (arrays h !! a).

(** The boxes an array holds, as values. *)
Definition boxesAt (h : Store) (a : ref) : list Box :=
  filterMap (readBox h) (readArray h a).

(** [box.field = v] through a reference: the object at [r] becomes [b]. *)
Definition writeBox (r : ref) (b : Box) (h : Store) : Store :=
  mkStore (<[r := b]> (objects h)) (arrays h).

(** [array.length = 0; array.push(...l)] through a reference. *)
Definition writeArray (a : ref) (l : list ref) (h : Store) : Store :=
  mkStore (objects h) (<[a := l]> (arrays h)).

(** [LabelParser.cloneBox(box)]: a new object with the fields of [box]. *)
Definition cloneBox (r : ref) (h : Store) : ref * Store :=
  match readBox h r with
  | Some b => allocBox (copyFields b) h
  | None => (r, h)
  end.

(** [boxes.map(box => cloneBox(box))] on a list of references: the new
    references and the store after the allocations. *)
Fixpoint cloneEach (rs : list ref) (h : Store) : list ref * Store :=
  match rs with
  | [] => ([], h)
  | r :: rest =>
      let '(r', h1) := cloneBox r h in
      let '(rest', h2) := cloneEach rest h1 in
      (r' :: rest', h2)
  end.

(** [LabelParser.cloneBoxes(boxes)]: a new array of new objects. *)
Definition cloneBoxes (a : ref) (h : Store) : ref * Store :=
  let '(rs, h1) := cloneEach (readArray h a) h in
  allocArray rs h1.

Record Action : Type := mkAction {
  action_type : string;
  action_boxes : ref;
  action_timestamp : Z
}.

Record ImageState : Type := mkImageState {
  boxes : ref;
  originalBoxes : ref;
  undoStack : list Action;
  redoStack : list Action
}.

Record StateManager : Type := mkStateManager {
  currentIndex : Z;
  imageStates : gmap Z ImageState;
  globalModified : gset Z
}.

Definition newStateManager : StateManager := mkStateManager (-1) ∅ ∅.

Definition currentState (s : StateManager) : option ImageState :=
  imageStates s !! currentIndex s.

Definition setState (st : ImageState) (s : StateManager) : StateManager :=
  mkStateManager (currentIndex s) (<[currentIndex s := st]> (imageStates s))
    (globalModified s).

Definition initImageState (index : Z) (bs : ref) (s : StateManager) (h : Store)
    : StateManager * Store :=
  match imageStates s !! index with
  | Some _ => (mkStateManager index (imageStates s) (globalModified s), h)
  | None =>
      let '(clonedBoxes, h1) := cloneBoxes bs h in
      let '(originals, h2) := cloneBoxes bs h1 in
      (mkStateManager index
         (<[index := mkImageState clonedBoxes originals [] []]> (imageStates s))
         (globalModified s), h2)
  end.

(** [return state ? state.boxes : []] *)
Definition getCurrentBoxes (s : StateManager) (h : Store) : ref * Store :=
  match currentState s with
  | Some st => (boxes st, h)
  | None => allocArray [] h
  end.

Definition isLive (h : Store) (r : ref) : bool :=
  match readBox h r with
  | Some b => negb (deleted b)
  | None => false
  end.

(** [return state.boxes.filter(b => !b.deleted)] *)
Definition getBoxesForSave (s : StateManager) (h : Store) : ref * Store :=
  match currentState s with
  | None => allocArray [] h
  | Some st => allocArray (List.filter (isLive h) (readArray h (boxes st))) h
  end.

Definition pushTrimmed (stack : list Action) (a : Action) : list Action :=
  let pushed := stack ++ [a] in
  if Z.of_nat (length pushed) >? maxStackSize then tail pushed else pushed.

Definition recordAction (type : string) (affectedBoxes : list ref) (now : Z)
    (s : StateManager) (h : Store) : StateManager * Store :=
  match currentState s with
  | None => (s, h)
  | Some st =>
      let '(rs, h1) := cloneEach affectedBoxes h in
      let '(a, h2) := allocArray rs h1 in
      (setState (mkImageState (boxes st) (originalBoxes st)
                   (pushTrimmed (undoStack st) (mkAction type a now)) []) s,
       h2)
  end.

Definition isSelectedLiveAt (h : Store) (r : ref) : bool :=
  match readBox h r with
  | Some b => isSelectedLive b
  | None => false
  end.

(** [for (const box of selected) { box.deleted = true; box.selected = false }] *)
Definition markDeleted (rs : list ref) (h : Store) : Store :=
  fold_left
    (fun acc r =>
       match readBox acc r with
       | Some b => writeBox r (setFlags true b) acc
       | None => acc
       end) rs h.

Definition markModified (s : StateManager) : StateManager :=
  mkStateManager (currentIndex s) (imageStates s)
    ({[currentIndex s]} ∪ globalModified s).

Definition deleteSelected (now : Z) (s : StateManager) (h : Store)
    : Z * StateManager * Store :=
  match currentState s with
  | None => (0, s, h)
  | Some st =>
      let chosen := List.filter (isSelectedLiveAt h) (readArray h (boxes st)) in
      match chosen with
      | [] => (0, s, h)
      | _ =>
          let '(s1, h1) := recordAction "delete" chosen now s h in
          (Z.of_nat (length chosen), markModified s1, markDeleted chosen h1)
      end
  end.

(** The arrays of an image that the class keeps to itself: the snapshot
    and the boxes of the recorded actions. *)
Definition keptArrays (st : ImageState) : list ref :=
  originalBoxes st :: map action_boxes (undoStack st ++ redoStack st).

(** The arrays of the session other than the working array of the current
    image. *)
Definition otherArrays (s : StateManager) : list ref :=
  flat_map
    (fun entry =>
       (if bool_decide (fst entry = currentIndex s) then []
        else [boxes (snd entry)]) ++ keptArrays (snd entry))
    (map_to_list (imageStates s)).

Definition elemOf (r : ref) (l : list ref) : bool := existsb (Nat.eqb r) l.

(** The array [a'] is allocated, is not the array [a], and holds allocated
    boxes none of which is in [a]. *)
Definition apartFrom (h : Store) (a : ref) (a' : ref) : bool :=
  negb (Nat.eqb a' a) && (a' <? length (arrays h))%nat
  && forallb (fun r => negb (elemOf r (readArray h a))
                       && (r <? length (objects h))%nat)
       (readArray h a').

(** No array the session holds besides the current working array shares
    the working array or one of its boxes, and the references are
    allocated: snapshots and recorded actions are clones of their own. *)
Definition separated (s : StateManager) (h : Store) : bool :=
  match currentState s with
  | Some st =>
      (boxes st <? length (arrays h))%nat
      && forallb (apartFrom h (boxes st)) (otherArrays s)
  | None => forallb (apartFrom h (length (arrays h))) (otherArrays s)
  end.

(** What a caller can do to the store with the array reference [a] it was
    given: everything allocated keeps its value, except the array [a] and
    the boxes in it. *)
Definition changedThrough (a : ref) (h h' : Store) : Prop :=
  (forall r b, objects h !! r = Some b -> elemOf r (readArray h a) = false ->
     objects h' !! r = Some b) /\
  (forall a' l, arrays h !! a' = Some l -> a' <> a -> arrays h' !! a' = Some l).

(** The values behind one image state: the lists of the model above. *)
Definition reifyAction (h : Store) (a : Action) : BoxAction :=
  boxAction (action_type a) (boxesAt h (action_boxes a)) (action_timestamp a).

Definition kept (h : Store) (st : ImageState)
    : list Box * list BoxAction * list BoxAction :=
  (boxesAt h (originalBoxes st), map (reifyAction h) (undoStack st),
   map (reifyAction h) (redoStack st)).

End Live.

(* ===================================================================== *)
(** * The claims in the words of the specification *)
(* ===================================================================== *)

(** ** Words of the claims about undo and redo *)

(** [foundById] and [recordedIn] as tests. *)
Definition isFirst (bs : list Box) (k : nat) (b : Box) : bool :=
  forallb (fun b' => negb (String.eqb (id b') (id b))) (take k bs).

Definition isRecorded (saved : list Box) (b : Box) : bool :=
  existsb (fun sb => String.eqb (id sb) (id b)) saved.

(** The working collection after a successful undo or redo, by the type of
    the action replayed. *)
Definition replayed (flag : option bool) (saved bs : list Box) : list Box :=
  match flag with
  | Some d => replay d saved bs
  | None => bs
  end.

(** [after] is [b] with [d] in [deleted] and [false] in [selected]; every
    other field holds what it held in [b]. *)
Definition flagsWritten (d : bool) (b after : Box) : Prop :=
  deleted after = d /\ selected after = false /\
  id after = id b /\ classId after = classId b /\
  xCenter after = xCenter b /\ yCenter after = yCenter b /\
  width after = width b /\ height after = height b /\
  lineIndex after = lineIndex b.

(** What one box of the working collection becomes: [deleted] holds the
    flag and [selected] is false when the box is the one found for the id
    of a recorded box, the box as it was otherwise.  An action whose type
    is neither "delete" nor "restore" has no flag and changes no box. *)
Definition replayedBox (flag : option bool) (saved bs : list Box) (k : nat)
    (b after : Box) : Prop :=
  match flag with
  | Some d =>
      (recordedIn saved b /\ foundById bs k b -> flagsWritten d b after) /\
      (~ (recordedIn saved b /\ foundById bs k b) -> after = b)
  | None => after = b
  end.

(** The replay as the specification words it: every box found for the id
    of a recorded box has its [deleted] flag toggled and [selected]
    cleared. *)
Definition togglesMatched (saved before after : list Box) : Prop :=
  forall k b,
    before !! k = Some b -> recordedIn saved b -> foundById before k b ->
    exists b', after !! k = Some b' /\
      deleted b' = negb (deleted b) /\ selected b' = false.

Definition replayTogglesClaim : Prop :=
  forall (s : StateManager) (st : ImageState) (action : Action)
         (rest : list Action),
    currentState s = Some st ->
    (undoStack st = rest ++ [action] ->
     fst (undo s) = true /\
     exists st', currentState (snd (undo s)) = Some st' /\
       togglesMatched (action_boxes action) (boxes st) (boxes st')) /\
    (redoStack st = rest ++ [action] ->
     fst (redo s) = true /\
     exists st', currentState (snd (redo s)) = Some st' /\
       togglesMatched (action_boxes action) (boxes st) (boxes st')).

(** The snapshot of the current image. *)
Definition currentOriginalBoxes (s : StateManager) : list Box :=
  match currentState s with
  | Some st => originalBoxes st
  | None => []
  end.

(** The rule as it stands after the recomputation. *)
Definition modifiedByRule (s : StateManager) : Prop :=
  currentIndex s ∈ globalModified s <->
  exists box, In box (getCurrentBoxes s) /\
              differentFromOriginal (currentOriginalBoxes s) box.

(** ** Words of the claim about the stack bound *)

(** The last [n] elements. *)
Definition lastN {A} (n : nat) (l : list A) : list A := drop (length l - n) l.

(** The two stacks of an image hold 50 actions together at most. *)
Definition stacksWithinBound (st : ImageState) : Prop :=
  (length (undoStack st) + length (redoStack st) <= 50)%nat.

Definition allWithinBound (m : gmap Z ImageState) : Prop :=
  forall i st, m !! i = Some st -> stacksWithinBound st.

(** The action [recordAction] builds from its arguments. *)
Definition toAction (a : string * list Box * Z) : Action :=
  mkAction (fst (fst a)) (map cloneBox (snd (fst a))) (snd a).

(** [recordAction] called for each entry in turn. *)
Definition recordAll (acts : list (string * list Box * Z)) (s : StateManager)
    : StateManager :=
  fold_left (fun acc a => recordAction (fst (fst a)) (snd (fst a)) (snd a) acc)
    acts s.

(** The stamps of the undo stack of the current image, oldest first. *)
Definition undoTimestamps (s : StateManager) : list Z :=
  match currentState s with
  | Some st => map action_timestamp (undoStack st)
  | None => []
  end.

(** Some box is not deleted. *)
Definition hasLive (bs : list Box) : bool := existsb (fun b => negb (deleted b)) bs.

(** [0; 1; ...; n - 1] *)
Definition seqZ (n : nat) : list Z := map Z.of_nat (seq 0 n).

(** ** The view transform on rationals *)

(** [Math.min] on rationals. *)
Definition qmin (a b : Q) : Q := if Qle_bool a b then a else b.

(** The fit scale of a view whose numbers are finite, as a rational. *)
Definition fitScaleQ (bitmap : bool) (iw ih cw ch : Q) : Q :=
  if negb bitmap || Qle_bool iw 0 || Qle_bool ih 0 then 1%Q
  else qmin (cw / iw) (ch / ih).

(** The scale and the offsets of a view whose numbers are finite. *)
Definition scaleQ (bitmap : bool) (iw ih z cw ch : Q) : Q :=
  (fitScaleQ bitmap iw ih cw ch * z)%Q.

Definition offsetQ (canvas image scale : Q) : Q :=
  ((canvas - image * scale) / 2)%Q.

(** ** Strings and digits *)




(** The first element passes the test. *)
Definition headIs {A} (p : A -> bool) (l : list A) : bool :=
  match l with
  | x :: _ => p x
  | [] => false
  end.




(** ** Words of the round trip *)


(** [0 <= x <= 1] and [0 < x <= 1] on numbers. *)
Definition inUnitClosed (x : Number) : Prop :=
  exists q, x = Finite q /\ (0 <= q)%Q /\ (q <= 1)%Q.

Definition inUnitHalfOpen (x : Number) : Prop :=
  exists q, x = Finite q /\ (0 < q)%Q /\ (q <= 1)%Q.

(** The valid ranges of the fields of a box. *)
Definition validBox (b : Box) : Prop :=
  0 <= classId b /\ inUnitClosed (xCenter b) /\ inUnitClosed (yCenter b) /\
  inUnitHalfOpen (width b) /\ inUnitHalfOpen (height b).








(** ** Sessions and boxes used as instances *)

(** Two parsed boxes, the first one selected. *)
Definition boxA : Box :=
  mkBox "a" 0 (Finite (1 # 2)) (Finite (1 # 2)) (Finite (1 # 5)) (Finite (2 # 5))
    false true 0.

Definition boxB : Box :=
  mkBox "b" 2 (Finite (1 # 10)) (Finite (1 # 10)) (Finite (1 # 20)) (Finite (1 # 20))
    false false 1.



(** A box whose class id prints in exponent notation. *)
Definition farClassBox : Box :=
  mkBox "f" (10 ^ 21) (Finite (1 # 2)) (Finite (1 # 2)) (Finite (1 # 2)) (Finite (1 # 2))
    false false 0.

(** The image opened with the two demo boxes, and the selected one deleted. *)
Definition openedSession : StateManager :=
  initImageState 0 [boxA; boxB] newStateManager.

Definition deletedSession : StateManager := snd (deleteSelected 7 openedSession).

(** A session whose last action also names a box that is not in the
    working collection: [recordAction('restore', [strayBox, boxA])] on the
    opened image, where [boxA] is live and selected. *)
Definition strayBox : Box :=
  mkBox "gone" 1 (Finite (1 # 2)) (Finite (1 # 2)) (Finite (1 # 5)) (Finite (1 # 5))
    false false 5.

Definition straySession : StateManager :=
  recordAction "restore" [strayBox; boxA] 3 openedSession.

(** [boxA] as the undo of that action leaves it: deleted, not selected. *)
Definition boxADeleted : Box :=
  mkBox "a" 0 (Finite (1 # 2)) (Finite (1 # 2)) (Finite (1 # 5)) (Finite (2 # 5))
    true false 0.

(** [recordAction('delete', [boxB])] on the opened image, where [boxB] is
    live, and the same call with a type the replay does not know. *)
Definition liveDeleteSession : StateManager :=
  recordAction "delete" [boxB] 3 openedSession.

Definition moveSession : StateManager :=
  recordAction "move" [boxA] 3 openedSession.

(** The caller's array of two parsed boxes, the first one selected. *)
Definition callerStore : Live.Store := Live.mkStore [boxA; boxB] [[0%nat; 1%nat]].

(** The image opened with that array, then the selected box deleted. *)
Definition demoSession : Live.StateManager * Live.Store :=
  let '(s1, h1) := Live.initImageState 0 0%nat Live.newStateManager callerStore in
  let '(_, s2, h2) := Live.deleteSelected 7 s1 h1 in
  (s2, h2).

(** The array [a] and the boxes in it are allocated. *)
Definition allocatedArray (h : Live.Store) (a : Live.ref) : Prop :=
  (a < length (Live.arrays h))%nat /\
  Forall (fun r => (r < length (Live.objects h))%nat) (Live.readArray h a).

(** The array a read returns, the store after the read, and the boxes the
    caller reaches through the array. *)
Definition handedOut (s : Live.StateManager) (h : Live.Store)
    (a : Live.ref) (h1 : Live.Store) : Prop :=
  Live.getCurrentBoxes s h = (a, h1) \/ Live.getBoxesForSave s h = (a, h1).

(** The claim as the specification words it: whatever is done through the
    array a read returns, the working collection keeps its boxes. *)
Definition readsReturnCopies : Prop :=
  forall s h a h1 h',
    Live.separated s h = true -> handedOut s h a h1 ->
    Live.changedThrough a h1 h' ->
    forall st, Live.currentState s = Some st ->
      Live.boxesAt h' (Live.boxes st) = Live.boxesAt h (Live.boxes st).

(* ===================================================================== *)
(** * js/LabelParser.js: parse on binary64 numbers *)
(* ===================================================================== *)

(** Whether [parse] takes a line depends on the numbers its tokens are read
    as, and at the end points of the ranges on their rounding: "1e-400" is
    read as 0, which is no width, and "1.0000000000000000001" as 1, which is
    a centre.  [Binary64] gives [parseInt], [parseFloat] and [parse] with
    the numbers the engine computes: the value of the literal, rounded to
    the nearest binary64 number, ties to even, which is what V8 and the
    other engines do for a literal of any length (past the twentieth
    significant digit the standard leaves them a choice).  A number is
    still a [Number]; the rationals in it are binary64 numbers in lowest
    terms, and the two zeros are one, as no test of [parse] tells them
    apart. *)

Module Binary64.

Definition pow2 (e : Z) : Q := Qpower 2 e.

(** The integer [e] with [2^e <= q < 2^(e+1)], for [q > 0]. *)
Definition floorLog2 (q : Q) : Z :=
  let e := Z.log2 (Qnum q) - Z.log2 (Zpos (Qden q)) in
  if Qle_bool (pow2 e) q then e else e - 1.

(** The nearest integer, the even one of two that are equally near. *)
Definition roundHalfEven (q : Q) : Z :=
  let f := Qfloor q in
  match Qcompare (q - inject_Z f) (1 # 2) with
  | Lt => f
  | Gt => f + 1
  | Eq => if Z.even f then f else f + 1
  end.

(** The exponent of the last place of the binary64 numbers from [2^e] to
    [2^(e+1)]: 53 significant bits, and no place below [2^-1074]. *)
Definition lastPlace (e : Z) : Z := Z.max (e - 52) (-1074).

(** The Number value of a rational: the nearest multiple of the last
    place, an infinity from [2^1024] on. *)
Definition ofRational (q : Q) : Number :=
  let q := Qred q in
  let a := Qabs q in
  if Qeq_bool a 0 then Finite 0
  else
    let u := lastPlace (floorLog2 a) in
    let m := roundHalfEven (a / pow2 u) in
    let r := Qred (inject_Z m * pow2 u) in
    if Qle_bool (pow2 1024) r then Infinity (negb (Qle_bool 0 q))
    else Finite (if Qle_bool 0 q then r else Qopp r).

Definition ofNumber (x : Number) : Number :=
  match x with
  | Finite q => ofRational q
  | _ => x
  end.

(** [parseInt(s, 10)]: the integer of the digits read, which [parseInt]
    above gives, as a number; [NaN] when no digit is read. *)
Definition parseInt (s : chars) : Number :=
  match parseInt s with
  | Some n => ofRational (inject_Z n)
  | None => NaN
  end.

(** [parseFloat(s)]: the value of the literal read, which [parseFloat]
    above gives, as a number. *)
Definition parseFloat (s : chars) : Number := ofNumber (parseFloat s).

Record Box : Type := mkBox {
  id : string;
  classId : Number;
  xCenter : Number;
  yCenter : Number;
  width : Number;
  height : Number;
  deleted : bool;
  selected : bool;
  lineIndex : nat
}.

(** The test of [parse] on the five parsed values. *)
Definition validValues (c x y w h : Number) : bool :=
  negb (isNaN c) && greaterEq c zero
  && negb (isNaN x) && greaterEq x zero && lessEq x one
  && negb (isNaN y) && greaterEq y zero && lessEq y one
  && negb (isNaN w) && greater w zero && lessEq w one
  && negb (isNaN h) && greater h zero && lessEq h one.

(** One turn of the loop of [parse] on [lines[i]]: the box pushed, if any.
    [uuid] is the identifier [crypto.randomUUID()] returns at this call. *)
Definition parseLine (uuid : string) (i : nat) (raw : chars) : option Box :=
  let line := trim raw in
  match line with
  | [] => None
  | _ =>
      if startsWith "#" line then None
      else
        match splitWhite line with
        | p0 :: p1 :: p2 :: p3 :: p4 :: _ =>
            let c := parseInt p0 in
            let x := parseFloat p1 in
            let y := parseFloat p2 in
            let w := parseFloat p3 in
            let h := parseFloat p4 in
            if validValues c x y w h then
              Some (mkBox uuid c x y w h false false i)
            else None
        | _ => None
        end
  end.

(** The loop of [parse]: [i] is the line index, [k] the number of
    identifiers drawn so far. *)
Fixpoint parseLines (randomUUID : nat -> string) (i k : nat)
    (lines : list chars) : list Box :=
  match lines with
  | [] => []
  | raw :: rest =>
      match parseLine (randomUUID k) i raw with
      | Some b => b :: parseLines randomUUID (S i) (S k) rest
      | None => parseLines randomUUID (S i) k rest
      end
  end.

(** [LabelParser.parse(content)].  [randomUUID k] is the result of the
    [k]-th call of [crypto.randomUUID()]. *)
Definition parse (randomUUID : nat -> string) (content : string) : list Box :=
  let s := chr content in
  match trim s with
  | [] => []
  | t => parseLines randomUUID 0 0 (split "010"%char t)
  end.

(** The five numbers of a box. *)
Definition Values : Type := Number * Number * Number * Number * Number.

Definition boxValues (b : Box) : Values :=
  (classId b, xCenter b, yCenter b, width b, height b).

(** What the body of the loop of [parse] computes from the trimmed line. *)
Definition trimmedValues (line : chars) : option Values :=
  match line with
  | [] => None
  | _ =>
      if startsWith "#" line then None
      else
        match splitWhite line with
        | p0 :: p1 :: p2 :: p3 :: p4 :: _ =>
            if validValues (parseInt p0) (parseFloat p1) (parseFloat p2)
                 (parseFloat p3) (parseFloat p4)
            then Some (parseInt p0, parseFloat p1, parseFloat p2,
                       parseFloat p3, parseFloat p4)
            else None
        | _ => None
        end
  end.

End Binary64.

(** ** Words of the parse contract *)

(** The definitions of this part are written from the parse contract of
    the specification and from the grammar of numeric literals, not from
    the code: they are what [Binary64.parse] is compared with. *)







(** The ten digits and what they stand for. *)
Definition digitNames : list (ascii * Z) :=
  [("0"%char, 0); ("1"%char, 1); ("2"%char, 2); ("3"%char, 3); ("4"%char, 4);
   ("5"%char, 5); ("6"%char, 6); ("7"%char, 7); ("8"%char, 8); ("9"%char, 9)].

Definition digitOf (c : ascii) : option Z :=
  option_map snd (List.find (fun p => Ascii.eqb (fst p) c) digitNames).

Definition isDecimalDigit (c : ascii) : bool :=
  match digitOf c with
  | Some _ => true
  | None => false
  end.

(** A run of digits, and the integer it writes: the digit with [k] digits
    after it counts [10^k] times. *)
Definition isNumeral (ds : chars) : bool := forallb isDecimalDigit ds.

Fixpoint numeralValue (ds : chars) : Z :=
  match ds with
  | [] => 0
  | d :: r => default 0 (digitOf d) * 10 ^ Z.of_nat (length r) + numeralValue r
  end.

Inductive Sign : Type := NoSign | PlusSign | MinusSign.

Definition signText (sg : Sign) : chars :=
  match sg with
  | NoSign => []
  | PlusSign => ["+"%char]
  | MinusSign => ["-"%char]
  end.

Definition isMinusSign (sg : Sign) : bool :=
  match sg with
  | MinusSign => true
  | _ => false
  end.

Definition signedZ (sg : Sign) (n : Z) : Z := if isMinusSign sg then - n else n.




(** The first character is a digit. *)
Definition digitAhead (s : chars) : bool :=
  match s with
  | c :: _ => isDecimalDigit c
  | [] => false
  end.


(** The exponent part of a literal and the exponent it writes: nothing,
    or [e] or [E], an optional sign and at least one digit. *)
Inductive exponentPart : chars -> Z -> Prop :=
  | exponent_absent : exponentPart [] 0
  | exponent_present (mark : ascii) (sg : Sign) (ds : chars) :
      mark = "e"%char \/ mark = "E"%char ->
      ds <> [] -> isNumeral ds = true ->
      exponentPart (mark :: signText sg ++ ds) (signedZ sg (numeralValue ds)).








(** ** What the readers of the code consume *)

(** The definitions of this part follow [readExponent] and [parseFloat];
    they name the characters these read, for the proofs that what they
    read is what the contract says. *)





(** ** Texts used as instances *)



(* ===================================================================== *)
(** * js/FileManager.js: file names *)
(* ===================================================================== *)

(** [s.lastIndexOf(c)] for a one-character [c]: the index of the last
    occurrence of [c], [-1] when there is none. *)
Fixpoint lastIndexOf (c : ascii) (s : chars) : Z :=
  match s with
  | [] => -1
  | x :: r =>
      let i := lastIndexOf c r in
      if 0 <=? i then 1 + i
      else if Ascii.eqb x c then 0 else -1
  end.

(** [s.substring(from, to)]: both indices are brought into [0, length],
    and swapped when [from] is the larger. *)
Definition substring (s : chars) (from to : Z) : chars :=
  let len := Z.of_nat (length s) in
  let a := Z.min (Z.max from 0) len in
  let b := Z.min (Z.max to 0) len in
  firstn (Z.to_nat (Z.max a b - Z.min a b)) (skipn (Z.to_nat (Z.min a b)) s).

(** [s.substring(from)] *)
Definition substringFrom (s : chars) (from : Z) : chars :=
  substring s from (Z.of_nat (length s)).

(** [getExtension(filename)] *)
Definition getExtension (filename : string) : string :=
  let lastDot := lastIndexOf "." (chr filename) in
  if lastDot >=? 0
  then string_of_list_ascii (substringFrom (chr filename) lastDot)
  else "".

(** [getBaseName(filename)] *)
Definition getBaseName (filename : string) : string :=
  let lastDot := lastIndexOf "." (chr filename) in
  if lastDot >=? 0
  then string_of_list_ascii (substring (chr filename) 0 lastDot)
  else filename.

(** [entry.baseName + '.txt']: the name under which [main.js] and
    [saveLabels] write the labels of an image. *)
Definition labelFileName (baseName : string) : string :=
  String.append baseName ".txt".

(* ===================================================================== *)
(** * js/LabelParser.js: pixel coordinates, corners and hit tests *)
(* ===================================================================== *)

(** The fields [toPixelCoords] reads and [toNormalizedCoords] writes: a box
    in normalized coordinates, without the [lineIndex] that only [parse]
    adds. *)
Module Normalized.
Record Box : Type := mkBox {
  id : string;
  classId : Z;
  xCenter : Number;
  yCenter : Number;
  width : Number;
  height : Number;
  deleted : bool;
  selected : bool
}.
End Normalized.

(** The object [toPixelCoords] returns. *)
Module Pixel.
Record Box : Type := mkBox {
  id : string;
  classId : Z;
  x : Number;
  y : Number;
  w : Number;
  h : Number;
  deleted : bool;
  selected : bool
}.
End Pixel.

(** A box of [parse] as the argument of [toPixelCoords]. *)
Definition ofBox (b : Box) : Normalized.Box :=
  Normalized.mkBox (id b) (classId b) (xCenter b) (yCenter b) (width b)
    (height b) (deleted b) (selected b).

Definition toPixelCoords (box : Normalized.Box) (imageWidth imageHeight : Number)
    : Pixel.Box :=
  let w := nmul (Normalized.width box) imageWidth in
  let h := nmul (Normalized.height box) imageHeight in
  let x := nsub (nmul (Normalized.xCenter box) imageWidth) (ndiv w two) in
  let y := nsub (nmul (Normalized.yCenter box) imageHeight) (ndiv h two) in
  Pixel.mkBox (Normalized.id box) (Normalized.classId box) x y w h
    (Normalized.deleted box) (Normalized.selected box).

Definition toNormalizedCoords (pixelBox : Pixel.Box)
    (imageWidth imageHeight : Number) : Normalized.Box :=
  let xCenter :=
    ndiv (nadd (Pixel.x pixelBox) (ndiv (Pixel.w pixelBox) two)) imageWidth in
  let yCenter :=
    ndiv (nadd (Pixel.y pixelBox) (ndiv (Pixel.h pixelBox) two)) imageHeight in
  let width := ndiv (Pixel.w pixelBox) imageWidth in
  let height := ndiv (Pixel.h pixelBox) imageHeight in
  Normalized.mkBox (Pixel.id pixelBox) (Pixel.classId pixelBox)
    xCenter yCenter width height
    (Pixel.deleted pixelBox) (Pixel.selected pixelBox).

(** [{x1, y1, x2, y2}] *)
Module Corners.
Record t : Type := make {
  x1 : Number;
  y1 : Number;
  x2 : Number;
  y2 : Number
}.
End Corners.

(** A call returns a value or throws an [Error] with a message. *)
Inductive Outcome (A : Type) : Type :=
  | Returned (value : A)
  | Threw (message : string).
Arguments Returned {A} value.
Arguments Threw {A} message.

(** The box argument of [getCorners] and [pointInBox]: with [x] and [y]
    (pixel coordinates) or without them (normalized coordinates). *)
Inductive AnyBox : Type :=
  | InPixels (p : Pixel.Box)
  | InNormalized (b : Normalized.Box).

(** Truth value of an argument whose default is [null]: [null], [0] and
    [NaN] are false. *)
Definition truthy (a : option Number) : bool :=
  match a with
  | None => false
  | Some NaN => false
  | Some (Infinity _) => true
  | Some (Finite q) => negb (isZero q)
  end.

Definition getCorners (box : AnyBox) (imageWidth imageHeight : option Number)
    : Outcome Corners.t :=
  match box with
  | InPixels p =>
      Returned (Corners.make (Pixel.x p) (Pixel.y p)
                  (nadd (Pixel.x p) (Pixel.w p)) (nadd (Pixel.y p) (Pixel.h p)))
  | InNormalized b =>
      match imageWidth, imageHeight with
      | Some iw, Some ih =>
          if truthy imageWidth && truthy imageHeight then
            let pixel := toPixelCoords b iw ih in
            Returned (Corners.make (Pixel.x pixel) (Pixel.y pixel)
                        (nadd (Pixel.x pixel) (Pixel.w pixel))
                        (nadd (Pixel.y pixel) (Pixel.h pixel)))
          else Threw "Cannot get corners: need pixel coords or image dimensions"
      | _, _ => Threw "Cannot get corners: need pixel coords or image dimensions"
      end
  end.

(** The rectangle argument of [rectsIntersect]: [{x, y, w, h}] or
    [{x1, y1, x2, y2}]. *)
Inductive Rect : Type :=
  | XYWH (x y w h : Number)
  | X1Y1X2Y2 (c : Corners.t).

(** [{x1: r.x1 ?? r.x, y1: r.y1 ?? r.y, x2: r.x2 ?? (r.x + r.w),
      y2: r.y2 ?? (r.y + r.h)}] *)
Definition normalizeRect (r : Rect) : Corners.t :=
  match r with
  | XYWH x y w h => Corners.make x y (nadd x w) (nadd y h)
  | X1Y1X2Y2 c => c
  end.

Definition rectsIntersect (rect1 rect2 : Rect) : bool :=
  let a := normalizeRect rect1 in
  let b := normalizeRect rect2 in
  negb (less (Corners.x2 a) (Corners.x1 b)
        || less (Corners.x2 b) (Corners.x1 a)
        || less (Corners.y2 a) (Corners.y1 b)
        || less (Corners.y2 b) (Corners.y1 a)).

Definition pointInBox (px py : Number) (box : AnyBox)
    (imageWidth imageHeight : option Number) : Outcome bool :=
  match getCorners box imageWidth imageHeight with
  | Threw message => Threw message
  | Returned corners =>
      Returned (greaterEq px (Corners.x1 corners)
                && lessEq px (Corners.x2 corners)
                && greaterEq py (Corners.y1 corners)
                && lessEq py (Corners.y2 corners))
  end.

(** ** Words of the facts about coordinates *)

(** A box in normalized coordinates whose four coordinates are the given
    rationals, up to equality of rationals. *)
Definition normalizedAt (b : Normalized.Box) (xc yc wd ht : Q) : Prop :=
  exists xc' yc' wd' ht',
    Normalized.xCenter b = Finite xc' /\ Normalized.yCenter b = Finite yc' /\
    Normalized.width b = Finite wd' /\ Normalized.height b = Finite ht' /\
    (xc' == xc)%Q /\ (yc' == yc)%Q /\ (wd' == wd)%Q /\ (ht' == ht)%Q.

Definition pixelAt (p : Pixel.Box) (px py pw ph : Q) : Prop :=
  exists px' py' pw' ph',
    Pixel.x p = Finite px' /\ Pixel.y p = Finite py' /\
    Pixel.w p = Finite pw' /\ Pixel.h p = Finite ph' /\
    (px' == px)%Q /\ (py' == py)%Q /\ (pw' == pw)%Q /\ (ph' == ph)%Q.

(** The point lies in the closed rectangle with corner [(x, y)] and size
    [(w, h)]. *)
Definition inClosedRect (px py x y w h : Q) : Prop :=
  (x <= px)%Q /\ (px <= x + w)%Q /\ (y <= py)%Q /\ (py <= y + h)%Q.

(* ===================================================================== *)
(** * js/main.js: zoom, navigation, hit testing and rubber-band selection *)
(* ===================================================================== *)

(** [Math.max(x, y)] *)
Definition nmax (x y : Number) : Number :=
  match x, y with
  | NaN, _ | _, NaN => NaN
  | _, _ => if lessEq x y then y else x
  end.

(** [Math.abs(x)] *)
Definition nabs (x : Number) : Number :=
  match x with
  | NaN => NaN
  | Infinity _ => Infinity false
  | Finite q => Finite (Qabs q)
  end.

Definition clamp (value min max : Number) : Number :=
  nmax min (nmin max value).


(** [currentIndex >= 0 && currentIndex < datasetLoader.count] *)
Definition hasImageSelected (currentIndex count : Z) : bool :=
  (currentIndex >=? 0) && (currentIndex <? count).

Definition setZoom (z : Number) (v : View) : View :=
  mkView (currentBitmap v) (currentImageWidth v) (currentImageHeight v) z
    (canvasWidth v) (canvasHeight v).

Definition minZoom : Number := Finite (5 # 100).
Definition maxZoom : Number := Finite 20.
Definition zoomFactor : Number := Finite (125 # 100).

(** [Math.floor(x)] *)
Definition nfloor (x : Number) : Number :=
  match x with
  | Finite q => Finite (inject_Z (Qfloor q))
  | _ => x
  end.

(** [x !== y] on numbers; [NaN] differs from every number, itself
    included. *)
Definition notSame (x y : Number) : bool :=
  match x, y with
  | NaN, _ | _, NaN => true
  | Infinity a, Infinity b => negb (Bool.eqb a b)
  | Finite p, Finite q => negb (Qeq_bool p q)
  | _, _ => true
  end.

(** What the page gives a redraw: [window.devicePixelRatio] ([None] when
    it is undefined) and the width and height of
    [ui.canvas.getBoundingClientRect()]. *)
Record Page : Type := mkPage {
  devicePixelRatio : option Number;
  cssWidth : Number;
  cssHeight : Number
}.

(** [resizeCanvasToContainer()]: the canvas gets the size of its box in
    device pixels, at least 1 by 1.  [canvasWidth] and [canvasHeight] are
    [ui.canvas.width] and [ui.canvas.height], which hold the integer
    written to them. *)
Definition resizeCanvasToContainer (page : Page) (v : View) : View :=
  let dpr :=
    match devicePixelRatio page with
    | Some d => if truthy (Some d) then d else one
    | None => one
    end in
  let nextW := nmax one (nfloor (nmul (cssWidth page) dpr)) in
  let nextH := nmax one (nfloor (nmul (cssHeight page) dpr)) in
  if notSame (canvasWidth v) nextW || notSame (canvasHeight v) nextH
  then mkView (currentBitmap v) (currentImageWidth v) (currentImageHeight v)
         (zoom v) nextW nextH
  else v.

(** [draw()] on the view: it resizes the canvas and then paints, reading
    the view and the session and writing neither. *)
Definition draw (page : Page) (v : View) : View :=
  resizeCanvasToContainer page v.

(** [zoomIn()], [zoomOut()] and [zoomFit()] on the module-level [zoom];
    [currentIndex] and [count] are what [hasImageSelected()] reads and
    [page] is what the page gives the redraw.  [updateStatusBar()] writes
    text into the page only. *)
Definition zoomIn (currentIndex count : Z) (page : Page) (v : View) : View :=
  if negb (hasImageSelected currentIndex count) then v
  else draw page (setZoom (clamp (nmul (zoom v) zoomFactor) minZoom maxZoom) v).

Definition zoomOut (currentIndex count : Z) (page : Page) (v : View) : View :=
  if negb (hasImageSelected currentIndex count) then v
  else draw page (setZoom (clamp (ndiv (zoom v) zoomFactor) minZoom maxZoom) v).

Definition zoomFit (currentIndex count : Z) (page : Page) (v : View) : View :=
  if negb (hasImageSelected currentIndex count) then v
  else draw page (setZoom one v).

Inductive ZoomOp : Type := ZoomIn | ZoomOut | ZoomFit.

(** One call, with the page as it is at that call. *)
Definition zoomStep (currentIndex count : Z) (v : View) (o : ZoomOp * Page)
    : View :=
  match fst o with
  | ZoomIn => zoomIn currentIndex count (snd o) v
  | ZoomOut => zoomOut currentIndex count (snd o) v
  | ZoomFit => zoomFit currentIndex count (snd o) v
  end.



(** [getBoxCanvasRect(box)]: [(x, y, w, h)] *)
Definition getBoxCanvasRect (v : View) (box : Box)
    : Number * Number * Number * Number :=
  let pixel :=
    toPixelCoords (ofBox box) (currentImageWidth v) (currentImageHeight v) in
  let p1 := imagePxToCanvasPx v (Pixel.x pixel) (Pixel.y pixel) in
  let p2 := imagePxToCanvasPx v (nadd (Pixel.x pixel) (Pixel.w pixel))
              (nadd (Pixel.y pixel) (Pixel.h pixel)) in
  (fst p1, snd p1, nsub (fst p2) (fst p1), nsub (snd p2) (snd p1)).

(** The test of [getBoxUnderPoint] on one box. *)
Definition underPoint (v : View) (imageX imageY : Number) (b : Box) : bool :=
  let pixel :=
    toPixelCoords (ofBox b) (currentImageWidth v) (currentImageHeight v) in
  greaterEq imageX (Pixel.x pixel)
  && lessEq imageX (nadd (Pixel.x pixel) (Pixel.w pixel))
  && greaterEq imageY (Pixel.y pixel)
  && lessEq imageY (nadd (Pixel.y pixel) (Pixel.h pixel)).

(** The loop [for (let i = boxes.length - 1; i >= 0; i--)] with [n]
    indices left to visit, [n - 1] first. *)
Fixpoint boxUnderPointFrom (v : View) (imageX imageY : Number)
    (boxes : list Box) (n : nat) : option Box :=
  match n with
  | O => None
  | S i =>
      match boxes !! i with
      | None => boxUnderPointFrom v imageX imageY boxes i
      | Some b =>
          if deleted b then boxUnderPointFrom v imageX imageY boxes i
          else if underPoint v imageX imageY b then Some b
          else boxUnderPointFrom v imageX imageY boxes i
      end
  end.

(** [getBoxUnderPoint(imageX, imageY)]; [None] is [null]. *)
Definition getBoxUnderPoint (v : View) (s : StateManager)
    (imageX imageY : Number) : option Box :=
  let boxes := getCurrentBoxes s in
  boxUnderPointFrom v imageX imageY boxes (length boxes).

Definition three : Number := Finite 3.

(** The test of the loop of [finalizeSelectionRect] on one box. *)
Definition caughtBy (v : View) (rectImg : Rect) (b : Box) : bool :=
  negb (deleted b)
  && (let pixel :=
        toPixelCoords (ofBox b) (currentImageWidth v) (currentImageHeight v) in
      rectsIntersect rectImg
        (XYWH (Pixel.x pixel) (Pixel.y pixel) (Pixel.w pixel) (Pixel.h pixel))).

(** [finalizeSelectionRect(addToSelection)]; [selectionRect] is the
    module-level rectangle in canvas pixels, [None] for [null].  The boxes
    the loop writes are the elements of the array [getCurrentBoxes()]
    returns, which is the working array of the session. *)
Definition finalizeSelectionRect (addToSelection : bool)
    (selectionRect : option Corners.t) (v : View) (s : StateManager)
    : StateManager :=
  match selectionRect with
  | None => s
  | Some r =>
      let x1 := nmin (Corners.x1 r) (Corners.x2 r) in
      let y1 := nmin (Corners.y1 r) (Corners.y2 r) in
      let x2 := nmax (Corners.x1 r) (Corners.x2 r) in
      let y2 := nmax (Corners.y1 r) (Corners.y2 r) in
      if less (nabs (nsub x2 x1)) three || less (nabs (nsub y2 y1)) three
      then s
      else
        let imgA := canvasPxToImagePx v x1 y1 in
        let imgB := canvasPxToImagePx v x2 y2 in
        let rectImg :=
          XYWH (nmin (fst imgA) (fst imgB)) (nmin (snd imgA) (snd imgB))
               (nabs (nsub (fst imgB) (fst imgA)))
               (nabs (nsub (snd imgB) (snd imgA))) in
        let s1 := if addToSelection then s else clearSelection s in
        withBoxes (mutateWhere (caughtBy v rectImg) (setSelected true)) s1
  end.

(** ** Words of the facts about selection *)

(** The two lists hold the same boxes up to the [selected] flags. *)
Definition sameButSelection (bs bs' : list Box) : Prop :=
  map (setSelected false) bs' = map (setSelected false) bs.

(** No box is deleted and selected at once. *)
Definition noDeletedSelected (bs : list Box) : Prop :=
  Forall (fun b => deleted b && selected b = false) bs.

(* ===================================================================== *)
(** * StateManager.js: words of the facts about a session *)
(* ===================================================================== *)

(** The calls that only write [selected]. *)
Definition isSelectionOp (o : Op) : bool :=
  match o with
  | OpSelectAll | OpClearSelection | OpToggleBoxSelection _ | OpSelectBox _ =>
      true
  | _ => false
  end.

(** [s'] is [s] up to the [selected] flags of the boxes of the current
    image. *)
Definition onlySelectionChanged (s s' : StateManager) : Prop :=
  currentIndex s' = currentIndex s /\
  globalModified s' = globalModified s /\
  (forall j, j <> currentIndex s -> imageStates s' !! j = imageStates s !! j) /\
  match currentState s with
  | None => s' = s
  | Some st =>
      exists st', currentState s' = Some st' /\
        originalBoxes st' = originalBoxes st /\
        undoStack st' = undoStack st /\ redoStack st' = redoStack st /\
        sameButSelection (boxes st) (boxes st')
  end.

(** The calls that edit the current image: every call but those that
    open, switch, save, reset or clear an image. *)
Definition isEditOp (o : Op) : bool :=
  match o with
  | OpSetCurrentBoxes _ | OpRecordAction _ _ _ | OpUndo | OpRedo
  | OpDeleteSelected _ | OpRestoreDeleted _ _ | OpSelectAll | OpClearSelection
  | OpToggleBoxSelection _ | OpSelectBox _ | OpMarkModified
  | OpUpdateModifiedState => true
  | _ => false
  end.

(** The image a call works on: the one it names, the current one
    otherwise. *)
Definition target (s : StateManager) (o : Op) : Z :=
  match o with
  | OpInitImageState index _ | OpMarkSavedAt index | OpClearImageState index =>
      index
  | _ => currentIndex s
  end.

Definition isClearAll (o : Op) : bool :=
  match o with OpClearAll => true | _ => false end.

(** The boxes a call brings into the session from outside. *)
Definition broughtIn (o : Op) : list Box :=
  match o with
  | OpInitImageState _ bs | OpSetCurrentBoxes bs => bs
  | _ => []
  end.

(** No image of the session has a box that is deleted and selected, in its
    working collection or in its snapshot. *)
Definition noDeletedSelectedIn (s : StateManager) : Prop :=
  forall i st, imageStates s !! i = Some st ->
    noDeletedSelected (boxes st) /\ noDeletedSelected (originalBoxes st).

(** The [deleted] flags, in order. *)
Definition deletedFlags (bs : list Box) : list bool := map deleted bs.

(* ===================================================================== *)
(** * js/LRUCache.js: sequences of calls *)
(* ===================================================================== *)

Section LRUCacheCalls.
Context {K V : Type} `{EqDecision K}.
Variable hasClose : V -> bool.

Inductive LruOp : Type :=
  | LruGet (key : K)
  | LruSet (key : K) (value : V)
  | LruHas (key : K)
  | LruDelete (key : K)
  | LruClear.

Definition lruStep (c : LRUCache K V) (o : LruOp) : LRUCache K V :=
  match o with
  | LruGet key => snd (lruGet key c)
  | LruSet key value => lruSet hasClose key value c
  | LruHas key => c
  | LruDelete key => snd (lruDelete hasClose key c)
  | LruClear => lruClear hasClose c
  end.

Definition lruRun (ops : list LruOp) (c : LRUCache K V) : LRUCache K V :=
  fold_left lruStep ops c.

(** The cache holds each key once and no more entries than its capacity,
    one entry at least being allowed. *)
Definition lruWellFormed (c : LRUCache K V) : Prop :=
  NoDup (lruKeys c) /\ lruSize c <= Z.max 1 (maxSize c).
End LRUCacheCalls.

Arguments LruOp : clear implicits.

(* ===================================================================== *)
(** * DatasetLoader.js: the index of the dataset and the label cache *)
(* ===================================================================== *)

(** [c.toLowerCase()] on a code unit below 256: the letters A-Z and the
    capital letters of Latin-1 (0xC0-0xDE without the multiplication sign
    0xD7) move up by 32. *)
Definition lowerChar (c : ascii) : ascii :=
  let n := code c in
  if ((65 <=? n) && (n <=? 90))%N
     || ((192 <=? n) && (n <=? 222) && negb (n =? 215))%N
  then ascii_of_N (n + 32)
  else c.

(** [s.toLowerCase()] *)
Definition toLowerCase (s : chars) : chars := map lowerChar s.

(** [s.includes(sub)] *)
Fixpoint includes (s sub : chars) : bool :=
  isPrefix sub s
  || match s with
     | [] => false
     | _ :: r => includes r sub
     end.

Module DatasetLoader.

(** An entry of the index.  The file handles and dropped files are opaque
    objects; [labelHandle] and [labelFile] say whether the entry has
    one. *)
Record Entry : Type := mkEntry {
  name : string;
  baseName : string;
  labelHandle : bool;
  labelFile : bool;
  hasLabel : bool;
  modified : bool;
  boxCount : option Z
}.

(** The fields of the loader that the methods below read and write. *)
Record t : Type := mk {
  index : list Entry;
  labelCache : gmap Z (list Box)
}.

Definition setModified (v : bool) (e : Entry) : Entry :=
  mkEntry (name e) (baseName e) (labelHandle e) (labelFile e) (hasLabel e) v
    (boxCount e).


(** [get count()] *)
Definition count (d : t) : Z := Z.of_nat (length (index d)).

(** [i >= 0 && i < this.index.length] *)
Definition inRange (i : Z) (d : t) : bool := (i >=? 0) && (i <? count d).

(** [this.index[i]] for an integer [i] *)
Definition at_ (i : Z) (d : t) : option Entry :=
  if i >=? 0 then index d !! Z.to_nat i else None.

(** [getEntry(i)]; [None] is [null]. *)
Definition getEntry (i : Z) (d : t) : option Entry := at_ i d.

Definition markModified (i : Z) (d : t) : t :=
  if inRange i d
  then mk (alter (setModified true) (Z.to_nat i) (index d)) (labelCache d)
  else d.

Definition markSaved (i : Z) (d : t) : t :=
  if inRange i d
  then mk (alter (setModified false) (Z.to_nat i) (index d)) (labelCache d)
  else d.

Definition isModified (i : Z) (d : t) : bool :=
  if inRange i d
  then match at_ i d with
       | Some e => modified e
       | None => false
       end
  else false.

Definition getModifiedCount (d : t) : Z :=
  Z.of_nat (length (List.filter (fun e => modified e) (index d))).

(** [this.index.map((entry, index) => ({ index, entry }))] *)
Definition indexed (l : list Entry) : list (Z * Entry) :=
  imap (fun i e => (Z.of_nat i, e)) l.

Definition getModifiedEntries (d : t) : list (Z * Entry) :=
  List.filter (fun p => modified (snd p)) (indexed (index d)).

(** [search(query)] for a string [query]. *)
Definition search (query : string) (d : t) : list (Z * Entry) :=
  match chr query, trim (chr query) with
  | [], _ | _, [] => indexed (index d)
  | _, _ =>
      let lowerQuery := toLowerCase (chr query) in
      List.filter
        (fun p => includes (toLowerCase (chr (name (snd p)))) lowerQuery)
        (indexed (index d))
  end.


Record Stats : Type := mkStats {
  total : Z;
  withLabels : Z;
  withoutLabels : Z;
  modifiedCount : Z
}.

Definition getStats (d : t) : Stats :=
  let total := Z.of_nat (length (index d)) in
  let withLabels := Z.of_nat (length (List.filter (fun e => hasLabel e) (index d))) in
  let modified := Z.of_nat (length (List.filter (fun e => modified e) (index d))) in
  mkStats total withLabels (total - withLabels) modified.


End DatasetLoader.


(** The indices of a result of [search] or [getModifiedEntries]. *)
Definition indicesOf (r : list (Z * DatasetLoader.Entry)) : list Z := map fst r.

(** Strictly increasing. *)
Fixpoint increasing (l : list Z) : Prop :=
  match l with
  | [] => True
  | a :: r => match r with [] => True | b :: _ => a < b end /\ increasing r
  end.

(* ===================================================================== *)
(** * Facts *)
(* ===================================================================== *)

(** ** StateManager: basic facts *)

Lemma cloneBox_same (b : Box) : cloneBox b = b.
Proof. destruct b; reflexivity. Qed.

Lemma cloneBoxes_same (bs : list Box) : cloneBoxes bs = bs.
Proof.
  unfold cloneBoxes. induction bs as [|b r IH]; simpl; [reflexivity|].
  rewrite cloneBox_same, IH. reflexivity.
Qed.

Lemma currentState_setState (st : ImageState) (s : StateManager) :
  currentState (setState st s) = Some st.
Proof. unfold currentState, setState; simpl. apply lookup_insert_eq. Qed.

Lemma pop_snoc (l : list Action) (a : Action) : pop (l ++ [a]) = Some (a, l).
Proof. unfold pop. rewrite rev_app_distr; simpl. rewrite rev_involutive. reflexivity. Qed.

Lemma pop_nil_inv (l : list Action) : pop l = None -> l = [].
Proof.
  destruct l as [|x l] using rev_ind; [reflexivity|].
  rewrite pop_snoc. discriminate.
Qed.

Lemma pop_some_inv (l r : list Action) (a : Action) :
  pop l = Some (a, r) -> l = r ++ [a].
Proof.
  destruct l as [|x l _] using rev_ind; [discriminate|].
  rewrite pop_snoc. intros [= -> ->]. reflexivity.
Qed.

(** ** The empty-stack case of undo and redo *)

(** C8: with no state for the current image, or with an empty undo stack,
    [undo] returns false and the session is the one it was given; the same
    holds for [redo] and the redo stack.  Both are total functions: there
    is no error to raise. *)
Theorem undo_redo_nothing_to_do (s : StateManager) :
  ((currentState s = None \/
    exists st, currentState s = Some st /\ undoStack st = []) ->
   undo s = (false, s)) /\
  ((currentState s = None \/
    exists st, currentState s = Some st /\ redoStack st = []) ->
   redo s = (false, s)).
Proof.
  split; intros [Hn | (st & Hs & He)].
  - unfold undo. rewrite Hn. reflexivity.
  - unfold undo. rewrite Hs, He. reflexivity.
  - unfold redo. rewrite Hn. reflexivity.
  - unfold redo. rewrite Hs, He. reflexivity.
Qed.

(** ** Replay: what the loop of undo and redo does to each box *)

Lemma isFirst_spec (bs : list Box) (k : nat) (b : Box) :
  isFirst bs k b = true <-> foundById bs k b.
Proof.
  unfold isFirst, foundById. rewrite forallb_forall. split.
  - intros H j b' Hj Hl. 
    assert (Hin : In b' (take k bs)).
    { apply list_elem_of_In. apply list_elem_of_lookup. exists j.
      rewrite lookup_take_lt; auto. }
    specialize (H _ Hin). apply negb_true_iff in H.
    apply String.eqb_neq in H. exact H.
  - intros H b' Hin. apply list_elem_of_In, list_elem_of_lookup in Hin.
    destruct Hin as [j Hj].
    assert (j < k)%nat.
    { apply lookup_lt_Some in Hj. rewrite length_take in Hj. lia. }
    rewrite lookup_take_lt in Hj by auto.
    apply negb_true_iff, String.eqb_neq. eauto.
Qed.

Lemma isRecorded_spec (saved : list Box) (b : Box) :
  isRecorded saved b = true <-> recordedIn saved b.
Proof.
  unfold isRecorded, recordedIn. rewrite existsb_exists.
  split; intros (sb & Hin & H); exists sb; split; auto.
  - apply String.eqb_eq; auto.
  - apply String.eqb_eq; auto.
Qed.

Lemma setFlags_id d b : id (setFlags d b) = id b.
Proof. reflexivity. Qed.

Lemma setFlags_twice d b : setFlags d (setFlags d b) = setFlags d b.
Proof. reflexivity. Qed.

Lemma updateFound_ids i f bs :
  (forall b, id (f b) = id b) ->
  map id (updateFound i f bs) = map id bs.
Proof.
  intros Hf. induction bs as [|b r IH]; simpl; [reflexivity|].
  destruct (String.eqb (id b) i); simpl; [rewrite Hf | rewrite IH]; reflexivity.
Qed.

Lemma updateFound_lookup i f bs k b :
  bs !! k = Some b ->
  updateFound i f bs !! k =
    Some (if String.eqb (id b) i && isFirst bs k b then f b else b).
Proof.
  revert k. induction bs as [|b0 r IH]; intros k Hk; [discriminate|].
  simpl. destruct (String.eqb (id b0) i) eqn:E0.
  - destruct k as [|k]; simpl in *.
    + injection Hk as <-. rewrite E0. reflexivity.
    + rewrite Hk. unfold isFirst; simpl.
      destruct (String.eqb (id b) i) eqn:Eb; simpl; [|reflexivity].
      apply String.eqb_eq in E0, Eb.
      replace (String.eqb (id b0) (id b)) with true
        by (symmetry; apply String.eqb_eq; congruence).
      reflexivity.
  - destruct k as [|k]; simpl in *.
    + injection Hk as <-. rewrite E0. reflexivity.
    + rewrite (IH _ Hk). unfold isFirst; simpl.
      destruct (String.eqb (id b) i) eqn:Eb; simpl; [|reflexivity].
      apply String.eqb_eq in Eb. apply String.eqb_neq in E0.
      replace (String.eqb (id b0) (id b)) with false
        by (symmetry; apply String.eqb_neq; congruence).
      reflexivity.
Qed.

Lemma isFirst_ids bs bs' k b b' :
  map id bs = map id bs' -> id b = id b' ->
  isFirst bs k b = isFirst bs' k b'.
Proof.
  unfold isFirst. intros Hm Hb. rewrite Hb. clear Hb b.
  revert bs' k Hm. induction bs as [|x r IH]; intros [|y r'] k Hm; try discriminate.
  - reflexivity.
  - simpl in Hm. injection Hm as Hxy Hm. destruct k; simpl; [reflexivity|].
    rewrite Hxy, (IH r' k Hm). reflexivity.
Qed.

Lemma replay_snoc d saved x bs :
  replay d (saved ++ [x]) bs = updateFound (id x) (setFlags d) (replay d saved bs).
Proof. unfold replay. rewrite fold_left_app. reflexivity. Qed.

Lemma replay_ids d saved bs : map id (replay d saved bs) = map id bs.
Proof.
  induction saved as [|x saved IH] using rev_ind; [reflexivity|].
  rewrite replay_snoc, updateFound_ids; auto.
Qed.

Lemma isRecorded_snoc saved x b :
  isRecorded (saved ++ [x]) b = isRecorded saved b || String.eqb (id x) (id b).
Proof.
  unfold isRecorded. rewrite existsb_app. simpl. rewrite orb_false_r. reflexivity.
Qed.

Lemma replay_lookup d saved bs k b :
  bs !! k = Some b ->
  replay d saved bs !! k =
    Some (if isRecorded saved b && isFirst bs k b then setFlags d b else b).
Proof.
  intros Hk. induction saved as [|x saved IH] using rev_ind; [exact Hk|].
  rewrite replay_snoc, (updateFound_lookup _ _ _ _ _ IH), isRecorded_snoc.
  f_equal.
  set (c := if isRecorded saved b && isFirst bs k b then setFlags d b else b).
  assert (Hc : id c = id b) by (subst c; destruct (_ && _); reflexivity).
  rewrite (isFirst_ids (replay d saved bs) bs k c b (replay_ids _ _ _) Hc), Hc.
  rewrite (String.eqb_sym (id b) (id x)).
  subst c. destruct (isRecorded saved b), (isFirst bs k b), (String.eqb (id x) (id b));
    reflexivity.
Qed.

Lemma replay_length d saved bs : length (replay d saved bs) = length bs.
Proof.
  rewrite <- (length_map id (replay d saved bs)), replay_ids, length_map. reflexivity.
Qed.

(** Recorded boxes whose id is not in the working collection change
    nothing. *)
Lemma updateFound_absent i f bs :
  (forall b, In b bs -> id b <> i) -> updateFound i f bs = bs.
Proof.
  induction bs as [|b r IH]; intros H; simpl; [reflexivity|].
  destruct (String.eqb (id b) i) eqn:E.
  - apply String.eqb_eq in E. exfalso. apply (H b); simpl; auto.
  - rewrite IH; auto. intros; apply H; simpl; auto.
Qed.

Lemma currentState_updateModifiedState s :
  currentState (updateModifiedState s) = currentState s.
Proof.
  unfold updateModifiedState. destruct (currentState s) eqn:E; [|exact E].
  unfold currentState in *; simpl. exact E.
Qed.

Lemma undo_pops s st action rest :
  currentState s = Some st -> undoStack st = rest ++ [action] ->
  undo s =
    (true,
     updateModifiedState
       (setState (mkImageState
                    (replayed (undoFlag (action_type action))
                       (action_boxes action) (boxes st))
                    (originalBoxes st) rest (redoStack st ++ [action])) s)).
Proof.
  intros Hs Hu. unfold undo. rewrite Hs, Hu, pop_snoc. unfold undoFlag, replayed.
  destruct (String.eqb (action_type action) "delete"); [reflexivity|].
  destruct (String.eqb (action_type action) "restore"); reflexivity.
Qed.

Lemma redo_pops s st action rest :
  currentState s = Some st -> redoStack st = rest ++ [action] ->
  redo s =
    (true,
     updateModifiedState
       (setState (mkImageState
                    (replayed (redoFlag (action_type action))
                       (action_boxes action) (boxes st))
                    (originalBoxes st) (undoStack st ++ [action]) rest) s)).
Proof.
  intros Hs Hu. unfold redo. rewrite Hs, Hu, pop_snoc.
  unfold redoFlag, undoFlag, replayed.
  destruct (String.eqb (action_type action) "delete"); [reflexivity|].
  destruct (String.eqb (action_type action) "restore"); reflexivity.
Qed.

Lemma setFlags_written (d : bool) (b : Box) : flagsWritten d b (setFlags d b).
Proof. unfold flagsWritten, setFlags. cbn. repeat split. Qed.

Lemma replayed_box flag saved bs k b :
  bs !! k = Some b ->
  exists after, replayed flag saved bs !! k = Some after /\
                replayedBox flag saved bs k b after.
Proof.
  intros Hk. destruct flag as [d|]; simpl.
  - rewrite (replay_lookup _ _ _ _ _ Hk). eexists; split; [reflexivity|].
    destruct (isRecorded saved b) eqn:Er, (isFirst bs k b) eqn:Ef; simpl;
      split; intros H; try reflexivity; try apply setFlags_written.
    + exfalso. apply H. split; [apply isRecorded_spec | apply isFirst_spec]; auto.
    + destruct H as [_ H]. apply isFirst_spec in H. congruence.
    + destruct H as [H _]. apply isRecorded_spec in H. congruence.
    + destruct H as [H _]. apply isRecorded_spec in H. congruence.
  - exists b; auto.
Qed.

Lemma recordActionWith_default type affectedBoxes now s :
  recordActionWith noExtraData type affectedBoxes now s
    = recordAction type affectedBoxes now s.
Proof. reflexivity. Qed.

Lemma replayed_length flag saved bs :
  length (replayed flag saved bs) = length bs.
Proof. destruct flag; simpl; [apply replay_length | reflexivity]. Qed.

(** C10, as amended: whatever the action on top of the stack holds, undo
    and redo return true and the working collection keeps its length.  For
    an action of type "delete" or "restore", each box of the collection
    that [find] returns for the id of a recorded box comes out with
    [deleted] holding a value fixed by the call and the type (false for the
    undo of a delete and the redo of a restore, true for the undo of a
    restore and the redo of a delete), whatever it held before, with
    [selected] false and every other field as it was; every other box is
    left as it was, so a recorded box whose id is not in the collection has
    no effect.  An action of any other type changes no box. *)
Theorem replay_total (s : StateManager) (st : ImageState) (action : Action)
    (rest : list Action) :
  currentState s = Some st ->
  (undoStack st = rest ++ [action] ->
   fst (undo s) = true /\
   exists st',
     currentState (snd (undo s)) = Some st' /\
     length (boxes st') = length (boxes st) /\
     forall k b, boxes st !! k = Some b ->
       exists after, boxes st' !! k = Some after /\
         replayedBox (undoFlag (action_type action)) (action_boxes action)
           (boxes st) k b after) /\
  (redoStack st = rest ++ [action] ->
   fst (redo s) = true /\
   exists st',
     currentState (snd (redo s)) = Some st' /\
     length (boxes st') = length (boxes st) /\
     forall k b, boxes st !! k = Some b ->
       exists after, boxes st' !! k = Some after /\
         replayedBox (redoFlag (action_type action)) (action_boxes action)
           (boxes st) k b after).
Proof.
  intros Hs. split; intros Hu.
  - rewrite (undo_pops _ _ _ _ Hs Hu); simpl. split; [reflexivity|].
    eexists. rewrite currentState_updateModifiedState, currentState_setState.
    split; [reflexivity|]. simpl. split; [apply replayed_length|].
    intros k b Hk. apply replayed_box; auto.
  - rewrite (redo_pops _ _ _ _ Hs Hu); simpl. split; [reflexivity|].
    eexists. rewrite currentState_updateModifiedState, currentState_setState.
    split; [reflexivity|]. simpl. split; [apply replayed_length|].
    intros k b Hk. apply replayed_box; auto.
Qed.

(** C10, the claim as stated fails: [recordAction('delete', [boxB])] puts
    an action on the stack that names the live box [boxB]; undo returns
    true and finds [boxB], whose [deleted] flag is false before and false
    after, not toggled.  An action of a type the replay does not know,
    here "move", leaves [selected] set on the box it names. *)
Lemma replay_toggle_counterexample :
  currentState liveDeleteSession
    = Some (mkImageState [boxA; boxB] [boxA; boxB]
              [mkAction "delete" [boxB] 3] []) /\
  fst (undo liveDeleteSession) = true /\
  getCurrentBoxes (snd (undo liveDeleteSession)) = [boxA; boxB] /\
  fst (undo moveSession) = true /\
  getCurrentBoxes (snd (undo moveSession)) = [boxA; boxB] /\
  ~ replayTogglesClaim.
Proof.
  assert (Hs : currentState liveDeleteSession
    = Some (mkImageState [boxA; boxB] [boxA; boxB]
              [mkAction "delete" [boxB] 3] []))
    by (vm_compute; reflexivity).
  split; [exact Hs|].
  split; [vm_compute; reflexivity|]. split; [vm_compute; reflexivity|].
  split; [vm_compute; reflexivity|]. split; [vm_compute; reflexivity|].
  intros Hclaim.
  destruct (proj1 (Hclaim liveDeleteSession _ (mkAction "delete" [boxB] 3) [] Hs)
              eq_refl) as (_ & st' & Hs' & Htog).
  assert (Hst : currentState (snd (undo liveDeleteSession))
    = Some (mkImageState [boxA; boxB] [boxA; boxB] []
              [mkAction "delete" [boxB] 3]))
    by (vm_compute; reflexivity).
  rewrite Hst in Hs'. injection Hs' as <-.
  destruct (Htog 1%nat boxB eq_refl) as (b' & Hb' & Hd & _).
  - exists boxB. split; [left; reflexivity | reflexivity].
  - intros j x Hj Hx. destruct j as [|j]; [|lia].
    injection Hx as <-. discriminate.
  - cbn in Hb'. injection Hb' as <-. discriminate Hd.
Qed.

(** ** The modification rule *)

Lemma findById_none i orig :
  findById i orig = None <-> forall o, In o orig -> id o <> i.
Proof.
  unfold findById. induction orig as [|o r IH]; simpl.
  - split; [intros _ o [] | reflexivity].
  - destruct (String.eqb (id o) i) eqn:E.
    + split; [discriminate|]. intros H. apply String.eqb_eq in E.
      exfalso. apply (H o); auto.
    + apply String.eqb_neq in E. rewrite IH. split.
      * intros H o' [<- | Hin]; auto.
      * intros H o' Hin. apply H; auto.
Qed.

Lemma findById_some i orig box o :
  id box = i ->
  findById i orig = Some o <-> matchingOriginal orig box o.
Proof.
  intros <-. unfold findById, matchingOriginal.
  induction orig as [|x r IH]; simpl.
  - split; [discriminate|]. intros (pre & post & H & _). destruct pre; discriminate.
  - destruct (String.eqb (id x) (id box)) eqn:E.
    + apply String.eqb_eq in E. split.
      * intros [= <-]. exists [], r. simpl. repeat split; auto; intros p [].
      * intros (pre & post & H & Hid & Hpre). destruct pre as [|y pre]; simpl in H.
        -- injection H as -> _. reflexivity.
        -- injection H as -> _. exfalso. apply (Hpre y); simpl; auto.
    + apply String.eqb_neq in E. rewrite IH. split.
      * intros (pre & post & -> & Hid & Hpre). exists (x :: pre), post.
        repeat split; auto. intros p [<- | Hin]; auto.
      * intros (pre & post & H & Hid & Hpre). destruct pre as [|y pre]; simpl in H.
        -- injection H as -> _. congruence.
        -- injection H as -> ->. exists pre, post. repeat split; auto.
           intros p Hin. apply Hpre; simpl; auto.
Qed.

Lemma differsFromOriginal_spec orig box :
  differsFromOriginal orig box = true <-> differentFromOriginal orig box.
Proof.
  unfold differsFromOriginal, differentFromOriginal.
  destruct (findById (id box) orig) as [o|] eqn:E.
  - pose proof (proj1 (findById_some (id box) orig box o eq_refl) E) as Hm.
    split.
    + intros H. right. exists o. split; auto.
      destruct (deleted box), (deleted o); simpl in H; congruence.
    + intros [Hno | (o' & Hm' & Hd)].
      * exfalso. destruct Hm as (pre & post & -> & Hid & _).
        apply (Hno o); auto. apply in_or_app; simpl; auto.
      * apply (findById_some (id box) orig box o' eq_refl) in Hm'.
        rewrite E in Hm'. injection Hm' as <-.
        destruct (deleted box), (deleted o); simpl; congruence.
  - split; [intros _; left; apply findById_none; auto|]. reflexivity.
Qed.

Lemma hasChanges_spec st :
  hasChanges st = true <->
  exists box, In box (boxes st) /\ differentFromOriginal (originalBoxes st) box.
Proof.
  unfold hasChanges. rewrite existsb_exists.
  split; intros (box & Hin & Hd); exists box;
    (split; [exact Hin | apply differsFromOriginal_spec, Hd]).
Qed.

Lemma updateModifiedState_modified s st :
  currentState s = Some st ->
  currentIndex s ∈ globalModified (updateModifiedState s) <-> hasChanges st = true.
Proof.
  intros Hs. unfold updateModifiedState. rewrite Hs; simpl.
  destruct (hasChanges st); split.
  - reflexivity.
  - intros _. apply elem_of_union_l, elem_of_singleton. reflexivity.
  - intros Hin. apply elem_of_difference in Hin. destruct Hin as [_ Hin].
    exfalso. apply Hin, elem_of_singleton. reflexivity.
  - discriminate.
Qed.

Lemma currentIndex_updateModifiedState s :
  currentIndex (updateModifiedState s) = currentIndex s.
Proof. unfold updateModifiedState. destruct (currentState s); reflexivity. Qed.

Lemma updateModifiedState_rule s st :
  currentState s = Some st -> modifiedByRule (updateModifiedState s).
Proof.
  intros Hs. unfold modifiedByRule, getCurrentBoxes, currentOriginalBoxes.
  rewrite currentState_updateModifiedState, Hs, currentIndex_updateModifiedState.
  rewrite (updateModifiedState_modified _ _ Hs). apply hasChanges_spec.
Qed.

Lemma undo_true_rule s : fst (undo s) = true -> modifiedByRule (snd (undo s)).
Proof.
  unfold undo. destruct (currentState s) as [st|] eqn:Hs; [|discriminate].
  destruct (pop (undoStack st)) as [[action rest]|]; [|discriminate].
  intros _. simpl. eapply updateModifiedState_rule, currentState_setState.
Qed.

Lemma redo_true_rule s : fst (redo s) = true -> modifiedByRule (snd (redo s)).
Proof.
  unfold redo. destruct (currentState s) as [st|] eqn:Hs; [|discriminate].
  destruct (pop (redoStack st)) as [[action rest]|]; [|discriminate].
  intros _. simpl. eapply updateModifiedState_rule, currentState_setState.
Qed.

(** ** Init, delete, undo *)

Lemma same_id_same_box (bs : list Box) (x y : Box) :
  NoDup (map id bs) -> In x bs -> In y bs -> id x = id y -> x = y.
Proof.
  induction bs as [|b r IH]; simpl; intros Hnd Hx Hy Hid; [contradiction|].
  inversion Hnd as [|? ? Hnotin Hnd']; subst.
  destruct Hx as [<- | Hx], Hy as [<- | Hy]; auto.
  - exfalso. apply Hnotin. rewrite Hid. apply list_elem_of_In, in_map, Hy.
  - exfalso. apply Hnotin. rewrite <- Hid. apply list_elem_of_In, in_map, Hx.
Qed.

Lemma findById_unique (bs : list Box) (b : Box) :
  NoDup (map id bs) -> In b bs -> findById (id b) bs = Some b.
Proof.
  intros Hnd Hin. destruct (findById (id b) bs) as [o|] eqn:E.
  - f_equal. apply (proj1 (findById_some (id b) bs b o eq_refl)) in E.
    destruct E as (pre & post & Hbs & Hid & _).
    apply (same_id_same_box bs); auto. rewrite Hbs. apply in_or_app; simpl; auto.
  - exfalso. rewrite findById_none in E. apply (E b); auto.
Qed.

Lemma isFirst_unique (bs : list Box) (k : nat) (b : Box) :
  NoDup (map id bs) -> bs !! k = Some b -> isFirst bs k b = true.
Proof.
  intros Hnd Hk. apply isFirst_spec. intros j b' Hj Hl Hid.
  assert (Hj' : map id bs !! j = Some (id b')) by (rewrite list_lookup_fmap, Hl; reflexivity).
  assert (Hk' : map id bs !! k = Some (id b)) by (rewrite list_lookup_fmap, Hk; reflexivity).
  rewrite Hid in Hj'.
  pose proof (NoDup_lookup _ _ _ _ Hnd Hj' Hk'). lia.
Qed.

Lemma mutateWhere_ids p d bs : map id (mutateWhere p (setFlags d) bs) = map id bs.
Proof.
  unfold mutateWhere. induction bs as [|b r IH]; simpl; [reflexivity|].
  rewrite IH. destruct (p b); reflexivity.
Qed.

Lemma mutateWhere_lookup p f bs k (b : Box) :
  bs !! k = Some b ->
  mutateWhere p f bs !! k = Some (if p b then f b else b).
Proof.
  intros Hk. unfold mutateWhere.
  change (map ?g bs) with (g <$> bs). rewrite list_lookup_fmap, Hk. reflexivity.
Qed.

Lemma isRecorded_filter (p : Box -> bool) (bs : list Box) (b : Box) :
  NoDup (map id bs) -> In b bs ->
  isRecorded (List.filter (fun x => p x) bs) b = p b.
Proof.
  intros Hnd Hin. destruct (p b) eqn:Ep.
  - apply isRecorded_spec. exists b. split; auto. apply filter_In; auto.
  - destruct (isRecorded _ b) eqn:Er; [|reflexivity].
    apply isRecorded_spec in Er. destruct Er as (sb & Hsb & Hid).
    apply filter_In in Hsb. destruct Hsb as [Hsb Hp].
    rewrite (same_id_same_box bs sb b Hnd Hsb Hin Hid) in Hp. congruence.
Qed.

Lemma isRecorded_ids saved b b' :
  id b = id b' -> isRecorded saved b = isRecorded saved b'.
Proof. unfold isRecorded. intros ->. reflexivity. Qed.

(** Undoing the delete of the selected live boxes gives back the
    collection, with the selection of those boxes cleared. *)
Lemma replay_reverses_delete (bs : list Box) :
  NoDup (map id bs) ->
  replay false (map cloneBox (List.filter (fun b => isSelectedLive b) bs))
    (mutateWhere isSelectedLive (setFlags true) bs)
  = mutateWhere isSelectedLive (setFlags false) bs.
Proof.
  intros Hnd. fold (cloneBoxes (List.filter (fun b => isSelectedLive b) bs)).
  rewrite cloneBoxes_same.
  apply list_eq. intros k.
  destruct (bs !! k) as [b|] eqn:Hk.
  - assert (Hin : In b bs) by (apply list_elem_of_In, list_elem_of_lookup; eauto).
    pose proof (mutateWhere_lookup isSelectedLive (setFlags true) bs k b Hk) as Hd.
    rewrite (replay_lookup _ _ _ _ _ Hd), (mutateWhere_lookup _ _ _ _ _ Hk).
    f_equal.
    set (c := if isSelectedLive b then setFlags true b else b) in *.
    assert (Hc : id c = id b) by (subst c; destruct (isSelectedLive b); reflexivity).
    rewrite (isRecorded_ids _ c b Hc), (isRecorded_filter _ _ _ Hnd Hin).
    rewrite isFirst_unique; auto.
    + subst c. destruct (isSelectedLive b); reflexivity.
    + rewrite mutateWhere_ids. exact Hnd.
  - assert (Hlen : (length bs <= k)%nat) by (apply lookup_ge_None; auto).
    rewrite !(proj2 (lookup_ge_None _ _)); auto.
    + unfold mutateWhere. rewrite length_map. lia.
    + rewrite replay_length. unfold mutateWhere. rewrite length_map. lia.
Qed.

Lemma restored_has_no_changes (bs : list Box) :
  NoDup (map id bs) ->
  hasChanges (mkImageState (mutateWhere isSelectedLive (setFlags false) bs) bs [] [])
  = false.
Proof.
  intros Hnd. destruct (hasChanges _) eqn:E; [|reflexivity].
  unfold hasChanges in E; simpl in E. apply existsb_exists in E.
  destruct E as (c & Hin & Hd). unfold mutateWhere in Hin.
  apply in_map_iff in Hin. destruct Hin as (b & <- & Hin).
  unfold differsFromOriginal in Hd.
  assert (Hid : id (if isSelectedLive b then setFlags false b else b) = id b)
    by (destruct (isSelectedLive b); reflexivity).
  rewrite Hid, (findById_unique bs b Hnd Hin) in Hd.
  unfold isSelectedLive in Hd.
  destruct (selected b), (deleted b) eqn:Edel; simpl in Hd; try rewrite Edel in Hd;
    simpl in Hd; discriminate.
Qed.

Lemma redoStack_irrelevant_hasChanges bs orig u r u' r' :
  hasChanges (mkImageState bs orig u r) = hasChanges (mkImageState bs orig u' r').
Proof. reflexivity. Qed.

(** C1: after an undo or a redo that was performed, the current image is
    in the modified set exactly when some box of the working collection has
    no box of its id in the original snapshot, or differs in [deleted] from
    the first snapshot box of its id.  For an image first opened with boxes
    of distinct ids and not marked modified before: it is not modified after
    [initImageState]; it is modified after a [deleteSelected] that deleted
    something; and the undo that follows is performed, gives back the
    collection with the selection of the deleted boxes cleared, and leaves
    the image not modified. *)
Theorem modified_flag_rule :
  (forall s, fst (undo s) = true -> modifiedByRule (snd (undo s))) /\
  (forall s, fst (redo s) = true -> modifiedByRule (snd (redo s))) /\
  (forall s index B now,
     imageStates s !! index = None ->
     index ∉ globalModified s ->
     NoDup (map id B) ->
     let s1 := initImageState index B s in
     let s2 := snd (deleteSelected now s1) in
     let s3 := snd (undo s2) in
     isModified index s1 = false /\
     (fst (deleteSelected now s1) > 0 ->
      isModified index s2 = true /\
      fst (undo s2) = true /\
      getCurrentBoxes s3 = mutateWhere isSelectedLive (setFlags false) B /\
      isModified index s3 = false)).
Proof.
  split; [exact undo_true_rule|]. split; [exact redo_true_rule|].
  intros s index B now Hnone Hnot Hnd. cbv zeta.
  set (s1 := initImageState index B s).
  assert (Hs1 : currentState s1 = Some (mkImageState B B [] [])).
  { unfold s1, initImageState, currentState; simpl. rewrite Hnone.
    rewrite lookup_insert_eq, cloneBoxes_same. reflexivity. }
  split.
  { unfold isModified, s1; simpl. apply bool_decide_eq_false. exact Hnot. }
  remember (List.filter (fun b => isSelectedLive b) B) as chosen eqn:Hchosen.
  set (action := mkAction "delete" (map cloneBox chosen) now).
  set (s2 := markModified
               (withBoxes (mutateWhere isSelectedLive (setFlags true))
                  (recordAction "delete" chosen now s1))).
  assert (Hdel : deleteSelected now s1 =
                 match chosen with
                 | [] => (0, s1)
                 | _ => (Z.of_nat (length chosen), s2)
                 end).
  { unfold deleteSelected. rewrite Hs1. cbn [boxes]. rewrite <- Hchosen.
    reflexivity. }
  assert (Hdel' : fst (deleteSelected now s1) > 0 ->
                  deleteSelected now s1 = (Z.of_nat (length chosen), s2)).
  { rewrite Hdel. destruct chosen; [simpl; lia | reflexivity]. }
  intros Hpos. rewrite (Hdel' Hpos). cbn [fst snd]. clear Hdel Hdel' Hpos.
  assert (Hrec : recordAction "delete" chosen now s1
                 = setState (mkImageState B B [action] []) s1).
  { unfold recordAction. rewrite Hs1. reflexivity. }
  assert (Hs2 : currentState s2 =
                Some (mkImageState (mutateWhere isSelectedLive (setFlags true) B)
                        B [action] [])).
  { unfold s2. rewrite Hrec. unfold withBoxes.
    rewrite currentState_setState; simpl.
    unfold markModified, currentState; simpl. rewrite lookup_insert_eq. reflexivity. }
  assert (Hidx2 : currentIndex s2 = index).
  { unfold s2. rewrite Hrec. unfold withBoxes.
    rewrite currentState_setState. reflexivity. }
  assert (Hmod2 : index ∈ globalModified s2).
  { unfold s2. rewrite Hrec. unfold withBoxes.
    rewrite currentState_setState. simpl.
    apply elem_of_union_l, elem_of_singleton. reflexivity. }
  split; [apply bool_decide_eq_true; exact Hmod2|].
  pose proof (undo_pops s2 _ action [] Hs2 eq_refl) as Hundo.
  simpl in Hundo. rewrite Hchosen in Hundo.
  rewrite replay_reverses_delete in Hundo by exact Hnd.
  split; [rewrite Hundo; reflexivity|].
  rewrite Hundo. cbn [snd].
  split.
  - unfold getCurrentBoxes.
    rewrite currentState_updateModifiedState, currentState_setState. reflexivity.
  - apply bool_decide_eq_false.
    unfold updateModifiedState. rewrite currentState_setState.
    rewrite (redoStack_irrelevant_hasChanges _ _ _ _ [] []),
      restored_has_no_changes by exact Hnd.
    cbn [globalModified currentIndex setState]. rewrite Hidx2.
    intros Hin. apply elem_of_difference in Hin. destruct Hin as [_ Hin].
    apply Hin, elem_of_singleton. reflexivity.
Qed.

(** ** The bound on the undo and redo stacks *)

Lemma pushTrimmed_lastN (stack : list Action) (a : Action) :
  (length stack <= 50)%nat -> pushTrimmed stack a = lastN 50 (stack ++ [a]).
Proof.
  intros Hlen. unfold pushTrimmed, lastN, maxStackSize.
  rewrite length_app; simpl.
  destruct (Z.gtb_spec (Z.of_nat (length stack + 1)) 50) as [Hgt | Hle].
  - assert (length stack = 50%nat) as Hl by lia. rewrite Hl. simpl.
    destruct stack; [discriminate | reflexivity].
  - replace (length stack + 1 - 50)%nat with 0%nat by lia. reflexivity.
Qed.

Lemma pushTrimmed_length (stack : list Action) (a : Action) :
  (length stack <= 50)%nat -> (length (pushTrimmed stack a) <= 50)%nat.
Proof.
  intros Hlen. rewrite pushTrimmed_lastN by exact Hlen. unfold lastN.
  rewrite length_drop, length_app; simpl. lia.
Qed.

Lemma pushTrimmed_full (stack : list Action) (a : Action) :
  length stack = 50%nat -> pushTrimmed stack a = tail stack ++ [a].
Proof.
  intros Hlen. unfold pushTrimmed, maxStackSize. rewrite length_app, Hlen; simpl.
  destruct stack; [discriminate | reflexivity].
Qed.

Lemma pushTrimmed_room (stack : list Action) (a : Action) :
  (length stack < 50)%nat -> pushTrimmed stack a = stack ++ [a].
Proof.
  intros Hlen. unfold pushTrimmed, maxStackSize. rewrite length_app; simpl.
  destruct (Z.gtb_spec (Z.of_nat (length stack + 1)) 50); [lia | reflexivity].
Qed.

Lemma lastN_length {A} n (l : list A) : (length (lastN n l) <= n)%nat.
Proof. unfold lastN. rewrite length_drop. lia. Qed.

Lemma lastN_snoc {A} n (l : list A) (a : A) :
  lastN (S n) (lastN (S n) l ++ [a]) = lastN (S n) (l ++ [a]).
Proof.
  unfold lastN. rewrite !length_app, length_drop; simpl.
  destruct (Nat.le_gt_cases (length l) (S n)) as [Hle | Hgt].
  - replace (length l - S n)%nat with 0%nat by lia. simpl. 
    replace (length l - 0)%nat with (length l) by lia. reflexivity.
  - replace (length l - (length l - S n) + 1 - S n)%nat with 1%nat by lia.
    replace (length l + 1 - S n)%nat with (S (length l - S n)) by lia.
    rewrite drop_app_le by (rewrite length_drop; lia).
    rewrite drop_app_le by lia.
    rewrite drop_drop. f_equal. f_equal. lia.
Qed.

Lemma allWithinBound_insert m i st :
  allWithinBound m -> stacksWithinBound st -> allWithinBound (<[i := st]> m).
Proof.
  intros Hm Hst j st' Hj. destruct (decide (i = j)) as [-> | Hne].
  - rewrite lookup_insert_eq in Hj. injection Hj as <-. exact Hst.
  - rewrite lookup_insert_ne in Hj by exact Hne. eapply Hm; eauto.
Qed.

Lemma allWithinBound_delete m i :
  allWithinBound m -> allWithinBound (delete i m).
Proof.
  intros Hm j st Hj. apply lookup_delete_Some in Hj. destruct Hj as [_ Hj].
  eapply Hm; eauto.
Qed.

Lemma allWithinBound_setState s st :
  allWithinBound (imageStates s) -> stacksWithinBound st ->
  allWithinBound (imageStates (setState st s)).
Proof. intros. simpl. apply allWithinBound_insert; auto. Qed.

Lemma allWithinBound_updateModifiedState s :
  imageStates (updateModifiedState s) = imageStates s.
Proof. unfold updateModifiedState. destruct (currentState s); reflexivity. Qed.

Lemma allWithinBound_withBoxes f s :
  allWithinBound (imageStates s) -> allWithinBound (imageStates (withBoxes f s)).
Proof.
  intros H. unfold withBoxes. destruct (currentState s) as [st|] eqn:Hs; [|exact H].
  apply allWithinBound_setState; auto. unfold stacksWithinBound; simpl.
  apply (H _ _ Hs).
Qed.

Lemma allWithinBound_recordAction type bs now s :
  allWithinBound (imageStates s) ->
  allWithinBound (imageStates (recordAction type bs now s)).
Proof.
  intros H. unfold recordAction. destruct (currentState s) as [st|] eqn:Hs; [|exact H].
  apply allWithinBound_setState; auto. unfold stacksWithinBound; simpl.
  pose proof (H _ _ Hs) as Hb. unfold stacksWithinBound in Hb.
  pose proof (pushTrimmed_length (undoStack st)
                (mkAction type (map cloneBox bs) now)). lia.
Qed.

Lemma allWithinBound_undo s :
  allWithinBound (imageStates s) -> allWithinBound (imageStates (snd (undo s))).
Proof.
  intros H. unfold undo. destruct (currentState s) as [st|] eqn:Hs; [|exact H].
  destruct (pop (undoStack st)) as [[action rest]|] eqn:Hp; [|exact H].
  simpl. rewrite allWithinBound_updateModifiedState.
  apply allWithinBound_insert; auto. unfold stacksWithinBound; simpl.
  pose proof (H _ _ Hs) as Hb. unfold stacksWithinBound in Hb.
  apply pop_some_inv in Hp. rewrite Hp, length_app in Hb. rewrite length_app.
  simpl in *. lia.
Qed.

Lemma allWithinBound_redo s :
  allWithinBound (imageStates s) -> allWithinBound (imageStates (snd (redo s))).
Proof.
  intros H. unfold redo. destruct (currentState s) as [st|] eqn:Hs; [|exact H].
  destruct (pop (redoStack st)) as [[action rest]|] eqn:Hp; [|exact H].
  simpl. rewrite allWithinBound_updateModifiedState.
  apply allWithinBound_insert; auto. unfold stacksWithinBound; simpl.
  pose proof (H _ _ Hs) as Hb. unfold stacksWithinBound in Hb.
  apply pop_some_inv in Hp. rewrite Hp, length_app in Hb. rewrite length_app.
  simpl in *. lia.
Qed.

Lemma allWithinBound_deleteSelected now s :
  allWithinBound (imageStates s) ->
  allWithinBound (imageStates (snd (deleteSelected now s))).
Proof.
  intros H. unfold deleteSelected. destruct (currentState s) as [st|]; [|exact H].
  destruct (List.filter _ (boxes st)); [exact H|]. simpl.
  apply allWithinBound_withBoxes, allWithinBound_recordAction, H.
Qed.

Lemma allWithinBound_restoreDeleted only now s :
  allWithinBound (imageStates s) ->
  allWithinBound (imageStates (snd (restoreDeleted only now s))).
Proof.
  intros H. unfold restoreDeleted. destruct (currentState s) as [st|]; [|exact H].
  destruct (List.filter _ (boxes st)); [exact H|]. simpl.
  apply allWithinBound_withBoxes, allWithinBound_recordAction, H.
Qed.

Lemma allWithinBound_markSaved s :
  allWithinBound (imageStates s) -> allWithinBound (imageStates (markSaved s)).
Proof.
  intros H. unfold markSaved. destruct (currentState s) as [st|]; [|exact H].
  simpl. apply allWithinBound_insert; auto. unfold stacksWithinBound; simpl. lia.
Qed.

Lemma allWithinBound_step s o :
  allWithinBound (imageStates s) -> allWithinBound (imageStates (step s o)).
Proof.
  intros H. destruct o; simpl.
  - unfold initImageState; simpl. destruct (imageStates s !! index); [exact H|].
    apply allWithinBound_insert; auto. unfold stacksWithinBound; simpl. lia.
  - exact H.
  - unfold setCurrentBoxes. destruct (currentState s) as [st|] eqn:Hs; [|exact H].
    apply allWithinBound_setState; auto. apply (H _ _ Hs).
  - apply allWithinBound_recordAction, H.
  - apply allWithinBound_undo, H.
  - apply allWithinBound_redo, H.
  - apply allWithinBound_deleteSelected, H.
  - apply allWithinBound_restoreDeleted, H.
  - apply allWithinBound_withBoxes, H.
  - apply allWithinBound_withBoxes, H.
  - apply allWithinBound_withBoxes, H.
  - apply allWithinBound_withBoxes, allWithinBound_withBoxes, H.
  - exact H.
  - rewrite allWithinBound_updateModifiedState. exact H.
  - apply allWithinBound_markSaved, H.
  - unfold markSavedAt; simpl.
    apply (allWithinBound_markSaved (setCurrentIndex index s)), H.
  - apply allWithinBound_delete, H.
  - intros i st Hi. rewrite lookup_empty in Hi. discriminate.
  - unfold resetCurrent. destruct (currentState s) as [st|]; [|exact H].
    simpl. apply allWithinBound_insert; auto. unfold stacksWithinBound; simpl. lia.
Qed.

Lemma allWithinBound_run ops s :
  allWithinBound (imageStates s) -> allWithinBound (imageStates (run ops s)).
Proof.
  revert s. induction ops as [|o ops IH]; intros s H; [exact H|].
  simpl. apply IH, allWithinBound_step, H.
Qed.

Lemma recordAction_state type bs now s st :
  currentState s = Some st ->
  currentState (recordAction type bs now s) =
    Some (mkImageState (boxes st) (originalBoxes st)
            (pushTrimmed (undoStack st) (mkAction type (map cloneBox bs) now)) []).
Proof.
  intros Hs. unfold recordAction. rewrite Hs. apply currentState_setState.
Qed.

Lemma recordAll_state acts s st :
  currentState s = Some st -> (length (undoStack st) <= 50)%nat ->
  acts <> [] ->
  currentState (recordAll acts s) =
    Some (mkImageState (boxes st) (originalBoxes st)
            (lastN 50 (undoStack st ++ map toAction acts)) []).
Proof.
  intros Hs Hlen Hne.
  induction acts as [|a acts IH] using rev_ind; [congruence|]. clear Hne.
  unfold recordAll. rewrite fold_left_app. simpl. fold (recordAll acts s).
  destruct acts as [|a0 acts'] eqn:Hacts.
  - simpl. rewrite (recordAction_state _ _ _ _ _ Hs), pushTrimmed_lastN by exact Hlen.
    reflexivity.
  - rewrite <- Hacts in *.
    assert (Hne : acts <> []) by (rewrite Hacts; discriminate).
    rewrite (recordAction_state _ _ _ _ _ (IH Hne)). cbn [boxes originalBoxes undoStack].
    rewrite pushTrimmed_lastN by apply lastN_length.
    rewrite map_app, app_assoc. simpl.
    change (mkAction a.1.1 (map cloneBox a.1.2) a.2) with (toAction a).
    rewrite lastN_snoc. reflexivity.
Qed.

(** ** Sixty delete/restore pairs *)

Lemma withBoxes_state f s st :
  currentState s = Some st ->
  currentState (withBoxes f s) =
    Some (mkImageState (f (boxes st)) (originalBoxes st) (undoStack st) (redoStack st)).
Proof. intros Hs. unfold withBoxes. rewrite Hs. apply currentState_setState. Qed.

Lemma currentState_markModified s : currentState (markModified s) = currentState s.
Proof. reflexivity. Qed.

Lemma deleteSelected_state now s st :
  currentState s = Some st ->
  List.filter (fun b => isSelectedLive b) (boxes st) <> [] ->
  currentState (snd (deleteSelected now s)) =
    Some (mkImageState (mutateWhere isSelectedLive (setFlags true) (boxes st))
            (originalBoxes st)
            (pushTrimmed (undoStack st)
               (mkAction "delete"
                  (map cloneBox (List.filter (fun b => isSelectedLive b) (boxes st)))
                  now))
            []).
Proof.
  intros Hs Hne. unfold deleteSelected. rewrite Hs.
  destruct (List.filter _ (boxes st)) as [|c0 chosen] eqn:Hch; [congruence|].
  cbn [snd]. rewrite currentState_markModified.
  rewrite (withBoxes_state _ _ _ (recordAction_state _ _ _ _ _ Hs)). reflexivity.
Qed.

Lemma restoreDeleted_state only now s st :
  currentState s = Some st ->
  List.filter (fun b => restoreFilter only b) (boxes st) <> [] ->
  currentState (snd (restoreDeleted only now s)) =
    Some (mkImageState (mutateWhere (restoreFilter only) (setFlags false) (boxes st))
            (originalBoxes st)
            (pushTrimmed (undoStack st)
               (mkAction "restore"
                  (map cloneBox (List.filter (fun b => restoreFilter only b) (boxes st)))
                  now))
            []).
Proof.
  intros Hs Hne. unfold restoreDeleted. rewrite Hs.
  destruct (List.filter _ (boxes st)) as [|c0 chosen] eqn:Hch; [congruence|].
  cbn [snd]. rewrite currentState_markModified.
  rewrite (withBoxes_state _ _ _ (recordAction_state _ _ _ _ _ Hs)). reflexivity.
Qed.

Lemma filter_nonempty {A} (p : A -> bool) (l : list A) (x : A) :
  In x l -> p x = true -> List.filter p l <> [].
Proof.
  intros Hin Hp Hnil.
  assert (H : In x (List.filter p l)) by (apply filter_In; auto).
  rewrite Hnil in H. exact H.
Qed.

Lemma run_app ops1 ops2 s : run (ops1 ++ ops2) s = run ops2 (run ops1 s).
Proof. unfold run. apply fold_left_app. Qed.

Lemma deleteRestorePairs_S n :
  deleteRestorePairs (S n) = deleteRestorePairs n ++ deleteRestorePair (Z.of_nat n).
Proof.
  unfold deleteRestorePairs. rewrite seq_S, flat_map_app. reflexivity.
Qed.

(** One pair on an image with a live box pushes a delete action and a
    restore action, and leaves every box live. *)
Lemma pair_state t s st :
  currentState s = Some st -> hasLive (boxes st) = true ->
  exists st' a1 a2,
    currentState (run (deleteRestorePair t) s) = Some st' /\
    undoStack st' = pushTrimmed (pushTrimmed (undoStack st) a1) a2 /\
    redoStack st' = [] /\
    action_type a1 = "delete" /\ action_timestamp a1 = 2 * t /\
    action_type a2 = "restore" /\ action_timestamp a2 = 2 * t + 1 /\
    hasLive (boxes st') = true.
Proof.
  intros Hs Hlive. unfold deleteRestorePair, run; simpl.
  apply existsb_exists in Hlive. destruct Hlive as (b & Hb & Hbl).
  pose proof (withBoxes_state
                (mutateWhere (fun b => negb (deleted b)) (setSelected true)) s st Hs) as Ha.
  fold (selectAll s) in Ha.
  set (ba := mutateWhere (fun b => negb (deleted b)) (setSelected true) (boxes st)) in *.
  assert (Hina : In (setSelected true b) ba).
  { unfold ba, mutateWhere. apply in_map_iff. exists b. rewrite Hbl. auto. }
  assert (Hne1 : List.filter (fun b => isSelectedLive b) ba <> []).
  { apply (filter_nonempty _ _ (setSelected true b)); auto;
      unfold isSelectedLive; simpl; exact Hbl. }
  pose proof (deleteSelected_state (2 * t) _ _ Ha Hne1) as Hd.
  cbn [boxes originalBoxes undoStack redoStack] in Hd.
  set (bb := mutateWhere isSelectedLive (setFlags true) ba) in *.
  assert (Hinb : In (setFlags true (setSelected true b)) bb).
  { unfold bb, mutateWhere. apply in_map_iff. exists (setSelected true b).
    split; auto. unfold isSelectedLive at 1; simpl. rewrite Hbl. reflexivity. }
  assert (Hne2 : List.filter (fun b => restoreFilter false b) bb <> []).
  { apply (filter_nonempty _ _ (setFlags true (setSelected true b))); auto. }
  pose proof (restoreDeleted_state false (2 * t + 1) _ _ Hd Hne2) as Hr.
  cbn [boxes originalBoxes undoStack redoStack] in Hr.
  eexists _, _, _. split; [exact Hr|]. cbn [undoStack redoStack boxes action_type
    action_timestamp]. repeat split.
  apply existsb_exists.
  exists (setFlags false (setFlags true (setSelected true b))). split; [|reflexivity].
  unfold mutateWhere at 1. apply in_map_iff.
  exists (setFlags true (setSelected true b)). split; auto.
Qed.

Lemma seqZ_SS n : seqZ (2 * S n) = seqZ (2 * n) ++ [2 * Z.of_nat n; 2 * Z.of_nat n + 1].
Proof.
  unfold seqZ. replace (2 * S n)%nat with (S (S (2 * n))) by lia.
  rewrite !seq_S, !map_app. simpl. rewrite <- app_assoc. simpl.
  repeat f_equal; lia.
Qed.

Lemma map_lastN {A B} (f : A -> B) n (l : list A) :
  map f (lastN n l) = lastN n (map f l).
Proof.
  unfold lastN. rewrite length_map. 
  change (map f (drop (length l - n) l)) with (f <$> drop (length l - n) l).
  rewrite fmap_drop. reflexivity.
Qed.

Lemma lastN_snoc2 {A} n (l : list A) (a b : A) :
  lastN (S n) ((lastN (S n) l ++ [a]) ++ [b]) = lastN (S n) ((l ++ [a]) ++ [b]).
Proof.
  rewrite <- (lastN_snoc n (lastN (S n) l ++ [a]) b), (lastN_snoc n l a).
  apply lastN_snoc.
Qed.

Lemma pairs_state n s st :
  currentState s = Some st -> hasLive (boxes st) = true ->
  (length (undoStack st) <= 50)%nat ->
  exists st',
    currentState (run (deleteRestorePairs n) s) = Some st' /\
    hasLive (boxes st') = true /\
    (length (undoStack st') <= 50)%nat /\
    map action_timestamp (undoStack st') =
      lastN 50 (map action_timestamp (undoStack st) ++ seqZ (2 * n)).
Proof.
  intros Hs Hlive Hlen. induction n as [|n IH].
  - exists st. simpl. repeat split; auto. unfold seqZ; simpl. rewrite app_nil_r.
    unfold lastN. rewrite length_map.
    replace (length (undoStack st) - 50)%nat with 0%nat by lia. reflexivity.
  - destruct IH as (st1 & Hs1 & Hl1 & Hlen1 & Hts1).
    rewrite deleteRestorePairs_S, run_app.
    destruct (pair_state (Z.of_nat n) _ _ Hs1 Hl1)
      as (st' & a1 & a2 & Hs' & Hu & _ & _ & Ht1 & _ & Ht2 & Hl').
    exists st'. split; [exact Hs'|]. split; [exact Hl'|].
    rewrite Hu. split.
    + apply pushTrimmed_length, pushTrimmed_length, Hlen1.
    + rewrite pushTrimmed_lastN by (apply pushTrimmed_length, Hlen1).
      rewrite pushTrimmed_lastN by exact Hlen1.
      rewrite seqZ_SS, (lastN_snoc 49), map_lastN, !map_app. cbn [map].
      rewrite Hts1, Ht1, Ht2, (lastN_snoc2 49).
      rewrite <- !app_assoc. reflexivity.
Qed.

(** C5: in every session the class can reach, the undo stack and the redo
    stack of every image hold at most 50 actions.  [recordAction] on a
    stack within the bound empties the redo stack and appends the action;
    when the stack already holds 50, the oldest action is dropped.  After a
    sequence of recorded actions the stack holds the last 50 of the old
    entries followed by the new ones.  After [n] delete/restore pairs on a
    newly opened image with a live box the stack holds the last 50 of the
    [2 * n] actions, so after 60 pairs those stamped 70 to 119. *)
Theorem undo_stack_bound :
  (forall ops i st,
     imageStates (run ops newStateManager) !! i = Some st ->
     (length (undoStack st) <= 50)%nat /\ (length (redoStack st) <= 50)%nat) /\
  (forall s st type bs now,
     currentState s = Some st -> (length (undoStack st) <= 50)%nat ->
     exists st',
       currentState (recordAction type bs now s) = Some st' /\
       redoStack st' = [] /\
       (length (undoStack st') <= 50)%nat /\
       ((length (undoStack st) < 50)%nat ->
        undoStack st' = undoStack st ++ [mkAction type (map cloneBox bs) now]) /\
       (length (undoStack st) = 50%nat ->
        undoStack st' =
          tail (undoStack st) ++ [mkAction type (map cloneBox bs) now])) /\
  (forall s st acts,
     currentState s = Some st -> (length (undoStack st) <= 50)%nat ->
     acts <> [] ->
     exists st',
       currentState (recordAll acts s) = Some st' /\
       redoStack st' = [] /\
       undoStack st' = lastN 50 (undoStack st ++ map toAction acts)) /\
  (forall s index B n,
     imageStates s !! index = None -> hasLive B = true ->
     undoTimestamps (run (deleteRestorePairs n) (initImageState index B s))
       = lastN 50 (seqZ (2 * n))) /\
  (forall s index B,
     imageStates s !! index = None -> hasLive B = true ->
     undoTimestamps (run (deleteRestorePairs 60) (initImageState index B s))
       = map (fun k => 70 + Z.of_nat k) (seq 0 50)).
Proof.
  assert (Hpairs : forall s index B n,
     imageStates s !! index = None -> hasLive B = true ->
     undoTimestamps (run (deleteRestorePairs n) (initImageState index B s))
       = lastN 50 (seqZ (2 * n))).
  { intros s index B n Hnone Hlive.
    assert (Hs1 : currentState (initImageState index B s)
                  = Some (mkImageState B B [] [])).
    { unfold initImageState, currentState; simpl. rewrite Hnone.
      rewrite lookup_insert_eq, cloneBoxes_same. reflexivity. }
    destruct (pairs_state n _ _ Hs1 Hlive) as (st' & Hs' & _ & _ & Hts);
      [simpl; lia|].
    unfold undoTimestamps. rewrite Hs'. exact Hts. }
  split; [|split; [|split; [|split]]].
  - intros ops i st Hi.
    assert (H0 : allWithinBound (imageStates newStateManager)).
    { intros j st' Hj. simpl in Hj. rewrite lookup_empty in Hj. discriminate. }
    pose proof (allWithinBound_run ops _ H0 _ _ Hi) as Hb.
    unfold stacksWithinBound in Hb. lia.
  - intros s st type bs now Hs Hlen.
    eexists. split; [apply recordAction_state, Hs|]. cbn [redoStack undoStack].
    split; [reflexivity|]. split; [apply pushTrimmed_length, Hlen|].
    split; [apply pushTrimmed_room | apply pushTrimmed_full].
  - intros s st acts Hs Hlen Hne. eexists.
    split; [apply recordAll_state; eauto|]. split; reflexivity.
  - exact Hpairs.
  - intros s index B Hnone Hlive. rewrite (Hpairs s index B 60%nat Hnone Hlive).
    vm_compute. reflexivity.
Qed.

(** ** The bounded cache *)

Section LRUCacheFacts.
Context {K V : Type} `{EqDecision K}.
Variable hasClose : V -> bool.


Lemma mapGet_none (key : K) (m : list (K * V)) :
  mapGet key m = None <-> ~ In key (map fst m).
Proof.
  induction m as [|[k v] r IH]; simpl.
  - split; [intros _ [] | reflexivity].
  - destruct (decide (k = key)) as [-> | Hne].
    + split; [discriminate | intros H; exfalso; apply H; auto].
    + rewrite IH. split; [intros H [?|?]; congruence || auto | intros H Hin; auto].
Qed.

Lemma mapHas_true (key : K) (m : list (K * V)) :
  mapHas key m = true <-> In key (map fst m).
Proof.
  unfold mapHas. destruct (mapGet key m) eqn:E.
  - split; [|reflexivity]. intros _.
    destruct (in_dec (fun a b => decide (a = b)) key (map fst m)) as [Hin | Hnin]; auto.
    apply mapGet_none in Hnin. congruence.
  - apply mapGet_none in E. split; [discriminate | contradiction].
Qed.

Lemma mapSet_absent (key : K) (value : V) (m : list (K * V)) :
  ~ In key (map fst m) -> mapSet key value m = m ++ [(key, value)].
Proof.
  induction m as [|[k v] r IH]; simpl; intros Hnin; [reflexivity|].
  destruct (decide (k = key)) as [-> | Hne]; [exfalso; auto|].
  rewrite IH; auto.
Qed.

Lemma mapDelete_keys_in (key k : K) (m : list (K * V)) :
  In k (map fst (mapDelete key m)) -> In k (map fst m).
Proof.
  induction m as [|[k0 v] r IH]; simpl; [auto|].
  destruct (decide (k0 = key)); simpl; intuition.
Qed.

Lemma mapDelete_removes (key : K) (m : list (K * V)) :
  NoDup (map fst m) -> ~ In key (map fst (mapDelete key m)).
Proof.
  induction m as [|[k v] r IH]; simpl; intros Hnd; [auto|].
  apply NoDup_cons in Hnd. destruct Hnd as [Hnin Hnd].
  destruct (decide (k = key)) as [-> | Hne].
  - intros Hin. apply Hnin. apply list_elem_of_In. exact Hin.
  - simpl. intros [? | Hin]; [congruence|]. apply (IH Hnd Hin).
Qed.

Lemma mapDelete_NoDup (key : K) (m : list (K * V)) :
  NoDup (map fst m) -> NoDup (map fst (mapDelete key m)).
Proof.
  induction m as [|[k v] r IH]; simpl; intros Hnd; [auto|].
  apply NoDup_cons in Hnd. destruct Hnd as [Hnin Hnd].
  destruct (decide (k = key)); [exact Hnd|].
  simpl. apply NoDup_cons. split; [|auto].
  intros Hin. apply Hnin. apply list_elem_of_In.
  apply list_elem_of_In in Hin. eapply mapDelete_keys_in; eauto.
Qed.

Lemma mapDelete_absent (key : K) (m : list (K * V)) :
  ~ In key (map fst m) -> mapDelete key m = m.
Proof.
  induction m as [|[k v] r IH]; simpl; intros Hnin; [reflexivity|].
  destruct (decide (k = key)) as [-> | Hne]; [exfalso; auto|].
  rewrite IH; auto.
Qed.

Lemma mapDelete_length (key : K) (m : list (K * V)) :
  In key (map fst m) -> S (length (mapDelete key m)) = length m.
Proof.
  induction m as [|[k v] r IH]; simpl; intros Hin; [contradiction|].
  destruct (decide (k = key)) as [-> | Hne]; [reflexivity|].
  simpl. rewrite IH; auto. destruct Hin; congruence.
Qed.

Lemma lruGet_present (key : K) (value : V) (c : LRUCache K V) :
  NoDup (map fst (cache c)) -> mapGet key (cache c) = Some value ->
  lruGet key c =
    (Some value, mkLRUCache (maxSize c) (promoted key value (cache c)) (closeCalls c)).
Proof.
  intros Hnd Hg. unfold lruGet, promoted. rewrite Hg.
  rewrite mapSet_absent by (apply mapDelete_removes, Hnd). reflexivity.
Qed.

Lemma lruSet_present (key : K) (value : V) (c : LRUCache K V) :
  NoDup (map fst (cache c)) -> mapHas key (cache c) = true ->
  lruSet hasClose key value c =
    mkLRUCache (maxSize c) (promoted key value (cache c)) (closeCalls c).
Proof.
  intros Hnd Hh. unfold lruSet, promoted. rewrite Hh.
  rewrite mapSet_absent by (apply mapDelete_removes, Hnd). reflexivity.
Qed.

Lemma lruSet_room (key : K) (value : V) (c : LRUCache K V) :
  mapHas key (cache c) = false -> Z.of_nat (length (cache c)) < maxSize c ->
  lruSet hasClose key value c =
    mkLRUCache (maxSize c) (cache c ++ [(key, value)]) (closeCalls c).
Proof.
  intros Hh Hlt. unfold lruSet. rewrite Hh.
  destruct (Z.geb_spec (Z.of_nat (length (cache c))) (maxSize c)); [lia|].
  rewrite mapSet_absent; [reflexivity|].
  intros Hin. apply mapHas_true in Hin. congruence.
Qed.

Lemma lruSet_evicts (key : K) (value : V) (c : LRUCache K V)
    (firstKey : K) (evicted : V) (rest : list (K * V)) :
  NoDup (map fst (cache c)) ->
  mapHas key (cache c) = false ->
  Z.of_nat (length (cache c)) >= maxSize c ->
  cache c = (firstKey, evicted) :: rest ->
  lruSet hasClose key value c =
    mkLRUCache (maxSize c) (rest ++ [(key, value)])
      (closeIfPresent hasClose evicted (closeCalls c)).
Proof.
  intros Hnd Hh Hge Hc. unfold lruSet. rewrite Hh.
  destruct (Z.geb_spec (Z.of_nat (length (cache c))) (maxSize c)); [|lia].
  rewrite Hc. cbn [mapDelete]. rewrite decide_True by reflexivity.
  rewrite mapSet_absent; [reflexivity|].
  intros Hin. assert (In key (map fst (cache c))) by (rewrite Hc; simpl; auto).
  apply mapHas_true in H0. congruence.
Qed.

Lemma lruClear_calls (c : LRUCache K V) :
  lruClear hasClose c =
    mkLRUCache (maxSize c) []
      (closeCalls c ++ List.filter hasClose (map snd (cache c))).
Proof.
  unfold lruClear. f_equal. generalize (closeCalls c).
  induction (map snd (cache c)) as [|v vs IH]; intros calls; simpl.
  - rewrite app_nil_r. reflexivity.
  - rewrite IH. unfold closeIfPresent. destruct (hasClose v); [|reflexivity].
    rewrite <- app_assoc. reflexivity.
Qed.

(** Filling an empty cache: no eviction while there is room. *)
Lemma lruSetAll_fill (kvs : list (K * V)) (c : LRUCache K V) :
  NoDup (map fst (cache c ++ kvs)) ->
  Z.of_nat (length (cache c) + length kvs) <= maxSize c ->
  lruSetAll hasClose kvs c =
    mkLRUCache (maxSize c) (cache c ++ kvs) (closeCalls c).
Proof.
  revert c. induction kvs as [|[k v] kvs IH]; intros c Hnd Hlen.
  - simpl. rewrite app_nil_r. destruct c; reflexivity.
  - unfold lruSetAll in *. cbn [fold_left fst snd].
    assert (Hh : mapHas k (cache c) = false).
    { destruct (mapHas k (cache c)) eqn:E; [|reflexivity].
      apply mapHas_true in E. rewrite map_app in Hnd. simpl in Hnd.
      apply NoDup_app in Hnd. destruct Hnd as (_ & Hd & _).
      exfalso. apply (Hd k); [apply list_elem_of_In, E | left]. }
    rewrite lruSet_room; [|exact Hh | simpl in Hlen; lia].
    rewrite IH; cbn [cache maxSize closeCalls].
    + rewrite <- app_assoc. reflexivity.
    + rewrite <- app_assoc. exact Hnd.
    + rewrite length_app. simpl in *. lia.
Qed.

End LRUCacheFacts.

Section LRUCacheClaims.
Context {K V : Type} `{EqDecision K}.
Variable hasClose : V -> bool.


(** C6: with capacity [C >= 1], setting [C + 1] distinct keys on a new cache
    evicts exactly the first key set and calls [close] on its value when it
    has one; in general a new key set on a full cache evicts the oldest
    entry.  [get] on a present key returns its value and moves the entry
    last, so the next eviction takes the entry that was second.  [set] on a
    present key moves the entry last with the new value.  [clear] empties
    the cache and calls [close] once per entry, in order, on each value
    that has one. *)
Theorem lru_eviction_order :
  (forall (C : Z) (k0 : K) (v0 : V) (kvs : list (K * V)),
     1 <= C -> Z.of_nat (length kvs) = C ->
     NoDup (k0 :: map fst kvs) ->
     lruSetAll hasClose ((k0, v0) :: kvs) (newLRUCache C) =
       mkLRUCache C kvs (closeIfPresent hasClose v0 [])) /\
  (forall (c : LRUCache K V) key value k1 v1 rest,
     NoDup (map fst (cache c)) -> cache c = (k1, v1) :: rest ->
     ~ In key (map fst (cache c)) ->
     Z.of_nat (length (cache c)) >= maxSize c ->
     lruSet hasClose key value c =
       mkLRUCache (maxSize c) (rest ++ [(key, value)])
         (closeIfPresent hasClose v1 (closeCalls c))) /\
  (forall (c : LRUCache K V) key value,
     NoDup (map fst (cache c)) -> mapGet key (cache c) = Some value ->
     lruGet key c =
       (Some value,
        mkLRUCache (maxSize c) (mapDelete key (cache c) ++ [(key, value)])
          (closeCalls c))) /\
  (forall (c : LRUCache K V) key value k1 v1 k2 v2 rest,
     NoDup (map fst (cache c)) -> cache c = (k1, v1) :: (k2, v2) :: rest ->
     ~ In key (map fst (cache c)) ->
     Z.of_nat (length (cache c)) >= maxSize c ->
     lruSet hasClose key value (snd (lruGet k1 c)) =
       mkLRUCache (maxSize c) (rest ++ [(k1, v1); (key, value)])
         (closeIfPresent hasClose v2 (closeCalls c))) /\
  (forall (c : LRUCache K V) key value,
     NoDup (map fst (cache c)) -> In key (map fst (cache c)) ->
     lruSet hasClose key value c =
       mkLRUCache (maxSize c) (mapDelete key (cache c) ++ [(key, value)])
         (closeCalls c)) /\
  (forall (c : LRUCache K V),
     lruClear hasClose c =
       mkLRUCache (maxSize c) []
         (closeCalls c ++ List.filter hasClose (map snd (cache c)))).
Proof.
  assert (Hevict : forall (c : LRUCache K V) key value k1 v1 rest,
     NoDup (map fst (cache c)) -> cache c = (k1, v1) :: rest ->
     ~ In key (map fst (cache c)) ->
     Z.of_nat (length (cache c)) >= maxSize c ->
     lruSet hasClose key value c =
       mkLRUCache (maxSize c) (rest ++ [(key, value)])
         (closeIfPresent hasClose v1 (closeCalls c))).
  { intros c key value k1 v1 rest Hnd Hc Hnin Hfull.
    apply lruSet_evicts with (firstKey := k1); auto.
    destruct (mapHas key (cache c)) eqn:E; [|reflexivity].
    apply mapHas_true in E. contradiction. }
  split; [|split; [exact Hevict|split; [|split; [|split]]]].
  - intros C k0 v0 kvs HC Hlen Hnd.
    destruct kvs as [|[kl vl] kvs'] using rev_ind; [simpl in Hlen; lia|]. clear IHkvs'.
    change ((k0, v0) :: kvs' ++ [(kl, vl)]) with (((k0, v0) :: kvs') ++ [(kl, vl)]).
    unfold lruSetAll. rewrite fold_left_app. fold (lruSetAll hasClose ((k0, v0) :: kvs')
      (newLRUCache C)).
    rewrite length_app in Hlen. simpl in Hlen.
    assert (Hnd' : NoDup (map fst ((k0, v0) :: kvs'))).
    { simpl. rewrite map_app in Hnd. simpl in Hnd.
      rewrite app_comm_cons in Hnd. apply NoDup_app in Hnd. tauto. }
    rewrite lruSetAll_fill; cbn [newLRUCache cache maxSize closeCalls app].
    + simpl. apply Hevict with (k1 := k0); cbn [cache maxSize closeCalls]; auto.
      * simpl. rewrite map_app in Hnd. simpl in Hnd.
        rewrite app_comm_cons in Hnd. apply NoDup_app in Hnd.
        destruct Hnd as (_ & Hd & _). intros Hin.
        apply (Hd kl); [apply list_elem_of_In; exact Hin | left].
      * simpl. lia.
    + exact Hnd'.
    + simpl. lia.
  - intros c key value Hnd Hg. apply lruGet_present; auto.
  - intros c key value k1 v1 k2 v2 rest Hnd Hc Hnin Hfull.
    assert (Hg : mapGet k1 (cache c) = Some v1).
    { rewrite Hc. cbn [mapGet]. rewrite decide_True by reflexivity. reflexivity. }
    rewrite (lruGet_present k1 v1 c Hnd Hg). cbn [snd].
    assert (Hp : promoted k1 v1 (cache c) = (k2, v2) :: rest ++ [(k1, v1)]).
    { unfold promoted. rewrite Hc. cbn [mapDelete].
      rewrite decide_True by reflexivity. reflexivity. }
    rewrite (Hevict _ key value k2 v2 (rest ++ [(k1, v1)]));
      cbn [cache maxSize closeCalls]; auto.
    + rewrite <- app_assoc. reflexivity.
    + rewrite Hp. rewrite Hc in Hnd. simpl in *. rewrite map_app. simpl.
      apply NoDup_cons in Hnd. destruct Hnd as [Hn1 Hnd].
      rewrite app_comm_cons. apply NoDup_app. split; [exact Hnd|]. split.
      * intros x Hx Hx1. apply list_elem_of_In in Hx1. simpl in Hx1.
        destruct Hx1 as [<- | []]. contradiction.
      * apply NoDup_singleton.
    + rewrite Hp. rewrite Hc in Hnin. simpl in *. rewrite map_app, in_app_iff. simpl.
      tauto.
    + rewrite Hp. rewrite Hc in Hfull. simpl in *. rewrite length_app. simpl. lia.
  - intros c key value Hnd Hin. apply lruSet_present; auto.
    apply mapHas_true; auto.
  - intros c. apply lruClear_calls.
Qed.

(** C9: [set] on a key that is present calls no [close]: the value it
    replaces is dropped as it is.  A [set] that does call [close] found the
    key absent and the cache at capacity; [get] and [has] call none;
    [delete] of a present key and [clear] do. *)
Theorem lru_replace_no_release :
  (forall (c : LRUCache K V) key value,
     mapHas key (cache c) = true ->
     closeCalls (lruSet hasClose key value c) = closeCalls c) /\
  (forall (c : LRUCache K V) key value,
     closeCalls (lruSet hasClose key value c) <> closeCalls c ->
     mapHas key (cache c) = false /\
     Z.of_nat (length (cache c)) >= maxSize c) /\
  (forall (c : LRUCache K V) key,
     closeCalls (snd (lruGet key c)) = closeCalls c) /\
  (forall (c : LRUCache K V) key value,
     mapGet key (cache c) = Some value ->
     closeCalls (snd (lruDelete hasClose key c)) =
       closeIfPresent hasClose value (closeCalls c)) /\
  (forall (c : LRUCache K V),
     closeCalls (lruClear hasClose c) =
       closeCalls c ++ List.filter hasClose (map snd (cache c))).
Proof.
  split; [|split; [|split; [|split]]].
  - intros c key value Hh. unfold lruSet. rewrite Hh. reflexivity.
  - intros c key value Hne. unfold lruSet in Hne.
    destruct (mapHas key (cache c)); [exfalso; apply Hne; reflexivity|].
    split; [reflexivity|].
    destruct (Z.geb_spec (Z.of_nat (length (cache c))) (maxSize c)); [lia|].
    exfalso; apply Hne; reflexivity.
  - intros c key. unfold lruGet. destruct (mapGet key (cache c)); reflexivity.
  - intros c key value Hg. unfold lruDelete. rewrite Hg. reflexivity.
  - intros c. rewrite lruClear_calls. reflexivity.
Qed.

End LRUCacheClaims.

(** ** The view transform *)

Lemma ndiv_finite (p q : Q) :
  ~ (q == 0)%Q -> ndiv (Finite p) (Finite q) = Finite (p / q)%Q.
Proof.
  intros Hq. unfold ndiv, isZero.
  destruct (Qeq_bool q 0) eqn:E; [|reflexivity].
  apply Qeq_bool_eq in E. contradiction.
Qed.

Lemma lessEq_finite_false (p q : Q) : (q < p)%Q -> lessEq (Finite p) (Finite q) = false.
Proof.
  intros H. simpl. destruct (Qle_bool p q) eqn:E; [|reflexivity].
  apply Qle_bool_iff in E. lra.
Qed.

Lemma lessEq_finite_true (p q : Q) : (p <= q)%Q -> lessEq (Finite p) (Finite q) = true.
Proof. intros H. simpl. apply Qle_bool_iff. exact H. Qed.

Lemma qmin_pos a b : (0 < a)%Q -> (0 < b)%Q -> (0 < qmin a b)%Q.
Proof. unfold qmin. destruct (Qle_bool a b); auto. Qed.

Lemma qmin_le a b : (qmin a b <= a)%Q /\ (qmin a b <= b)%Q.
Proof.
  unfold qmin. destruct (Qle_bool a b) eqn:E.
  - apply Qle_bool_iff in E. lra.
  - destruct (Qlt_le_dec b a) as [Hlt | Hle]; [lra|].
    apply Qle_bool_iff in Hle. congruence.
Qed.

Lemma Qle_bool_false_lt (a b : Q) : Qle_bool a b = false -> (b < a)%Q.
Proof.
  intros E. destruct (Qlt_le_dec b a) as [Hlt | Hle]; [exact Hlt|].
  apply Qle_bool_iff in Hle. congruence.
Qed.

Lemma getFitScale_finite bitmap iw ih z cw ch :
  getFitScale (mkView bitmap (Finite iw) (Finite ih) (Finite z) (Finite cw) (Finite ch))
    (Finite cw) (Finite ch)
  = Finite (fitScaleQ bitmap iw ih cw ch).
Proof.
  unfold getFitScale, fitScaleQ.
  cbn [currentBitmap currentImageWidth currentImageHeight lessEq zero one].
  destruct (negb bitmap); cbn [orb]; [reflexivity|].
  destruct (Qle_bool iw 0) eqn:Ew; cbn [orb]; [reflexivity|].
  destruct (Qle_bool ih 0) eqn:Eh; cbn [orb]; [reflexivity|].
  apply Qle_bool_false_lt in Ew, Eh.
  rewrite !ndiv_finite by lra. unfold nmin, qmin, lessEq.
  destruct (Qle_bool (cw / iw) (ch / ih)); reflexivity.
Qed.

Lemma fitScaleQ_pos bitmap iw ih cw ch :
  (0 < cw)%Q -> (0 < ch)%Q -> (0 < fitScaleQ bitmap iw ih cw ch)%Q.
Proof.
  intros Hcw Hch. unfold fitScaleQ.
  destruct (negb bitmap); simpl; [lra|].
  destruct (Qle_bool iw 0) eqn:Ew; simpl; [lra|].
  destruct (Qle_bool ih 0) eqn:Eh; simpl; [lra|].
  apply Qle_bool_false_lt in Ew, Eh.
  apply qmin_pos; apply Qlt_shift_div_l; lra.
Qed.

Lemma getViewTransform_finite bitmap iw ih z cw ch :
  getViewTransform
    (mkView bitmap (Finite iw) (Finite ih) (Finite z) (Finite cw) (Finite ch))
  = mkTransform (Finite (scaleQ bitmap iw ih z cw ch))
      (Finite ((cw + - (iw * scaleQ bitmap iw ih z cw ch)) / 2)%Q)
      (Finite ((ch + - (ih * scaleQ bitmap iw ih z cw ch)) / 2)%Q).
Proof.
  unfold getViewTransform. cbn [canvasWidth canvasHeight zoom currentImageWidth
    currentImageHeight]. rewrite getFitScale_finite.
  unfold scaleQ, nsub, two. cbn [nmul nadd nneg].
  rewrite !ndiv_finite by lra. reflexivity.
Qed.

(** C7: for a view whose numbers are finite, with a canvas of positive
    size and a zoom between 0.05 and 20, and for every finite point: the
    scale is the fit scale times the zoom, where the fit scale is
    [min (canvasW / imageW) (canvasH / imageH)] for a loaded image of
    positive size; the offsets are [(canvas - image * scale) / 2]; the
    inverse map is [(p - offset) / scale] and the forward map
    [offset + p * scale]; and mapping a canvas point to the image and back
    gives the point.  Numbers are exact rationals here, so the round trip
    is an equality. *)
Theorem view_transform_round_trip
    (bitmap : bool) (iw ih z cw ch px py : Q) :
  (0 < cw)%Q -> (0 < ch)%Q -> inZoomRange z ->
  let v := mkView bitmap (Finite iw) (Finite ih) (Finite z) (Finite cw) (Finite ch) in
  let s := scaleQ bitmap iw ih z cw ch in
  let ox := offsetQ cw iw s in
  let oy := offsetQ ch ih s in
  (bitmap = true -> (0 < iw)%Q -> (0 < ih)%Q ->
   s = (qmin (cw / iw) (ch / ih) * z)%Q) /\
  (exists ox' oy',
     getViewTransform v = mkTransform (Finite s) (Finite ox') (Finite oy') /\
     (ox' == ox)%Q /\ (oy' == oy)%Q) /\
  (exists ix iy,
     canvasPxToImagePx v (Finite px) (Finite py) = (Finite ix, Finite iy) /\
     (ix == (px - ox) / s)%Q /\ (iy == (py - oy) / s)%Q) /\
  (exists sx sy,
     imagePxToCanvasPx v (Finite px) (Finite py) = (Finite sx, Finite sy) /\
     (sx == ox + px * s)%Q /\ (sy == oy + py * s)%Q) /\
  (exists ix iy sx sy,
     canvasPxToImagePx v (Finite px) (Finite py) = (ix, iy) /\
     imagePxToCanvasPx v ix iy = (Finite sx, Finite sy) /\
     (sx == px)%Q /\ (sy == py)%Q).
Proof.
  intros Hcw Hch [Hz1 Hz2] v s ox oy.
  assert (Hs : (0 < s)%Q).
  { unfold s, scaleQ. pose proof (fitScaleQ_pos bitmap iw ih cw ch Hcw Hch).
    apply Qmult_lt_0_compat; lra. }
  assert (Hs0 : ~ (s == 0)%Q) by lra.
  pose proof (getViewTransform_finite bitmap iw ih z cw ch) as Ht.
  fold v s in Ht.
  split; [|split; [|split; [|split]]].
  - intros -> Hiw Hih. unfold s, scaleQ, fitScaleQ. simpl.
    destruct (Qle_bool iw 0) eqn:Ew; [apply Qle_bool_iff in Ew; lra|].
    destruct (Qle_bool ih 0) eqn:Eh; [apply Qle_bool_iff in Eh; lra|].
    reflexivity.
  - eexists _, _. split; [exact Ht|]. unfold ox, oy, offsetQ. split; field.
  - unfold canvasPxToImagePx. rewrite Ht. cbn [scale offsetX offsetY nsub nadd nneg].
    rewrite !ndiv_finite by exact Hs0.
    eexists _, _. split; [reflexivity|]. unfold ox, oy, offsetQ.
    split; field; exact Hs0.
  - unfold imagePxToCanvasPx. rewrite Ht. cbn [scale offsetX offsetY nmul nadd].
    eexists _, _. split; [reflexivity|]. unfold ox, oy, offsetQ. split; field.
  - unfold canvasPxToImagePx, imagePxToCanvasPx. rewrite Ht.
    cbn [scale offsetX offsetY nsub nadd nneg].
    rewrite !ndiv_finite by exact Hs0.
    eexists _, _, _, _. split; [reflexivity|]. cbn [nmul nadd].
    split; [reflexivity|]. split; field; exact Hs0.
Qed.

(** ** Strings: trimming, splitting, tokens *)

Lemma trimEnd_nil_iff (s : chars) :
  trimEnd s = [] <-> forallb isWhiteSpace s = true.
Proof.
  induction s as [|c r IH]; simpl; [tauto|].
  destruct (trimEnd r) as [|t ts] eqn:E.
  - destruct (isWhiteSpace c); simpl; [tauto|]. split; discriminate.
  - split; [discriminate|]. intros H. apply andb_true_iff in H.
    destruct H as [_ H]. apply IH in H. discriminate.
Qed.





























Lemma newline_white : isWhiteSpace newline = true.
Proof. reflexivity. Qed.

Section TrimmedLines.
(** A function of the trimmed line that rejects the empty line sees the
    same lines in a text and in the trimmed text. *)
Variable B : Type.
Variable f : chars -> option B.
Hypothesis f_nil : f [] = None.





End TrimmedLines.

(** ** parse against the contract *)



Lemma parseInt_hash (t : chars) : parseInt ("#"%char :: t) = None.
Proof. reflexivity. Qed.








Lemma parseLine_flags (uuid : string) (i : nat) (raw : chars) (b : Box) :
  parseLine uuid i raw = Some b ->
  id b = uuid /\ deleted b = false /\ selected b = false /\ lineIndex b = i.
Proof.
  unfold parseLine. destruct (trim raw); [discriminate|].
  destruct (startsWith "#" _); [discriminate|].
  destruct (splitWhite _) as [|p0 [|p1 [|p2 [|p3 [|p4 ps]]]]]; try discriminate.
  destruct (validValues _ _ _ _ _); [|discriminate].
  intros [= <-]. auto.
Qed.

Lemma parseLines_flags (uuid : nat -> string) (i k : nat) (lines : list chars) :
  Forall (fun b => deleted b = false /\ selected b = false)
    (parseLines uuid i k lines) /\
  map id (parseLines uuid i k lines) =
    map uuid (seq k (length (parseLines uuid i k lines))).
Proof.
  revert i k. induction lines as [|raw rest IH]; intros i k; simpl.
  - split; [constructor | reflexivity].
  - destruct (parseLine (uuid k) i raw) as [b|] eqn:E.
    + apply parseLine_flags in E. destruct E as (Hid & Hd & Hs & _).
      destruct (IH (S i) (S k)) as [Hf Hm]. split.
      * constructor; auto.
      * simpl. rewrite Hid, Hm. reflexivity.
    + apply IH.
Qed.

Lemma parse_flags (uuid : nat -> string) (content : string) :
  Forall (fun b => deleted b = false /\ selected b = false) (parse uuid content) /\
  map id (parse uuid content) =
    map uuid (seq 0 (length (parse uuid content))).
Proof.
  unfold parse. destruct (trim (chr content)).
  - split; [constructor | reflexivity].
  - apply parseLines_flags.
Qed.

(** ** Digits *)













(** ** Characters of a serialized line *)








(** ** toFixed(6) and parseFloat *)







(** ** Rounding to six decimals *)











(** ** A serialized line and its tokens *)







(** ** Lines of a joined text *)







(** ** Boxes that survive the round trip *)






(** ** The ranges of the coordinates *)



(** ** The round trip *)









(** ** Binary64 numbers: powers of two *)








(** ** Binary64 numbers: the nearest integer *)





(** ** Binary64 numbers: the nearest multiple of the last place *)










(** ** Binary64 numbers: the number of a rational *)







(** ** The contract of parse: lines *)





(** ** The contract of parse: digits and numerals *)

Lemma isDecimalDigit_isDigit (c : ascii) : isDecimalDigit c = isDigit c.
Proof.
  destruct c as [[] [] [] [] [] [] [] []]; vm_compute; reflexivity.
Qed.







(** ** Runs of digits at the front of a string *)





Lemma takeWhile_nil_head {A} (p : A -> bool) (l : list A) :
  takeWhile p l = [] -> headIs p l = false.
Proof.
  destruct l as [|x r]; simpl; [reflexivity|].
  destruct (p x); [discriminate | reflexivity].
Qed.


(** ** The contract of parse: integers *)





Lemma signText_not_white (sg : Sign) (r : chars) :
  startsWhite r = false -> startsWhite (signText sg ++ r) = false.
Proof. intros H. destruct sg; [exact H | reflexivity | reflexivity]. Qed.



Lemma ofRational_not_NaN (q : Q) : Binary64.ofRational q <> NaN.
Proof.
  unfold Binary64.ofRational. cbv zeta.
  destruct (Qeq_bool _ _); [discriminate|].
  destruct (Qle_bool _ _); discriminate.
Qed.



(** ** The contract of parse: exponent parts *)




Lemma exponent_head (ex : chars) (e : Z) :
  exponentPart ex e -> forall x, digitAhead (ex ++ x) = true -> ex = [].
Proof.
  intros H x Hx. destruct H as [|mark sg ds Hm _ _]; [reflexivity|].
  exfalso. cbn in Hx. rewrite isDecimalDigit_isDigit in Hx.
  destruct Hm as [-> | ->]; discriminate Hx.
Qed.

Lemma exponent_not_point (ex : chars) (e : Z) (x : chars) :
  exponentPart ex e ->
  ex = [] \/ exists c r, ex ++ x = c :: r /\ isDigit c = false /\
                          Ascii.eqb c "." = false.
Proof.
  intros H. destruct H as [|mark sg ds Hm _ _]; [left; reflexivity|].
  right. eexists _, _. split; [reflexivity|].
  destruct Hm as [-> | ->]; split; reflexivity.
Qed.



(** ** The contract of parse: literals *)





















(** ** The contract of parse: lines against the loop *)














(** ** The store model: what a caller can reach *)

Lemma elemOf_spec (r : Live.ref) (l : list Live.ref) :
  Live.elemOf r l = true <-> In r l.
Proof.
  unfold Live.elemOf. rewrite existsb_exists. split.
  - intros (x & Hin & Heq). apply Nat.eqb_eq in Heq. subst. exact Hin.
  - intros Hin. exists r. split; [exact Hin | apply Nat.eqb_refl].
Qed.

Lemma filterMap_ext_in {A B} (f g : A -> option B) (l : list A) :
  (forall x, In x l -> f x = g x) -> filterMap f l = filterMap g l.
Proof.
  induction l as [|x r IH]; intros H; simpl; [reflexivity|].
  rewrite (H x) by (simpl; auto). rewrite IH by (intros; apply H; simpl; auto).
  reflexivity.
Qed.

Lemma boxesAt_frame (fp : list Live.ref) (a a' : Live.ref) (h h' : Live.Store) :
  (forall r b, Live.objects h !! r = Some b -> Live.elemOf r fp = false ->
     Live.objects h' !! r = Some b) ->
  (forall x l, Live.arrays h !! x = Some l -> x <> a ->
     Live.arrays h' !! x = Some l) ->
  a' <> a -> (a' < length (Live.arrays h))%nat ->
  forallb (fun r => negb (Live.elemOf r fp) && (r <? length (Live.objects h))%nat)
    (Live.readArray h a') = true ->
  Live.boxesAt h' a' = Live.boxesAt h a'.
Proof.
  intros Hobj Harr Hne Hlt Hall. unfold Live.boxesAt, Live.readArray in *.
  destruct (lookup_lt_is_Some_2 (Live.arrays h) a' Hlt) as [l Hl].
  rewrite (Harr _ _ Hl Hne), Hl. rewrite Hl in Hall. simpl in *.
  apply filterMap_ext_in. intros r Hin.
  rewrite forallb_forall in Hall. specialize (Hall r Hin).
  apply andb_true_iff in Hall. destruct Hall as [Hfp Hrl].
  apply negb_true_iff in Hfp. apply Nat.ltb_lt in Hrl.
  destruct (lookup_lt_is_Some_2 (Live.objects h) r Hrl) as [b Hb].
  unfold Live.readBox. rewrite (Hobj _ _ Hb Hfp), Hb. reflexivity.
Qed.

Lemma changedThrough_writeBox (a r : Live.ref) (b : Box) (h : Live.Store) :
  Live.elemOf r (Live.readArray h a) = true ->
  Live.changedThrough a h (Live.writeBox r b h).
Proof.
  intros Hin. split.
  - intros r' b' Hr' Hnot. simpl.
    rewrite list_lookup_insert_ne; [exact Hr'|]. intros ->. congruence.
  - intros a' l Hl _. exact Hl.
Qed.

Lemma changedThrough_writeArray (a : Live.ref) (l : list Live.ref) (h : Live.Store) :
  Live.changedThrough a h (Live.writeArray a l h).
Proof.
  split.
  - intros r b Hr _. exact Hr.
  - intros a' l' Hl Hne. simpl. rewrite list_lookup_insert_ne; auto.
Qed.

Lemma otherArrays_kept (s : Live.StateManager) (i : Z) (st : Live.ImageState)
    (a : Live.ref) :
  Live.imageStates s !! i = Some st -> In a (Live.keptArrays st) ->
  In a (Live.otherArrays s).
Proof.
  intros Hi Ha. unfold Live.otherArrays. apply in_flat_map.
  exists (i, st). split.
  - apply list_elem_of_In, elem_of_map_to_list. exact Hi.
  - apply in_or_app. right. exact Ha.
Qed.

Lemma otherArrays_working (s : Live.StateManager) (i : Z) (st : Live.ImageState) :
  Live.imageStates s !! i = Some st -> i <> Live.currentIndex s ->
  In (Live.boxes st) (Live.otherArrays s).
Proof.
  intros Hi Hne. unfold Live.otherArrays. apply in_flat_map.
  exists (i, st). split.
  - apply list_elem_of_In, elem_of_map_to_list. exact Hi.
  - apply in_or_app. left. simpl. rewrite bool_decide_eq_false_2 by exact Hne.
    simpl. auto.
Qed.

Lemma filter_subset (p : Live.ref -> bool) (l : list Live.ref) (r : Live.ref) :
  Live.elemOf r l = false -> Live.elemOf r (List.filter p l) = false.
Proof.
  intros H. destruct (Live.elemOf r (List.filter p l)) eqn:E; [|reflexivity].
  apply elemOf_spec, filter_In in E. destruct E as [E _].
  apply elemOf_spec in E. congruence.
Qed.

Lemma readArray_alloc_old (l : list Live.ref) (h : Live.Store) (a : Live.ref) :
  (a < length (Live.arrays h))%nat ->
  Live.readArray (Live.mkStore (Live.objects h) (Live.arrays h ++ [l])) a
  = Live.readArray h a.
Proof.
  intros Hlt. unfold Live.readArray, Live.allocArray; simpl.
  rewrite lookup_app_l by exact Hlt. reflexivity.
Qed.

Lemma readArray_alloc_new (l : list Live.ref) (h : Live.Store) :
  Live.readArray (Live.mkStore (Live.objects h) (Live.arrays h ++ [l]))
    (length (Live.arrays h)) = l.
Proof.
  unfold Live.readArray, Live.allocArray; simpl.
  rewrite lookup_app_r by lia. rewrite Nat.sub_diag. reflexivity.
Qed.

(** Whatever the caller does through the array it was handed, an array
    apart from the working array keeps its boxes. *)
Lemma handedOut_frame (s : Live.StateManager) (h h1 h' : Live.Store)
    (a a' : Live.ref) :
  Live.separated s h = true -> handedOut s h a h1 ->
  Live.changedThrough a h1 h' -> In a' (Live.otherArrays s) ->
  Live.boxesAt h' a' = Live.boxesAt h a'.
Proof.
  intros Hsep Hout [Hobj Harr] Hin. unfold Live.separated in Hsep.
  unfold handedOut, Live.getCurrentBoxes, Live.getBoxesForSave in Hout.
  destruct (Live.currentState s) as [st|] eqn:Hs.
  - apply andb_true_iff in Hsep. destruct Hsep as [Hw Hsep].
    apply Nat.ltb_lt in Hw.
    rewrite forallb_forall in Hsep. specialize (Hsep a' Hin).
    unfold Live.apartFrom in Hsep. apply andb_true_iff in Hsep.
    destruct Hsep as [Hsep Hall]. apply andb_true_iff in Hsep.
    destruct Hsep as [Hne Hlt]. apply negb_true_iff, Nat.eqb_neq in Hne.
    apply Nat.ltb_lt in Hlt.
    destruct Hout as [[= <- <-] | Hout].
    + apply (boxesAt_frame (Live.readArray h (Live.boxes st)) (Live.boxes st));
        auto.
    + injection Hout as <- <-.
      apply (boxesAt_frame (Live.readArray h (Live.boxes st))
               (length (Live.arrays h))); auto; [| |lia].
      * intros r b Hr Hnot. apply Hobj; [exact Hr|].
        rewrite (readArray_alloc_new _ h). apply filter_subset, Hnot.
      * intros x l Hl Hx. apply Harr; [|exact Hx]. simpl.
        rewrite lookup_app_l; [exact Hl | eapply lookup_lt_Some; eauto].
  - rewrite forallb_forall in Hsep. specialize (Hsep a' Hin).
    unfold Live.apartFrom in Hsep. apply andb_true_iff in Hsep.
    destruct Hsep as [Hsep Hall]. apply andb_true_iff in Hsep.
    destruct Hsep as [Hne Hlt]. apply negb_true_iff, Nat.eqb_neq in Hne.
    apply Nat.ltb_lt in Hlt.
    assert (Ha : a = length (Live.arrays h) /\
                 h1 = Live.mkStore (Live.objects h) (Live.arrays h ++ [[]])).
    { destruct Hout as [[= <- <-] | [= <- <-]]; auto. }
    destruct Ha as [-> ->].
    apply (boxesAt_frame (Live.readArray h (length (Live.arrays h)))
             (length (Live.arrays h))); auto.
    + intros r b Hr Hnot. apply Hobj; [exact Hr|].
      rewrite (readArray_alloc_new _ h). reflexivity.
    + intros x l Hl Hx. apply Harr; [|exact Hx]. simpl.
      rewrite lookup_app_l; [exact Hl | eapply lookup_lt_Some; eauto].
Qed.

Lemma kept_frame (s : Live.StateManager) (h h' : Live.Store) (i : Z)
    (st : Live.ImageState) :
  Live.imageStates s !! i = Some st ->
  (forall a', In a' (Live.otherArrays s) ->
     Live.boxesAt h' a' = Live.boxesAt h a') ->
  Live.kept h' st = Live.kept h st.
Proof.
  intros Hi Hframe.
  assert (Hk : forall a', In a' (Live.keptArrays st) ->
                 Live.boxesAt h' a' = Live.boxesAt h a').
  { intros a' Ha. apply Hframe. eapply otherArrays_kept; eauto. }
  unfold Live.kept, Live.keptArrays in *.
  assert (Hacts : forall l, (forall x, In x l -> In (Live.action_boxes x)
                      (map Live.action_boxes (Live.undoStack st ++ Live.redoStack st))) ->
                    map (Live.reifyAction h') l = map (Live.reifyAction h) l).
  { induction l as [|x l IH]; intros Hl; [reflexivity|]. simpl.
    rewrite IH by (intros; apply Hl; simpl; auto).
    unfold Live.reifyAction at 1 3. rewrite Hk; [reflexivity|].
    right. apply Hl. simpl. auto. }
  rewrite (Hk (Live.originalBoxes st)) by (left; reflexivity).
  rewrite !Hacts; [reflexivity| |].
  - intros x Hx. apply in_map, in_or_app. auto.
  - intros x Hx. apply in_map, in_or_app. auto.
Qed.

(** ** Opening an image in the store *)

Lemma readBox_grown (h : Live.Store) (objs : list Box) (arrs : list (list Live.ref))
    (r : Live.ref) :
  (r < length (Live.objects h))%nat ->
  Live.readBox (Live.mkStore (Live.objects h ++ objs) (Live.arrays h ++ arrs)) r
  = Live.readBox h r.
Proof. intros Hr. unfold Live.readBox; simpl. apply lookup_app_l, Hr. Qed.

Lemma readArray_grown (h : Live.Store) (objs : list Box) (arrs : list (list Live.ref))
    (a : Live.ref) :
  (a < length (Live.arrays h))%nat ->
  Live.readArray (Live.mkStore (Live.objects h ++ objs) (Live.arrays h ++ arrs)) a
  = Live.readArray h a.
Proof.
  intros Ha. unfold Live.readArray; simpl. rewrite lookup_app_l by exact Ha.
  reflexivity.
Qed.

Lemma boxesAt_grown (h : Live.Store) (objs : list Box) (arrs : list (list Live.ref))
    (a : Live.ref) :
  allocatedArray h a ->
  Live.boxesAt (Live.mkStore (Live.objects h ++ objs) (Live.arrays h ++ arrs)) a
  = Live.boxesAt h a.
Proof.
  intros [Ha Hall]. unfold Live.boxesAt. rewrite readArray_grown by exact Ha.
  apply filterMap_ext_in. intros r Hr. apply readBox_grown.
  rewrite Forall_forall in Hall. apply Hall, list_elem_of_In, Hr.
Qed.

Lemma boxesAt_length (h : Live.Store) (a : Live.ref) :
  allocatedArray h a -> length (Live.boxesAt h a) = length (Live.readArray h a).
Proof.
  intros [_ Hall]. unfold Live.boxesAt.
  induction Hall as [|r rest Hr _ IH]; [reflexivity|]. simpl.
  destruct (lookup_lt_is_Some_2 (Live.objects h) r Hr) as [b Hb].
  unfold Live.readBox at 1. rewrite Hb. simpl. rewrite IH. reflexivity.
Qed.

(** Cloning allocated boxes allocates one new object for each, in order. *)
Lemma cloneEach_allocated (rs : list Live.ref) (h : Live.Store) :
  Forall (fun r => (r < length (Live.objects h))%nat) rs ->
  Live.cloneEach rs h =
    (seq (length (Live.objects h)) (length rs),
     Live.mkStore
       (Live.objects h ++ map cloneBox (filterMap (Live.readBox h) rs))
       (Live.arrays h)).
Proof.
  revert h. induction rs as [|r rest IH]; intros h Hall.
  - simpl. rewrite app_nil_r. destruct h; reflexivity.
  - inversion Hall as [|? ? Hr Hrest]; subst.
    destruct (lookup_lt_is_Some_2 (Live.objects h) r Hr) as [b Hb].
    cbn [Live.cloneEach]. unfold Live.cloneBox, Live.readBox at 1. rewrite Hb.
    unfold Live.allocBox.
    set (h1 := Live.mkStore (Live.objects h ++ [cloneBox b]) (Live.arrays h)).
    assert (Hall1 : Forall (fun r => (r < length (Live.objects h1))%nat) rest).
    { eapply Forall_impl; [exact Hrest|]. intros x Hx. unfold h1; simpl in *.
      rewrite length_app. simpl. lia. }
    rewrite (IH h1 Hall1).
    assert (Hread : filterMap (Live.readBox h1) rest = filterMap (Live.readBox h) rest).
    { apply filterMap_ext_in. intros x Hx. unfold h1, Live.readBox; simpl.
      apply lookup_app_l. rewrite Forall_forall in Hrest.
      apply Hrest, list_elem_of_In, Hx. }
    rewrite Hread. unfold h1; simpl. rewrite length_app. simpl.
    unfold Live.readBox at 2. rewrite Hb. simpl.
    rewrite <- app_assoc. simpl.
    replace (length (Live.objects h) + 1)%nat with (S (length (Live.objects h))) by lia.
    reflexivity.
Qed.

Lemma filterMap_seq_appended (front bs back : list Box) :
  filterMap (fun r => (front ++ bs ++ back) !! r) (seq (length front) (length bs))
  = bs.
Proof.
  revert front. induction bs as [|b rest IH]; intros front; [reflexivity|].
  simpl. rewrite lookup_app_r by lia. rewrite Nat.sub_diag. simpl. f_equal.
  specialize (IH (front ++ [b])). rewrite length_app in IH. simpl in IH.
  replace (length front + 1)%nat with (S (length front)) in IH by lia.
  rewrite <- app_assoc in IH. exact IH.
Qed.

(** [cloneBoxes] on an allocated array: a new array, at the end of the
    store, of new objects with the values of the boxes. *)
Lemma cloneBoxes_allocated (a : Live.ref) (h : Live.Store) :
  allocatedArray h a ->
  Live.cloneBoxes a h =
    (length (Live.arrays h),
     Live.mkStore (Live.objects h ++ cloneBoxes (Live.boxesAt h a))
       (Live.arrays h ++
          [seq (length (Live.objects h)) (length (Live.boxesAt h a))])).
Proof.
  intros Ha. unfold Live.cloneBoxes.
  rewrite (cloneEach_allocated _ h (proj2 Ha)). unfold Live.allocArray.
  cbn [Live.objects Live.arrays]. rewrite (boxesAt_length h a Ha). reflexivity.
Qed.

Lemma cloned_boxesAt (h : Live.Store) (bs : list Box) :
  Live.boxesAt
    (Live.mkStore (Live.objects h ++ bs)
       (Live.arrays h ++ [seq (length (Live.objects h)) (length bs)]))
    (length (Live.arrays h)) = bs.
Proof.
  unfold Live.boxesAt, Live.readArray, Live.readBox; simpl.
  rewrite lookup_app_r by lia. rewrite Nat.sub_diag. simpl.
  pose proof (filterMap_seq_appended (Live.objects h) bs []) as H.
  rewrite app_nil_r in H. exact H.
Qed.

Lemma cloned_allocatedArray (h : Live.Store) (bs : list Box) :
  allocatedArray
    (Live.mkStore (Live.objects h ++ bs)
       (Live.arrays h ++ [seq (length (Live.objects h)) (length bs)]))
    (length (Live.arrays h)).
Proof.
  split; simpl.
  - rewrite length_app. simpl. lia.
  - unfold Live.readArray; simpl. rewrite lookup_app_r by lia.
    rewrite Nat.sub_diag. simpl. apply Forall_forall. intros r Hr.
    apply elem_of_seq in Hr. rewrite length_app. lia.
Qed.

Lemma allocatedArray_grown (h : Live.Store) (objs : list Box)
    (arrs : list (list Live.ref)) (a : Live.ref) :
  allocatedArray h a ->
  allocatedArray (Live.mkStore (Live.objects h ++ objs) (Live.arrays h ++ arrs)) a.
Proof.
  intros [Ha Hall]. split; simpl.
  - rewrite length_app. lia.
  - rewrite readArray_grown by exact Ha.
    eapply Forall_impl; [exact Hall|]. intros r Hr. simpl in *.
    rewrite length_app. lia.
Qed.

(** [initImageState] on a new session, given an allocated array of
    allocated boxes: the working array and the snapshot are two new arrays
    of new objects with the values of the boxes given, and the session is
    separated. *)
Lemma initImageState_separated (index : Z) (a : Live.ref) (h : Live.Store) :
  allocatedArray h a ->
  exists st,
    Live.currentState (fst (Live.initImageState index a Live.newStateManager h))
      = Some st /\
    Live.boxesAt (snd (Live.initImageState index a Live.newStateManager h))
      (Live.boxes st) = cloneBoxes (Live.boxesAt h a) /\
    Live.boxesAt (snd (Live.initImageState index a Live.newStateManager h))
      (Live.originalBoxes st) = cloneBoxes (Live.boxesAt h a) /\
    Live.separated (fst (Live.initImageState index a Live.newStateManager h))
      (snd (Live.initImageState index a Live.newStateManager h)) = true.
Proof.
  intros Ha. unfold Live.initImageState. cbn [Live.imageStates Live.newStateManager].
  rewrite lookup_empty. rewrite (cloneBoxes_allocated a h Ha).
  set (bs := cloneBoxes (Live.boxesAt h a)).
  assert (Hlen : length (Live.boxesAt h a) = length bs).
  { unfold bs, cloneBoxes. rewrite length_map. reflexivity. }
  rewrite Hlen.
  set (h1 := Live.mkStore (Live.objects h ++ bs)
               (Live.arrays h ++ [seq (length (Live.objects h)) (length bs)])).
  assert (Ha1 : allocatedArray h1 a) by (apply allocatedArray_grown, Ha).
  assert (Hsame : Live.boxesAt h1 a = Live.boxesAt h a) by (apply boxesAt_grown, Ha).
  rewrite (cloneBoxes_allocated a h1 Ha1). rewrite Hsame. fold bs. rewrite Hlen.
  cbn [fst snd].
  set (h2 := Live.mkStore (Live.objects h1 ++ bs)
               (Live.arrays h1 ++ [seq (length (Live.objects h1)) (length bs)])).
  eexists. split; [unfold Live.currentState; simpl; apply lookup_insert_eq|].
  cbn [Live.boxes Live.originalBoxes].
  assert (HW : allocatedArray h1 (length (Live.arrays h)))
    by apply cloned_allocatedArray.
  split; [|split].
  - unfold h2. rewrite (boxesAt_grown h1 bs _ _ HW). apply cloned_boxesAt.
  - apply cloned_boxesAt.
  - unfold Live.separated, Live.currentState. simpl.
    rewrite lookup_insert_eq. cbn [Live.boxes].
    apply andb_true_iff. split.
    + apply Nat.ltb_lt. rewrite !length_app. simpl. lia.
    + unfold Live.otherArrays. simpl. rewrite insert_empty, map_to_list_singleton.
      simpl. rewrite bool_decide_eq_true_2 by reflexivity. simpl.
      rewrite andb_true_r. unfold Live.apartFrom.
      apply andb_true_iff. split; [apply andb_true_iff; split|].
      * apply negb_true_iff, Nat.eqb_neq. rewrite length_app. simpl. lia.
      * apply Nat.ltb_lt. simpl. rewrite !length_app. simpl. lia.
      * apply forallb_forall. intros r Hr.
        assert (HrO : Live.readArray h2 (length (Live.arrays h1))
                      = seq (length (Live.objects h1)) (length bs)).
        { unfold Live.readArray, h2; simpl. rewrite lookup_app_r by lia.
          rewrite Nat.sub_diag. reflexivity. }
        assert (HrW : Live.readArray h2 (length (Live.arrays h))
                      = seq (length (Live.objects h)) (length bs)).
        { unfold h2. rewrite readArray_grown by apply HW.
          unfold Live.readArray, h1; simpl. rewrite lookup_app_r by lia.
          rewrite Nat.sub_diag. reflexivity. }
        change (length (Live.arrays h ++ [seq (length (Live.objects h)) (length bs)]))
          with (length (Live.arrays h1)) in Hr.
        rewrite HrO in Hr. rewrite HrW.
        apply list_elem_of_In, elem_of_seq in Hr.
        apply andb_true_iff. split.
        -- apply negb_true_iff. destruct (Live.elemOf r _) eqn:E; [|reflexivity].
           apply elemOf_spec, list_elem_of_In, elem_of_seq in E.
           unfold h1 in Hr. simpl in Hr. rewrite length_app in Hr. exfalso. lia.
        -- apply Nat.ltb_lt. unfold h2, h1 in *. simpl in *.
           rewrite !length_app in *. lia.
Qed.

(** ** A session in the store *)

(** C3, as amended: [getCurrentBoxes] returns the working array of the
    session itself and [getBoxesForSave] a new array that holds the live box
    objects of the working array, not clones; neither changes the store
    otherwise.  In a session whose snapshots and recorded actions are
    clones of their own, as [initImageState] makes them
    ([initImageState_separated]), whatever the caller does through the returned
    array leaves the original snapshot and the undo and redo stacks of
    every image and the working collection of every other image as they
    were (the modified set is not in the store); replacing the contents of
    the array [getBoxesForSave] returned leaves the working collection as
    it was too. *)
Theorem reads_hand_out_live_boxes (s : Live.StateManager) (h : Live.Store) :
  Live.separated s h = true ->
  (forall st, Live.currentState s = Some st ->
     Live.getCurrentBoxes s h = (Live.boxes st, h) /\
     Live.getBoxesForSave s h =
       (length (Live.arrays h),
        Live.mkStore (Live.objects h)
          (Live.arrays h ++
             [List.filter (Live.isLive h) (Live.readArray h (Live.boxes st))])) /\
     Live.boxes st <> length (Live.arrays h)) /\
  (forall a h1 h', handedOut s h a h1 -> Live.changedThrough a h1 h' ->
     forall i st, Live.imageStates s !! i = Some st ->
       Live.kept h' st = Live.kept h st /\
       (i <> Live.currentIndex s ->
        Live.boxesAt h' (Live.boxes st) = Live.boxesAt h (Live.boxes st))) /\
  (forall a h1 l st,
     Live.getBoxesForSave s h = (a, h1) -> Live.currentState s = Some st ->
     Live.boxesAt (Live.writeArray a l h1) (Live.boxes st)
     = Live.boxesAt h (Live.boxes st)).
Proof.
  intros Hsep. split; [|split].
  - intros st Hs. unfold Live.getCurrentBoxes, Live.getBoxesForSave. rewrite Hs.
    split; [reflexivity|]. split; [reflexivity|].
    unfold Live.separated in Hsep. rewrite Hs in Hsep.
    apply andb_true_iff in Hsep. destruct Hsep as [Hw _].
    apply Nat.ltb_lt in Hw. lia.
  - intros a h1 h' Hout Hch i st Hi.
    pose proof (handedOut_frame s h h1 h' a) as Hframe.
    split.
    + apply (kept_frame s h h' i st Hi). intros a' Ha'. apply Hframe; auto.
    + intros Hne. apply Hframe; auto. eapply otherArrays_working; eauto.
  - intros a h1 l st Hsave Hs. unfold Live.getBoxesForSave in Hsave.
    rewrite Hs in Hsave. injection Hsave as <- <-.
    unfold Live.separated in Hsep. rewrite Hs in Hsep.
    apply andb_true_iff in Hsep. destruct Hsep as [Hw _].
    apply Nat.ltb_lt in Hw.
    unfold Live.boxesAt, Live.readArray, Live.writeArray; simpl.
    rewrite list_lookup_insert_ne by lia.
    rewrite lookup_app_l by exact Hw. reflexivity.
Qed.

Lemma demoSession_value :
  exists st,
    Live.currentState (fst demoSession) = Some st /\
    Live.separated (fst demoSession) (snd demoSession) = true /\
    Live.boxesAt (snd demoSession) (Live.boxes st)
      = [setFlags true boxA; boxB] /\
    Live.boxesAt (snd demoSession) (Live.originalBoxes st) = [boxA; boxB] /\
    map (Live.reifyAction (snd demoSession)) (Live.undoStack st)
      = [mkAction "delete" [boxA] 7].
Proof. eexists. repeat split; vm_compute; reflexivity. Qed.

(** ** Instances *)


Lemma validBox_farClassBox : validBox farClassBox.
Proof.
  unfold validBox, farClassBox, inUnitClosed, inUnitHalfOpen; simpl.
  split; [lia|]. repeat split; eexists; (split; [reflexivity|]); split; lra.
Qed.







(** C3, the claim as stated fails: in the demo session the array
    [getCurrentBoxes] returns is the working array, and setting [deleted] on
    its second box changes the working collection of the session; the same
    box is reached through the array [getBoxesForSave] returns. *)
Lemma reads_return_copies_counterexample :
  Live.getCurrentBoxes (fst demoSession) (snd demoSession)
    = (1%nat, snd demoSession) /\
  Live.boxesAt (snd demoSession) 1%nat = [setFlags true boxA; boxB] /\
  Live.boxesAt (Live.writeBox 3%nat (setFlags true boxB) (snd demoSession)) 1%nat
    = [setFlags true boxA; setFlags true boxB] /\
  Live.readArray (snd (Live.getBoxesForSave (fst demoSession) (snd demoSession)))
    (fst (Live.getBoxesForSave (fst demoSession) (snd demoSession))) = [3%nat] /\
  ~ readsReturnCopies.
Proof.
  split; [vm_compute; reflexivity|]. split; [vm_compute; reflexivity|].
  split; [vm_compute; reflexivity|]. split; [vm_compute; reflexivity|].
  intros Hclaim.
  destruct demoSession_value as (st & Hs & Hsep & _).
  assert (Hst : Live.boxes st = 1%nat).
  { vm_compute in Hs. injection Hs as <-. reflexivity. }
  pose proof (Hclaim (fst demoSession) (snd demoSession) 1%nat (snd demoSession)
                (Live.writeBox 3%nat (setFlags true boxB) (snd demoSession)) Hsep) as H.
  specialize (H (or_introl eq_refl)).
  assert (Hel : Live.elemOf 3%nat (Live.readArray (snd demoSession) 1%nat) = true)
    by (vm_compute; reflexivity).
  specialize (H (changedThrough_writeBox 1%nat 3%nat (setFlags true boxB) _ Hel) st Hs).
  rewrite Hst in H. vm_compute in H. discriminate H.
Qed.

Lemma reads_hand_out_live_boxes_witness :
  Live.separated (fst demoSession) (snd demoSession) = true /\
  (forall a h1 h',
     handedOut (fst demoSession) (snd demoSession) a h1 ->
     Live.changedThrough a h1 h' ->
     forall i st, Live.imageStates (fst demoSession) !! i = Some st ->
       Live.kept h' st = Live.kept (snd demoSession) st /\
       (i <> Live.currentIndex (fst demoSession) ->
        Live.boxesAt h' (Live.boxes st)
        = Live.boxesAt (snd demoSession) (Live.boxes st))).
Proof.
  assert (Hsep : Live.separated (fst demoSession) (snd demoSession) = true)
    by (vm_compute; reflexivity).
  split; [exact Hsep|].
  exact (proj1 (proj2 (reads_hand_out_live_boxes (fst demoSession) (snd demoSession) Hsep))).
Defined.

Lemma modified_flag_rule_witness :
  (fst (undo deletedSession) = true /\
   modifiedByRule (snd (undo deletedSession))) /\
  (fst (redo (snd (undo deletedSession))) = true /\
   modifiedByRule (snd (redo (snd (undo deletedSession))))) /\
  (imageStates newStateManager !! 0 = None /\
   (0 ∉ globalModified newStateManager) /\
   NoDup (map id [boxA; boxB]) /\
   fst (deleteSelected 7 openedSession) > 0 /\
   isModified 0 openedSession = false /\
   isModified 0 deletedSession = true /\
   fst (undo deletedSession) = true /\
   getCurrentBoxes (snd (undo deletedSession))
     = mutateWhere isSelectedLive (setFlags false) [boxA; boxB] /\
   isModified 0 (snd (undo deletedSession)) = false).
Proof.
  assert (Hu : fst (undo deletedSession) = true) by (vm_compute; reflexivity).
  assert (Hr : fst (redo (snd (undo deletedSession))) = true)
    by (vm_compute; reflexivity).
  assert (Hn : imageStates newStateManager !! 0 = None) by reflexivity.
  assert (Hm : 0 ∉ globalModified newStateManager) by (apply not_elem_of_empty).
  assert (Hd : NoDup (map id [boxA; boxB])).
  { apply (bool_decide_unpack _). vm_compute. exact I. }
  assert (Hc : fst (deleteSelected 7 openedSession) > 0) by (vm_compute; reflexivity).
  split; [split; [exact Hu | exact (proj1 modified_flag_rule _ Hu)]|].
  split; [split; [exact Hr | exact (proj1 (proj2 modified_flag_rule) _ Hr)]|].
  split; [exact Hn|]. split; [exact Hm|]. split; [exact Hd|]. split; [exact Hc|].
  destruct (proj2 (proj2 modified_flag_rule) newStateManager 0 [boxA; boxB] 7 Hn Hm Hd)
    as [H1 H2].
  split; [exact H1|]. exact (H2 Hc).
Defined.

Lemma undo_stack_bound_witness :
  (exists st,
     imageStates (run (OpInitImageState 0 [boxA; boxB] :: deleteRestorePairs 3)
                    newStateManager) !! 0 = Some st /\
     (length (undoStack st) <= 50)%nat /\ (length (redoStack st) <= 50)%nat) /\
  (exists st',
     currentState (recordAction "delete" [boxA] 9 openedSession) = Some st' /\
     redoStack st' = [] /\ (length (undoStack st') <= 50)%nat) /\
  (exists st',
     currentState (recordAll [("delete", [boxA], 1); ("restore", [boxA], 2)]
                     openedSession) = Some st' /\
     redoStack st' = [] /\
     undoStack st' = [mkAction "delete" [boxA] 1; mkAction "restore" [boxA] 2]) /\
  undoTimestamps (run (deleteRestorePairs 60) openedSession)
    = map (fun k => 70 + Z.of_nat k) (seq 0 50).
Proof.
  destruct undo_stack_bound as (H1 & H2 & H3 & _ & H5).
  split.
  { eexists. split; [vm_compute; reflexivity|].
    apply (H1 (OpInitImageState 0 [boxA; boxB] :: deleteRestorePairs 3) 0).
    vm_compute. reflexivity. }
  split.
  { destruct (H2 openedSession (mkImageState [boxA; boxB] [boxA; boxB] [] [])
                "delete" [boxA] 9) as (st' & Hs & Hr & Hl & _).
    - vm_compute. reflexivity.
    - simpl. lia.
    - exists st'. auto. }
  split.
  { destruct (H3 openedSession (mkImageState [boxA; boxB] [boxA; boxB] [] [])
                [("delete", [boxA], 1); ("restore", [boxA], 2)])
      as (st' & Hs & Hr & Hu).
    - vm_compute. reflexivity.
    - simpl. lia.
    - discriminate.
    - exists st'. split; [exact Hs|]. split; [exact Hr|]. rewrite Hu.
      vm_compute. reflexivity. }
  apply (H5 newStateManager 0 [boxA; boxB]); reflexivity.
Defined.

Lemma lru_eviction_order_witness :
  lruSetAll (fun _ : string => true) [(1, "a"); (2, "b"); (3, "c")] (newLRUCache 2)
    = mkLRUCache 2 [(2, "b"); (3, "c")] ["a"] /\
  lruSet (fun _ : string => true) 3 "c"
    (snd (lruGet 1 (mkLRUCache 2 [(1, "a"); (2, "b")] [])))
    = mkLRUCache 2 [(1, "a"); (3, "c")] ["b"] /\
  lruSet (fun _ : string => true) 1 "z" (mkLRUCache 2 [(1, "a"); (2, "b")] [])
    = mkLRUCache 2 [(2, "b"); (1, "z")] [] /\
  lruClear (fun _ : string => true) (mkLRUCache 2 [(1, "a"); (2, "b")] [])
    = mkLRUCache 2 [] ["a"; "b"].
Proof.
  destruct (@lru_eviction_order Z string _ (fun _ => true))
    as (H1 & _ & _ & H4 & H5 & H6).
  split.
  { apply (H1 2 1 "a" [(2, "b"); (3, "c")]); [lia | reflexivity|].
    apply (bool_decide_unpack _). vm_compute. exact I. }
  split.
  { apply (H4 (mkLRUCache 2 [(1, "a"); (2, "b")] []) 3 "c" 1 "a" 2 "b" []).
    - apply (bool_decide_unpack _). vm_compute. exact I.
    - reflexivity.
    - apply (bool_decide_unpack _). vm_compute. exact I.
    - simpl. lia. }
  split.
  { apply (H5 (mkLRUCache 2 [(1, "a"); (2, "b")] []) 1 "z").
    - apply (bool_decide_unpack _). vm_compute. exact I.
    - simpl. auto. }
  apply (H6 (mkLRUCache 2 [(1, "a"); (2, "b")] [])).
Defined.

Lemma lru_replace_no_release_witness :
  mapHas 1 [(1, "a"); (2, "b")] = true /\
  closeCalls (lruSet (fun _ : string => true) 1 "z"
                (mkLRUCache 2 [(1, "a"); (2, "b")] []))
    = [] /\
  closeCalls (snd (lruDelete (fun _ : string => true) 1
                     (mkLRUCache 2 [(1, "a"); (2, "b")] [])))
    = ["a"].
Proof.
  destruct (@lru_replace_no_release Z string _ (fun _ => true))
    as (H1 & _ & _ & H4 & _).
  assert (Hh : mapHas 1 [(1, "a"); (2, "b")] = true) by reflexivity.
  split; [exact Hh|]. split.
  - exact (H1 (mkLRUCache 2 [(1, "a"); (2, "b")] []) 1 "z" Hh).
  - apply (H4 (mkLRUCache 2 [(1, "a"); (2, "b")] []) 1 "a"). reflexivity.
Defined.

Lemma view_transform_round_trip_witness :
  (0 < 800)%Q /\ (0 < 600)%Q /\ inZoomRange (5 # 4) /\
  exists ix iy sx sy,
    canvasPxToImagePx
      (mkView true (Finite 1920) (Finite 1080) (Finite (5 # 4))
         (Finite 800) (Finite 600)) (Finite 100) (Finite 50) = (ix, iy) /\
    imagePxToCanvasPx
      (mkView true (Finite 1920) (Finite 1080) (Finite (5 # 4))
         (Finite 800) (Finite 600)) ix iy = (Finite sx, Finite sy) /\
    (sx == 100)%Q /\ (sy == 50)%Q.
Proof.
  assert (Hw : (0 < 800)%Q) by reflexivity.
  assert (Hh : (0 < 600)%Q) by reflexivity.
  assert (Hz : inZoomRange (5 # 4)) by (split; discriminate).
  split; [exact Hw|]. split; [exact Hh|]. split; [exact Hz|].
  exact (proj2 (proj2 (proj2 (proj2
    (view_transform_round_trip true 1920 1080 (5 # 4) 800 600 100 50 Hw Hh Hz))))).
Defined.

Lemma undo_redo_nothing_to_do_witness :
  currentState newStateManager = None /\
  undo newStateManager = (false, newStateManager) /\
  (exists st, currentState openedSession = Some st /\ undoStack st = []) /\
  undo openedSession = (false, openedSession) /\
  (exists st, currentState deletedSession = Some st /\ redoStack st = []) /\
  redo deletedSession = (false, deletedSession).
Proof.
  assert (H0 : currentState newStateManager = None) by reflexivity.
  assert (H1 : exists st, currentState openedSession = Some st /\ undoStack st = []).
  { eexists. split; vm_compute; reflexivity. }
  assert (H2 : exists st, currentState deletedSession = Some st /\ redoStack st = []).
  { eexists. split; vm_compute; reflexivity. }
  split; [exact H0|].
  split; [exact (proj1 (undo_redo_nothing_to_do newStateManager) (or_introl H0))|].
  split; [exact H1|].
  split; [exact (proj1 (undo_redo_nothing_to_do openedSession) (or_intror H1))|].
  split; [exact H2|].
  exact (proj2 (undo_redo_nothing_to_do deletedSession) (or_intror H2)).
Defined.

Lemma replay_total_witness :
  currentState straySession
    = Some (mkImageState [boxA; boxB] [boxA; boxB]
              [mkAction "restore" [strayBox; boxA] 3] []) /\
  fst (undo straySession) = true /\
  getCurrentBoxes (snd (undo straySession)) = [boxADeleted; boxB] /\
  exists st',
    currentState (snd (undo straySession)) = Some st' /\
    length (boxes st') = 2%nat /\
    exists after,
      boxes st' !! 0%nat = Some after /\
      deleted after = true /\ selected after = false /\ id after = "a".
Proof.
  assert (Hs : currentState straySession
    = Some (mkImageState [boxA; boxB] [boxA; boxB]
              [mkAction "restore" [strayBox; boxA] 3] []))
    by (vm_compute; reflexivity).
  split; [exact Hs|].
  destruct (proj1 (replay_total straySession _
                     (mkAction "restore" [strayBox; boxA] 3) [] Hs) eq_refl)
    as (Ht & st' & Hs' & Hlen & Hbox).
  split; [exact Ht|]. split; [vm_compute; reflexivity|].
  exists st'. split; [exact Hs'|]. split; [exact Hlen|].
  destruct (Hbox 0%nat boxA eq_refl) as (after & Ha & Hw & _).
  exists after. split; [exact Ha|].
  assert (Hr : recordedIn [strayBox; boxA] boxA /\ foundById [boxA; boxB] 0 boxA).
  { split.
    - exists boxA. split; [right; left; reflexivity | reflexivity].
    - intros j b' Hj. inversion Hj. }
  destruct (Hw Hr) as (Hd & Hsel & Hid & _).
  split; [exact Hd|]. split; [exact Hsel | exact Hid].
Defined.

(* ===================================================================== *)
(** * Further facts *)
(* ===================================================================== *)

(** ** FileManager: base names and extensions *)

Lemma chr_append (a b : string) : chr (String.append a b) = chr a ++ chr b.
Proof. induction a as [|c a IH]; simpl; [reflexivity | now rewrite IH]. Qed.

Lemma string_of_chr (s : string) : string_of_list_ascii (chr s) = s.
Proof. apply string_of_list_ascii_of_string. Qed.

Lemma chr_of_list (l : chars) : chr (string_of_list_ascii l) = l.
Proof. apply list_ascii_of_string_of_list_ascii. Qed.

Lemma string_of_app (a b : chars) :
  string_of_list_ascii (a ++ b) =
  String.append (string_of_list_ascii a) (string_of_list_ascii b).
Proof. induction a as [|c a IH]; simpl; [reflexivity | now rewrite IH]. Qed.

Lemma lastIndexOf_range (c : ascii) (s : chars) :
  -1 <= lastIndexOf c s < Z.of_nat (length s).
Proof.
  induction s as [|x r IH]; simpl; [lia|].
  destruct (0 <=? lastIndexOf c r) eqn:E.
  - apply Z.leb_le in E. lia.
  - destruct (Ascii.eqb x c); lia.
Qed.

Lemma lastIndexOf_none (c : ascii) (s : chars) :
  lastIndexOf c s = -1 <-> ~ In c s.
Proof.
  induction s as [|x r IH]; simpl; [tauto|].
  pose proof (lastIndexOf_range c r) as Hr.
  destruct (0 <=? lastIndexOf c r) eqn:E.
  - apply Z.leb_le in E. split; [lia|].
    intros Hn. exfalso. assert (lastIndexOf c r = -1) by (apply IH; tauto). lia.
  - apply Z.leb_gt in E. assert (Hm : lastIndexOf c r = -1) by lia.
    apply IH in Hm.
    destruct (Ascii.eqb x c) eqn:Ex.
    + apply Ascii.eqb_eq in Ex. split; [lia | tauto].
    + apply Ascii.eqb_neq in Ex. split; [tauto | reflexivity].
Qed.

(** The text splits at the last occurrence: nothing after it is [c]. *)
Lemma lastIndexOf_split (c : ascii) (s : chars) :
  0 <= lastIndexOf c s ->
  exists e, s = firstn (Z.to_nat (lastIndexOf c s)) s ++ c :: e /\
            skipn (Z.to_nat (lastIndexOf c s)) s = c :: e /\ ~ In c e.
Proof.
  induction s as [|x r IH]; simpl; [lia|].
  pose proof (lastIndexOf_range c r) as Hr.
  destruct (0 <=? lastIndexOf c r) eqn:E.
  - apply Z.leb_le in E. intros _. destruct (IH E) as (e & H1 & H2 & H3).
    exists e. replace (Z.to_nat (1 + lastIndexOf c r))
      with (S (Z.to_nat (lastIndexOf c r))) by lia.
    simpl. repeat split; [now rewrite <- H1 | exact H2 | exact H3].
  - apply Z.leb_gt in E. assert (Hm : lastIndexOf c r = -1) by lia.
    apply lastIndexOf_none in Hm.
    destruct (Ascii.eqb x c) eqn:Ex; [|lia].
    apply Ascii.eqb_eq in Ex. subst x. intros _. exists r. simpl. auto.
Qed.

Lemma lastIndexOf_app (c : ascii) (a e : chars) :
  ~ In c e -> lastIndexOf c (a ++ c :: e) = Z.of_nat (length a).
Proof.
  intros He. induction a as [|x a IH].
  - simpl. apply lastIndexOf_none in He. rewrite He. simpl.
    now rewrite Ascii.eqb_refl.
  - change ((x :: a) ++ c :: e) with (x :: (a ++ c :: e)).
    cbn [lastIndexOf]. rewrite IH.
    destruct (0 <=? Z.of_nat (length a)) eqn:E; [simpl length; lia|].
    apply Z.leb_gt in E. lia.
Qed.

Lemma substring_prefix (s : chars) (n : Z) :
  0 <= n <= Z.of_nat (length s) -> substring s 0 n = firstn (Z.to_nat n) s.
Proof.
  intros H. unfold substring.
  rewrite (Z.max_l 0 0), (Z.min_l 0), (Z.max_l n 0), (Z.min_l n) by lia.
  rewrite Z.max_r, Z.min_l by lia. rewrite Z.sub_0_r. reflexivity.
Qed.

Lemma substringFrom_suffix (s : chars) (n : Z) :
  0 <= n <= Z.of_nat (length s) -> substringFrom s n = skipn (Z.to_nat n) s.
Proof.
  intros H. unfold substringFrom, substring.
  rewrite (Z.max_l n 0), (Z.min_l n) by lia.
  rewrite (Z.max_l (Z.of_nat (length s)) 0), Z.min_id by lia.
  rewrite Z.max_r, Z.min_l by lia.
  apply firstn_all2. rewrite length_skipn. lia.
Qed.

(** X1 : for every file name, getBaseName followed by getExtension gives the
    name back: the two methods cut the name at one place and lose no
    character. *)
Theorem getBaseName_getExtension (filename : string) :
  String.append (getBaseName filename) (getExtension filename) = filename.
Proof.
  unfold getBaseName, getExtension.
  pose proof (lastIndexOf_range "." (chr filename)) as Hr.
  destruct (lastIndexOf "." (chr filename) >=? 0) eqn:E.
  - apply Z.geb_le in E.
    rewrite substring_prefix, substringFrom_suffix by lia.
    rewrite <- string_of_app, firstn_skipn. apply string_of_chr.
  - clear. induction filename as [|c f IH]; [reflexivity|].
    change (String c (String.append f "") = String c f). now rewrite IH.
Qed.

(** X2 : a name without a dot has the empty extension and is its own base
    name; a name with a dot has an extension that starts with the dot and
    holds no other dot, and a base name that is a proper prefix (empty for a
    name such as .gitignore). *)
Theorem getExtension_shape (filename : string) :
  (~ In "."%char (chr filename) ->
     getExtension filename = "" /\ getBaseName filename = filename) /\
  (In "."%char (chr filename) ->
     exists e,
       chr (getExtension filename) = "."%char :: e /\ ~ In "."%char e /\
       chr filename = chr (getBaseName filename) ++ "."%char :: e).
Proof.
  unfold getBaseName, getExtension.
  pose proof (lastIndexOf_range "." (chr filename)) as Hr.
  split.
  - intros Hn. apply lastIndexOf_none in Hn. rewrite Hn. simpl. auto.
  - intros Hin.
    assert (Hpos : 0 <= lastIndexOf "." (chr filename)).
    { destruct (Z.eq_dec (lastIndexOf "." (chr filename)) (-1)) as [Hm|Hm];
        [apply lastIndexOf_none in Hm; contradiction | lia]. }
    destruct (lastIndexOf_split "." (chr filename) Hpos) as (e & H1 & H2 & H3).
    destruct (lastIndexOf "." (chr filename) >=? 0) eqn:E;
      [|rewrite Z.geb_leb in E; apply Z.leb_gt in E; lia].
    exists e. rewrite !chr_of_list.
    rewrite substring_prefix, substringFrom_suffix by lia.
    repeat split; assumption.
Qed.

Lemma getExtension_shape_witness :
  (getExtension "README" = "" /\ getBaseName "README" = "README") /\
  exists e,
    chr (getExtension "a.tar.gz") = "."%char :: e /\ ~ In "."%char e /\
    chr "a.tar.gz" = chr (getBaseName "a.tar.gz") ++ "."%char :: e.
Proof.
  split.
  - apply (proj1 (getExtension_shape "README")). simpl. intuition discriminate.
  - apply (proj2 (getExtension_shape "a.tar.gz")). simpl. tauto.
Defined.

Lemma baseName_of_dotted (b : string) (e : chars) :
  ~ In "."%char e ->
  getBaseName (String.append b (String "." (string_of_list_ascii e))) = b /\
  getExtension (String.append b (String "." (string_of_list_ascii e)))
    = String "." (string_of_list_ascii e).
Proof.
  intros He. unfold getBaseName, getExtension.
  rewrite chr_append. simpl chr. unfold chr at 2 4 6 8.
  fold (chr (string_of_list_ascii e)). rewrite chr_of_list.
  rewrite lastIndexOf_app by assumption.
  destruct (Z.of_nat (length (chr b)) >=? 0) eqn:E;
    [|rewrite Z.geb_leb in E; apply Z.leb_gt in E; lia].
  rewrite substring_prefix, substringFrom_suffix
    by (rewrite length_app; simpl; lia).
  rewrite Nat2Z.id, firstn_app, Nat.sub_diag, firstn_all. simpl firstn.
  rewrite app_nil_r, skipn_app, Nat.sub_diag, skipn_all. simpl.
  split; [apply string_of_chr | reflexivity].
Qed.

(** X3 : the label file created for an image (its base name followed by
    .txt) has the extension .txt and the base name of the image, whatever
    dots the image name holds: a later scan pairs it with the image. *)
Theorem label_name_pairs_with_image (imageName : string) :
  getExtension (labelFileName (getBaseName imageName)) = ".txt" /\
  getBaseName (labelFileName (getBaseName imageName)) = getBaseName imageName.
Proof.
  unfold labelFileName.
  destruct (baseName_of_dotted (getBaseName imageName) (chr "txt")) as [H1 H2].
  { simpl. intuition discriminate. }
  simpl in H1, H2. split; assumption.
Qed.

(** ** LabelParser: pixel coordinates, corners and hit tests *)

Lemma two_nonzero : ~ (2 == 0)%Q.
Proof. lra. Qed.

Lemma less_finite (p q : Q) : less (Finite p) (Finite q) = true <-> (p < q)%Q.
Proof.
  simpl. destruct (Qle_bool q p) eqn:E; simpl.
  - apply Qle_bool_iff in E. split; [discriminate | lra].
  - apply Qle_bool_false_lt in E. tauto.
Qed.

Lemma less_finite_false (p q : Q) : less (Finite p) (Finite q) = false <-> (q <= p)%Q.
Proof.
  simpl. destruct (Qle_bool q p) eqn:E; simpl.
  - apply Qle_bool_iff in E. tauto.
  - apply Qle_bool_false_lt in E. split; [discriminate | lra].
Qed.

Lemma lessEq_finite (p q : Q) : lessEq (Finite p) (Finite q) = true <-> (p <= q)%Q.
Proof. simpl. apply Qle_bool_iff. Qed.

Lemma toPixelCoords_finite (i : string) (c : Z) (d sel : bool)
    (xc yc wd ht iw ih : Q) :
  toPixelCoords
    (Normalized.mkBox i c (Finite xc) (Finite yc) (Finite wd) (Finite ht) d sel)
    (Finite iw) (Finite ih)
  = Pixel.mkBox i c
      (Finite (xc * iw + - (wd * iw / 2))) (Finite (yc * ih + - (ht * ih / 2)))
      (Finite (wd * iw)) (Finite (ht * ih)) d sel.
Proof.
  unfold toPixelCoords, two. cbn [Normalized.width Normalized.height
    Normalized.xCenter Normalized.yCenter Normalized.id Normalized.classId
    Normalized.deleted Normalized.selected nmul nsub nneg].
  rewrite !ndiv_finite by exact two_nonzero. reflexivity.
Qed.

Lemma toNormalizedCoords_finite (i : string) (c : Z) (d sel : bool)
    (px py pw ph iw ih : Q) :
  ~ (iw == 0)%Q -> ~ (ih == 0)%Q ->
  toNormalizedCoords
    (Pixel.mkBox i c (Finite px) (Finite py) (Finite pw) (Finite ph) d sel)
    (Finite iw) (Finite ih)
  = Normalized.mkBox i c
      (Finite ((px + pw / 2) / iw)) (Finite ((py + ph / 2) / ih))
      (Finite (pw / iw)) (Finite (ph / ih)) d sel.
Proof.
  intros Hw Hh. unfold toNormalizedCoords, two.
  cbn [Pixel.x Pixel.y Pixel.w Pixel.h Pixel.id Pixel.classId Pixel.deleted
       Pixel.selected].
  rewrite !(ndiv_finite _ 2) by exact two_nonzero. cbn [nadd].
  rewrite !ndiv_finite by assumption. reflexivity.
Qed.

(** X4 : for an image of finite, non-zero width and height and a box with
    finite coordinates, toNormalizedCoords undoes toPixelCoords and
    toPixelCoords undoes toNormalizedCoords: id, classId, deleted and
    selected are kept and the four coordinates come back (as rationals). *)
Theorem pixel_coords_round_trip (i : string) (c : Z) (d sel : bool)
    (a b wd ht iw ih : Q) :
  ~ (iw == 0)%Q -> ~ (ih == 0)%Q ->
  (let box := Normalized.mkBox i c (Finite a) (Finite b) (Finite wd) (Finite ht) d sel in
   let back := toNormalizedCoords (toPixelCoords box (Finite iw) (Finite ih))
                 (Finite iw) (Finite ih) in
   Normalized.id back = i /\ Normalized.classId back = c /\
   Normalized.deleted back = d /\ Normalized.selected back = sel /\
   normalizedAt back a b wd ht) /\
  (let pixelBox := Pixel.mkBox i c (Finite a) (Finite b) (Finite wd) (Finite ht) d sel in
   let back := toPixelCoords (toNormalizedCoords pixelBox (Finite iw) (Finite ih))
                 (Finite iw) (Finite ih) in
   Pixel.id back = i /\ Pixel.classId back = c /\
   Pixel.deleted back = d /\ Pixel.selected back = sel /\
   pixelAt back a b wd ht).
Proof.
  intros Hw Hh. split.
  - cbv zeta. rewrite toPixelCoords_finite, toNormalizedCoords_finite by assumption.
    cbn [Normalized.id Normalized.classId Normalized.deleted Normalized.selected].
    repeat split.
    unfold normalizedAt. eexists _, _, _, _.
    cbn [Normalized.xCenter Normalized.yCenter Normalized.width Normalized.height].
    repeat split; field; assumption.
  - cbv zeta. rewrite toNormalizedCoords_finite, toPixelCoords_finite by assumption.
    cbn [Pixel.id Pixel.classId Pixel.deleted Pixel.selected].
    repeat split.
    unfold pixelAt. eexists _, _, _, _.
    cbn [Pixel.x Pixel.y Pixel.w Pixel.h].
    repeat split; field; assumption.
Qed.

Lemma pixel_coords_round_trip_witness :
  normalizedAt
    (toNormalizedCoords
       (toPixelCoords
          (Normalized.mkBox "a" 3 (Finite (1 # 2)) (Finite (1 # 4))
             (Finite (1 # 5)) (Finite (1 # 10)) false true)
          (Finite 640) (Finite 480))
       (Finite 640) (Finite 480))
    (1 # 2) (1 # 4) (1 # 5) (1 # 10).
Proof.
  assert (H1 : ~ (640 == 0)%Q) by (intros H; discriminate H).
  assert (H2 : ~ (480 == 0)%Q) by (intros H; discriminate H).
  exact (proj2 (proj2 (proj2 (proj2 (proj1
    (pixel_coords_round_trip "a" 3 false true (1 # 2) (1 # 4) (1 # 5) (1 # 10)
       640 480 H1 H2)))))).
Defined.

(** X5 : getCorners and pointInBox throw exactly when the box is in
    normalized coordinates and the image width or height is missing, zero
    or NaN; for a box in pixel coordinates they never throw, whatever the
    image size arguments, and the corners are (x, y) and (x + w, y + h). *)
Theorem getCorners_throws_iff (box : AnyBox) (imageWidth imageHeight : option Number)
    (px py : Number) :
  ((exists m, getCorners box imageWidth imageHeight = Threw m) <->
     (exists b, box = InNormalized b) /\
     (truthy imageWidth = false \/ truthy imageHeight = false)) /\
  ((exists m, pointInBox px py box imageWidth imageHeight = Threw m) <->
     (exists m, getCorners box imageWidth imageHeight = Threw m)) /\
  (forall p, box = InPixels p ->
     getCorners box imageWidth imageHeight =
       Returned (Corners.make (Pixel.x p) (Pixel.y p)
                   (nadd (Pixel.x p) (Pixel.w p)) (nadd (Pixel.y p) (Pixel.h p)))).
Proof.
  split; [|split].
  - destruct box as [p | b]; simpl.
    + split; [intros [m Hm]; discriminate | intros [[b Hb] _]; discriminate].
    + destruct imageWidth as [iw|], imageHeight as [ih|].
      * destruct (truthy (Some iw)) eqn:Ew, (truthy (Some ih)) eqn:Eh; simpl;
          (split; [intros [m Hm]; try discriminate; split; eauto
                  | intros [_ [H|H]]; try discriminate; eauto]).
      * split; [intros _; split; eauto | intros _; eauto].
      * split; [intros _; split; eauto | intros _; eauto].
      * split; [intros _; split; eauto | intros _; eauto].
  - unfold pointInBox.
    destruct (getCorners box imageWidth imageHeight) as [cs | m].
    + split; intros [m Hm]; discriminate.
    + split; intros _; eauto.
  - intros p ->. reflexivity.
Qed.

Lemma getCorners_throws_iff_witness :
  (exists m,
     getCorners
       (InNormalized (Normalized.mkBox "a" 0 (Finite (1 # 2)) (Finite (1 # 2))
                        (Finite (1 # 5)) (Finite (1 # 5)) false false))
       (Some (Finite 640)) (Some (Finite 0)) = Threw m).
Proof.
  apply (proj2 (proj1 (getCorners_throws_iff
    (InNormalized (Normalized.mkBox "a" 0 (Finite (1 # 2)) (Finite (1 # 2))
                     (Finite (1 # 5)) (Finite (1 # 5)) false false))
    (Some (Finite 640)) (Some (Finite 0)) zero zero))).
  split; [eexists; reflexivity | right; reflexivity].
Defined.

Lemma pointInBox_pixels (px py x y w h : Q) (i : string) (c : Z) (d sel : bool)
    (iw ih : option Number) :
  pointInBox (Finite px) (Finite py)
    (InPixels (Pixel.mkBox i c (Finite x) (Finite y) (Finite w) (Finite h) d sel))
    iw ih = Returned true <->
  inClosedRect px py x y w h.
Proof.
  unfold pointInBox, getCorners, inClosedRect, greaterEq.
  cbn [Pixel.x Pixel.y Pixel.w Pixel.h nadd Corners.x1 Corners.x2 Corners.y1
       Corners.y2].
  split.
  - intros H. injection H as H.
    apply andb_true_iff in H as [H H4]. apply andb_true_iff in H as [H H3].
    apply andb_true_iff in H as [H1 H2].
    apply lessEq_finite in H1, H2, H3, H4. tauto.
  - intros (H1 & H2 & H3 & H4). f_equal.
    rewrite !andb_true_iff. repeat split; apply lessEq_finite; assumption.
Qed.

Lemma rectsIntersect_finite (ax ay aw ah bx by' bw bh : Q) :
  rectsIntersect (XYWH (Finite ax) (Finite ay) (Finite aw) (Finite ah))
                 (XYWH (Finite bx) (Finite by') (Finite bw) (Finite bh)) = true <->
  (bx <= ax + aw)%Q /\ (ax <= bx + bw)%Q /\ (by' <= ay + ah)%Q /\ (ay <= by' + bh)%Q.
Proof.
  unfold rectsIntersect, normalizeRect.
  cbn [nadd Corners.x1 Corners.x2 Corners.y1 Corners.y2].
  rewrite negb_true_iff, !orb_false_iff, !less_finite_false. tauto.
Qed.

(** X6 : for two rectangles with finite coordinates and non-negative width
    and height, rectsIntersect answers true exactly when some point lies in
    both according to pointInBox; edges count, so rectangles that only touch
    intersect.  The test is symmetric in its two arguments for all
    rectangles. *)
Theorem rectsIntersect_iff_common_point
    (ia ib : string) (ca cb : Z) (da sa db sb : bool)
    (ax ay aw ah bx by' bw bh : Q) :
  (0 <= aw)%Q -> (0 <= ah)%Q -> (0 <= bw)%Q -> (0 <= bh)%Q ->
  (rectsIntersect (XYWH (Finite ax) (Finite ay) (Finite aw) (Finite ah))
                  (XYWH (Finite bx) (Finite by') (Finite bw) (Finite bh)) = true <->
   exists px py,
     pointInBox (Finite px) (Finite py)
       (InPixels (Pixel.mkBox ia ca (Finite ax) (Finite ay) (Finite aw) (Finite ah) da sa))
       None None = Returned true /\
     pointInBox (Finite px) (Finite py)
       (InPixels (Pixel.mkBox ib cb (Finite bx) (Finite by') (Finite bw) (Finite bh) db sb))
       None None = Returned true) /\
  (forall r1 r2, rectsIntersect r1 r2 = rectsIntersect r2 r1).
Proof.
  intros Haw Hah Hbw Hbh. split.
  - rewrite rectsIntersect_finite. split.
    + intros (H1 & H2 & H3 & H4).
      exists (if Qlt_le_dec ax bx then bx else ax),
             (if Qlt_le_dec ay by' then by' else ay).
      rewrite !pointInBox_pixels. unfold inClosedRect.
      destruct (Qlt_le_dec ax bx), (Qlt_le_dec ay by'); repeat split; lra.
    + intros (px & py & Ha & Hb).
      apply pointInBox_pixels in Ha, Hb. unfold inClosedRect in *. lra.
  - intros r1 r2. unfold rectsIntersect. f_equal.
    destruct (less (Corners.x2 (normalizeRect r1)) (Corners.x1 (normalizeRect r2))),
             (less (Corners.x2 (normalizeRect r2)) (Corners.x1 (normalizeRect r1))),
             (less (Corners.y2 (normalizeRect r1)) (Corners.y1 (normalizeRect r2))),
             (less (Corners.y2 (normalizeRect r2)) (Corners.y1 (normalizeRect r1)));
      reflexivity.
Qed.

Lemma rectsIntersect_iff_common_point_witness :
  rectsIntersect (XYWH (Finite 0) (Finite 0) (Finite 10) (Finite 10))
                 (XYWH (Finite 10) (Finite 10) (Finite 5) (Finite 5)) = true.
Proof.
  assert (H0 : (0 <= 10)%Q) by (intros H; discriminate H).
  assert (H5 : (0 <= 5)%Q) by (intros H; discriminate H).
  apply (proj2 (proj1 (rectsIntersect_iff_common_point "a" "b" 0 0
    false false false false 0 0 10 10 10 10 5 5 H0 H0 H5 H5))).
  exists 10%Q, 10%Q. split; reflexivity.
Defined.

(** ** main.js: zoom, navigation, hit testing and rubber-band selection *)

Lemma clamp_finite (q lo hi : Q) :
  (lo <= hi)%Q ->
  exists r, clamp (Finite q) (Finite lo) (Finite hi) = Finite r /\
    ((q < lo)%Q -> r = lo) /\
    ((lo <= q)%Q -> (q < hi)%Q -> r = q) /\
    ((hi <= q)%Q -> r = hi).
Proof.
  intros Hlh. unfold clamp, nmin, nmax. cbn [lessEq].
  destruct (Qle_bool hi q) eqn:E1.
  - apply Qle_bool_iff in E1.
    destruct (Qle_bool lo hi) eqn:E2.
    + exists hi. repeat split; intros; try reflexivity; lra.
    + apply Qle_bool_false_lt in E2. lra.
  - apply Qle_bool_false_lt in E1.
    destruct (Qle_bool lo q) eqn:E2.
    + apply Qle_bool_iff in E2. exists q. repeat split; intros; try reflexivity; lra.
    + apply Qle_bool_false_lt in E2. exists lo.
      repeat split; intros; try reflexivity; lra.
Qed.

Lemma clamp_infinite (neg : bool) (lo hi : Q) :
  (lo <= hi)%Q ->
  clamp (Infinity neg) (Finite lo) (Finite hi) = Finite (if neg then lo else hi).
Proof.
  intros Hlh. unfold clamp, nmin, nmax. destruct neg; cbn [lessEq].
  - reflexivity.
  - destruct (Qle_bool lo hi) eqn:E; [reflexivity|].
    apply Qle_bool_false_lt in E. lra.
Qed.

(** [clamp(value, min, max)] with finite [min <= max]: NaN for NaN, and
    otherwise a finite number between the bounds, the value itself when it
    lies between them. *)
Lemma clamp_bounds (value : Number) (lo hi : Q) :
  (lo <= hi)%Q ->
  (value = NaN -> clamp value (Finite lo) (Finite hi) = NaN) /\
  (value <> NaN ->
     exists r, clamp value (Finite lo) (Finite hi) = Finite r /\
       (lo <= r)%Q /\ (r <= hi)%Q /\
       (forall q, value = Finite q -> (lo <= q)%Q -> (q <= hi)%Q -> (r == q)%Q)).
Proof.
  intros Hlh. split.
  - intros ->. reflexivity.
  - intros Hn. destruct value as [|neg|q]; [congruence| |].
    + rewrite clamp_infinite by exact Hlh. eexists. split; [reflexivity|].
      destruct neg; repeat split; try lra; intros q Hq; discriminate Hq.
    + destruct (clamp_finite q lo hi Hlh) as (r & Hr & H1 & H2 & H3).
      exists r. split; [exact Hr|].
      destruct (Qlt_le_dec q lo) as [Hq|Hq].
      { rewrite (H1 Hq). repeat split; try lra. intros q' Hq' ? ?.
        injection Hq' as <-. lra. }
      destruct (Qlt_le_dec q hi) as [Hq'|Hq'].
      { rewrite (H2 Hq Hq'). repeat split; try lra. intros q' Hq'' ? ?.
        injection Hq'' as <-. reflexivity. }
      rewrite (H3 Hq'). repeat split; try lra. intros q' Hq'' ? ?.
      injection Hq'' as <-. lra.
Qed.

Lemma zoom_clamped (x : Number) :
  x <> NaN ->
  exists z', clamp x minZoom maxZoom = Finite z' /\ inZoomRange z'.
Proof.
  intros Hx.
  assert (H : (5 # 100 <= 20)%Q) by (intros H; discriminate H).
  destruct (proj2 (clamp_bounds x (5 # 100) 20 H) Hx)
    as (r & Hr & H1 & H2 & _).
  exists r. split; [exact Hr | split; assumption].
Qed.

Lemma draw_keeps (page : Page) (v : View) :
  currentBitmap (draw page v) = currentBitmap v /\
  currentImageWidth (draw page v) = currentImageWidth v /\
  currentImageHeight (draw page v) = currentImageHeight v /\
  zoom (draw page v) = zoom v.
Proof.
  unfold draw, resizeCanvasToContainer.
  destruct (notSame _ _ || notSame _ _); repeat split.
Qed.

Lemma zoomStep_in_range (ci count : Z) (o : ZoomOp * Page) (v : View) (z : Q) :
  zoom v = Finite z -> inZoomRange z ->
  (exists z', zoom (zoomStep ci count v o) = Finite z' /\ inZoomRange z') /\
  currentBitmap (zoomStep ci count v o) = currentBitmap v /\
  currentImageWidth (zoomStep ci count v o) = currentImageWidth v /\
  currentImageHeight (zoomStep ci count v o) = currentImageHeight v /\
  (ci < 0 \/ count <= ci -> zoomStep ci count v o = v).
Proof.
  intros Hz Hr. destruct o as [o page].
  assert (Hsel : hasImageSelected ci count = true -> ~ (ci < 0 \/ count <= ci)).
  { unfold hasImageSelected. intros H. apply andb_true_iff in H.
    destruct H as [H1 H2]. rewrite Z.geb_leb in H1.
    apply Z.leb_le in H1. apply Z.ltb_lt in H2. lia. }
  destruct o; unfold zoomStep, zoomIn, zoomOut, zoomFit; cbn [fst snd];
    destruct (hasImageSelected ci count); cbn [negb];
    try specialize (Hsel eq_refl);
    try (split; [exists z; split; assumption | repeat split]);
    (destruct (draw_keeps page
       (setZoom (clamp (nmul (zoom v) zoomFactor) minZoom maxZoom) v))
       as (D1 & D2 & D3 & D4) ||
     idtac);
    (destruct (draw_keeps page
       (setZoom (clamp (ndiv (zoom v) zoomFactor) minZoom maxZoom) v))
       as (E1 & E2 & E3 & E4) ||
     idtac);
    (destruct (draw_keeps page (setZoom one v)) as (F1 & F2 & F3 & F4) || idtac).
  - rewrite D1, D2, D3, D4. cbn [setZoom zoom currentBitmap currentImageWidth
      currentImageHeight].
    split; [|repeat split; tauto].
    apply zoom_clamped. rewrite Hz. discriminate.
  - rewrite E1, E2, E3, E4. cbn [setZoom zoom currentBitmap currentImageWidth
      currentImageHeight].
    split; [|repeat split; tauto].
    apply zoom_clamped. rewrite Hz. unfold zoomFactor.
    rewrite ndiv_finite by (intros H; discriminate H). discriminate.
  - rewrite F1, F2, F3, F4. cbn [setZoom zoom currentBitmap currentImageWidth
      currentImageHeight].
    split; [|repeat split; tauto].
    exists 1%Q. split; [reflexivity|]. split; intros H; discriminate H.
Qed.

(** X7 : starting from a zoom between 0.05 and 20 (the initial zoom is 1),
    every sequence of zoomIn, zoomOut and zoomFit, whatever size the page
    gives the canvas at each redraw, leaves the zoom a finite number
    between 0.05 and 20 and leaves the bitmap and the image size as they
    were; when no image is selected the calls change nothing in the
    view. *)
Theorem zoom_stays_in_range (currentIndex count : Z)
    (ops : list (ZoomOp * Page)) (v : View) (z : Q) :
  zoom v = Finite z -> inZoomRange z ->
  let v' := fold_left (zoomStep currentIndex count) ops v in
  (exists z', zoom v' = Finite z' /\ inZoomRange z') /\
  currentBitmap v' = currentBitmap v /\
  currentImageWidth v' = currentImageWidth v /\
  currentImageHeight v' = currentImageHeight v /\
  (currentIndex < 0 \/ count <= currentIndex -> v' = v).
Proof.
  revert v z. induction ops as [|o ops IH]; intros v z Hz Hr.
  - simpl. split; [exists z; split; assumption | repeat split].
  - cbn [fold_left].
    destruct (zoomStep_in_range currentIndex count o v z Hz Hr)
      as ((z1 & Hz1 & Hr1) & E1 & E2 & E3 & E4).
    destruct (IH _ z1 Hz1 Hr1) as (Hx & F1 & F2 & F3 & F4).
    cbv zeta. split; [exact Hx|].
    rewrite F1, F2, F3. split; [exact E1|]. split; [exact E2|].
    split; [exact E3|]. intros Hn. rewrite (F4 Hn). exact (E4 Hn).
Qed.

Lemma zoom_stays_in_range_witness :
  (exists z',
     zoom (fold_left (zoomStep 0 1)
             [(ZoomIn, mkPage (Some (Finite 2)) (Finite 400) (Finite 300));
              (ZoomIn, mkPage (Some (Finite 2)) (Finite 400) (Finite 300));
              (ZoomOut, mkPage None (Finite (1001 # 2)) (Finite 300));
              (ZoomFit, mkPage (Some (Finite 0)) (Finite 0) (Finite 300));
              (ZoomOut, mkPage (Some (Finite 2)) (Finite 400) (Finite 300))]
             (mkView true (Finite 640) (Finite 480) (Finite 1) (Finite 800)
                (Finite 600))) = Finite z' /\ inZoomRange z') /\
  zoomStep 0 1
    (mkView true (Finite 640) (Finite 480) (Finite 1) (Finite 800) (Finite 600))
    (ZoomIn, mkPage None (Finite (1001 # 2)) (Finite 300))
  = mkView true (Finite 640) (Finite 480) (Finite (125 # 100)) (Finite 500)
      (Finite 300) /\
  zoomStep 1 1
    (mkView true (Finite 640) (Finite 480) (Finite 1) (Finite 800) (Finite 600))
    (ZoomIn, mkPage None (Finite (1001 # 2)) (Finite 300))
  = mkView true (Finite 640) (Finite 480) (Finite 1) (Finite 800) (Finite 600).
Proof.
  assert (H : inZoomRange 1) by (split; intros H; discriminate H).
  split; [|split; vm_compute; reflexivity].
  exact (proj1 (zoom_stays_in_range 0 1
    [(ZoomIn, mkPage (Some (Finite 2)) (Finite 400) (Finite 300));
     (ZoomIn, mkPage (Some (Finite 2)) (Finite 400) (Finite 300));
     (ZoomOut, mkPage None (Finite (1001 # 2)) (Finite 300));
     (ZoomFit, mkPage (Some (Finite 0)) (Finite 0) (Finite 300));
     (ZoomOut, mkPage (Some (Finite 2)) (Finite 400) (Finite 300))]
    (mkView true (Finite 640) (Finite 480) (Finite 1) (Finite 800) (Finite 600))
    1 eq_refl H)).
Defined.



Lemma boxUnderPointFrom_some v px py boxes n b :
  boxUnderPointFrom v px py boxes n = Some b ->
  exists i, (i < n)%nat /\ boxes !! i = Some b /\ deleted b = false /\
    underPoint v px py b = true /\
    forall j b', (i < j < n)%nat -> boxes !! j = Some b' ->
      deleted b' = true \/ underPoint v px py b' = false.
Proof.
  induction n as [|i IH]; simpl; [discriminate|].
  assert (Hrec : boxUnderPointFrom v px py boxes i = Some b ->
    (forall b', boxes !! i = Some b' ->
       deleted b' = true \/ underPoint v px py b' = false) ->
    exists k, (k < S i)%nat /\ boxes !! k = Some b /\ deleted b = false /\
      underPoint v px py b = true /\
      forall j b', (k < j < S i)%nat -> boxes !! j = Some b' ->
        deleted b' = true \/ underPoint v px py b' = false).
  { intros H Hi. destruct (IH H) as (k & Hk & Hb & Hd & Hu & Hrest).
    exists k. repeat split; try assumption; [lia|].
    intros j b' Hj Hb'. destruct (Nat.eq_dec j i) as [->|Hne].
    - apply Hi. exact Hb'.
    - apply (Hrest j b'); [lia | exact Hb']. }
  destruct (boxes !! i) as [bi|] eqn:Ei.
  - destruct (deleted bi) eqn:Ed.
    + intros H. apply Hrec; [exact H|]. intros b' Hb'. injection Hb' as <-. auto.
    + destruct (underPoint v px py bi) eqn:Eu.
      * intros H. injection H as <-. exists i.
        repeat split; try assumption; [lia|]. intros j b' Hj. lia.
      * intros H. apply Hrec; [exact H|]. intros b' Hb'. injection Hb' as <-. auto.
  - intros H. apply Hrec; [exact H|]. intros b' Hb'. discriminate.
Qed.

Lemma boxUnderPointFrom_none v px py boxes n :
  boxUnderPointFrom v px py boxes n = None <->
  forall j b', (j < n)%nat -> boxes !! j = Some b' ->
    deleted b' = true \/ underPoint v px py b' = false.
Proof.
  induction n as [|i IH]; simpl.
  - split; [intros _ j b' Hj; lia | reflexivity].
  - assert (Hstep : (forall b', boxes !! i = Some b' ->
       deleted b' = true \/ underPoint v px py b' = false) ->
      (boxUnderPointFrom v px py boxes i = None <->
       forall j b', (j < S i)%nat -> boxes !! j = Some b' ->
         deleted b' = true \/ underPoint v px py b' = false)).
    { intros Hi. rewrite IH. split.
      - intros H j b' Hj Hb'. destruct (Nat.eq_dec j i) as [->|Hne];
          [apply Hi; exact Hb' | apply (H j b'); [lia | exact Hb']].
      - intros H j b' Hj Hb'. apply (H j b'); [lia | exact Hb']. }
    destruct (boxes !! i) as [bi|] eqn:Ei.
    + destruct (deleted bi) eqn:Ed.
      * apply Hstep. intros b' Hb'. injection Hb' as <-. auto.
      * destruct (underPoint v px py bi) eqn:Eu.
        -- split; [discriminate|]. intros H.
           destruct (H i bi) as [H1|H1]; [lia | exact Ei | congruence | congruence].
        -- apply Hstep. intros b' Hb'. injection Hb' as <-. auto.
    + apply Hstep. intros b' Hb'. discriminate.
Qed.

(** X9 : getBoxUnderPoint returns the box drawn last among the boxes of
    the current image that are not deleted and contain the point (edges
    included); it never returns a deleted box, and it returns null exactly
    when no such box exists.  Its inline test is the one pointInBox makes
    on the normalized box, given image dimensions other than 0 and NaN. *)
Theorem getBoxUnderPoint_topmost (v : View) (s : StateManager) (px py : Number) :
  (forall b, getBoxUnderPoint v s px py = Some b ->
     exists i, getCurrentBoxes s !! i = Some b /\ deleted b = false /\
       underPoint v px py b = true /\
       forall j b', (i < j)%nat -> getCurrentBoxes s !! j = Some b' ->
         deleted b' = true \/ underPoint v px py b' = false) /\
  (getBoxUnderPoint v s px py = None <->
     forall b, In b (getCurrentBoxes s) ->
       deleted b = true \/ underPoint v px py b = false) /\
  (forall b,
     truthy (Some (currentImageWidth v)) = true ->
     truthy (Some (currentImageHeight v)) = true ->
     pointInBox px py (InNormalized (ofBox b))
       (Some (currentImageWidth v)) (Some (currentImageHeight v))
     = Returned (underPoint v px py b)).
Proof.
  unfold getBoxUnderPoint. split; [|split].
  - intros b H. destruct (boxUnderPointFrom_some _ _ _ _ _ _ H)
      as (i & Hi & Hb & Hd & Hu & Hrest).
    exists i. repeat split; try assumption.
    intros j b' Hj Hb'. apply (Hrest j b'); [|exact Hb'].
    split; [exact Hj|]. apply lookup_lt_Some in Hb'. exact Hb'.
  - rewrite boxUnderPointFrom_none. split.
    + intros H b Hin. apply list_elem_of_In, list_elem_of_lookup in Hin.
      destruct Hin as [j Hj]. apply (H j b); [|exact Hj].
      apply lookup_lt_Some in Hj. exact Hj.
    + intros H j b' _ Hb'. apply H.
      apply list_elem_of_In, list_elem_of_lookup. eauto.
  - intros b Hw Hh. unfold pointInBox, getCorners. rewrite Hw, Hh.
    reflexivity.
Qed.

Lemma getBoxUnderPoint_topmost_witness :
  exists i, getCurrentBoxes openedSession !! i = Some boxA /\
    deleted boxA = false /\
    underPoint
      (mkView true (Finite 100) (Finite 100) (Finite 1) (Finite 100) (Finite 100))
      (Finite 50) (Finite 50) boxA = true /\
    forall j b', (i < j)%nat -> getCurrentBoxes openedSession !! j = Some b' ->
      deleted b' = true \/
      underPoint
        (mkView true (Finite 100) (Finite 100) (Finite 1) (Finite 100) (Finite 100))
        (Finite 50) (Finite 50) b' = false.
Proof.
  apply (proj1 (getBoxUnderPoint_topmost
    (mkView true (Finite 100) (Finite 100) (Finite 1) (Finite 100) (Finite 100))
    openedSession (Finite 50) (Finite 50)) boxA).
  vm_compute. reflexivity.
Defined.

(** ** StateManager: frames of the calls *)

Lemma withBoxes_none f s : currentState s = None -> withBoxes f s = s.
Proof. intros H. unfold withBoxes. now rewrite H. Qed.

Lemma setState_other st s j :
  j <> currentIndex s -> imageStates (setState st s) !! j = imageStates s !! j.
Proof. intros H. unfold setState; simpl. apply lookup_insert_ne. congruence. Qed.

Lemma withBoxes_other f s j :
  j <> currentIndex s -> imageStates (withBoxes f s) !! j = imageStates s !! j.
Proof.
  intros H. unfold withBoxes. destruct (currentState s); [|reflexivity].
  apply setState_other, H.
Qed.

Lemma withBoxes_index f s : currentIndex (withBoxes f s) = currentIndex s.
Proof. unfold withBoxes. destruct (currentState s); reflexivity. Qed.

Lemma withBoxes_modified f s : globalModified (withBoxes f s) = globalModified s.
Proof. unfold withBoxes. destruct (currentState s); reflexivity. Qed.

Lemma recordAction_other type bs now s j :
  j <> currentIndex s ->
  imageStates (recordAction type bs now s) !! j = imageStates s !! j.
Proof.
  intros H. unfold recordAction. destruct (currentState s); [|reflexivity].
  apply setState_other, H.
Qed.

Lemma recordAction_index type bs now s :
  currentIndex (recordAction type bs now s) = currentIndex s.
Proof. unfold recordAction. destruct (currentState s); reflexivity. Qed.

Lemma recordAction_modified type bs now s :
  globalModified (recordAction type bs now s) = globalModified s.
Proof. unfold recordAction. destruct (currentState s); reflexivity. Qed.

Lemma updateModifiedState_states s :
  imageStates (updateModifiedState s) = imageStates s.
Proof. unfold updateModifiedState. destruct (currentState s); reflexivity. Qed.

Lemma updateModifiedState_index s :
  currentIndex (updateModifiedState s) = currentIndex s.
Proof. unfold updateModifiedState. destruct (currentState s); reflexivity. Qed.

Lemma updateModifiedState_other s j :
  j <> currentIndex s ->
  (j ∈ globalModified (updateModifiedState s) <-> j ∈ globalModified s).
Proof.
  intros H. unfold updateModifiedState. destruct (currentState s); [|tauto].
  simpl. destruct (hasChanges _).
  - rewrite elem_of_union, elem_of_singleton. tauto.
  - rewrite elem_of_difference, elem_of_singleton. tauto.
Qed.

Lemma setState_index st s : currentIndex (setState st s) = currentIndex s.
Proof. reflexivity. Qed.

Lemma undo_other s j :
  j <> currentIndex s ->
  imageStates (snd (undo s)) !! j = imageStates s !! j /\
  (j ∈ globalModified (snd (undo s)) <-> j ∈ globalModified s).
Proof.
  intros H. unfold undo. destruct (currentState s) as [st|]; [|simpl; tauto].
  destruct (pop (undoStack st)) as [[a r]|]; [|simpl; tauto].
  cbn [snd]. rewrite updateModifiedState_states. split.
  - apply setState_other, H.
  - apply (updateModifiedState_other (setState _ s)). exact H.
Qed.

Lemma redo_other s j :
  j <> currentIndex s ->
  imageStates (snd (redo s)) !! j = imageStates s !! j /\
  (j ∈ globalModified (snd (redo s)) <-> j ∈ globalModified s).
Proof.
  intros H. unfold redo. destruct (currentState s) as [st|]; [|simpl; tauto].
  destruct (pop (redoStack st)) as [[a r]|]; [|simpl; tauto].
  cbn [snd]. rewrite updateModifiedState_states. split.
  - apply setState_other, H.
  - apply (updateModifiedState_other (setState _ s)). exact H.
Qed.

Lemma deleteSelected_other now s j :
  j <> currentIndex s ->
  imageStates (snd (deleteSelected now s)) !! j = imageStates s !! j /\
  (j ∈ globalModified (snd (deleteSelected now s)) <-> j ∈ globalModified s).
Proof.
  intros H. unfold deleteSelected.
  destruct (currentState s) as [st|]; [|simpl; tauto].
  destruct (List.filter _ (boxes st)); [simpl; tauto|].
  cbn [snd markModified imageStates globalModified]. split.
  - rewrite withBoxes_other by (rewrite recordAction_index; exact H).
    apply recordAction_other, H.
  - rewrite withBoxes_index, recordAction_index, withBoxes_modified,
      recordAction_modified, elem_of_union, elem_of_singleton. tauto.
Qed.

Lemma restoreDeleted_other only now s j :
  j <> currentIndex s ->
  imageStates (snd (restoreDeleted only now s)) !! j = imageStates s !! j /\
  (j ∈ globalModified (snd (restoreDeleted only now s)) <-> j ∈ globalModified s).
Proof.
  intros H. unfold restoreDeleted.
  destruct (currentState s) as [st|]; [|simpl; tauto].
  destruct (List.filter _ (boxes st)); [simpl; tauto|].
  cbn [snd markModified imageStates globalModified]. split.
  - rewrite withBoxes_other by (rewrite recordAction_index; exact H).
    apply recordAction_other, H.
  - rewrite withBoxes_index, recordAction_index, withBoxes_modified,
      recordAction_modified, elem_of_union, elem_of_singleton. tauto.
Qed.

Lemma markSaved_other s j :
  j <> currentIndex s ->
  imageStates (markSaved s) !! j = imageStates s !! j /\
  (j ∈ globalModified (markSaved s) <-> j ∈ globalModified s).
Proof.
  intros H. unfold markSaved. destruct (currentState s) as [st|]; [|tauto].
  cbn [imageStates globalModified currentIndex setState]. split.
  - apply lookup_insert_ne. congruence.
  - rewrite elem_of_difference, elem_of_singleton. tauto.
Qed.

(** X10 : a call of the session works on one image, the one it names or
    the current one: apart from clearAll, no call changes the state of any
    other image (its boxes, its snapshot, its undo and redo stacks) or
    whether another image counts as modified. *)
Theorem other_images_untouched (s : StateManager) (o : Op) (j : Z) :
  isClearAll o = false -> j <> target s o ->
  imageStates (step s o) !! j = imageStates s !! j /\
  (j ∈ globalModified (step s o) <-> j ∈ globalModified s).
Proof.
  intros Hc Hj. destruct o; cbn [step target] in *; try discriminate Hc.
  - unfold initImageState; cbn [imageStates globalModified].
    destruct (imageStates s !! index); [tauto|].
    split; [apply lookup_insert_ne; congruence | tauto].
  - cbn. tauto.
  - unfold setCurrentBoxes. destruct (currentState s); [|tauto].
    split; [apply setState_other, Hj | reflexivity].
  - rewrite recordAction_modified. split; [apply recordAction_other, Hj | tauto].
  - apply undo_other, Hj.
  - apply redo_other, Hj.
  - apply deleteSelected_other, Hj.
  - apply restoreDeleted_other, Hj.
  - unfold selectAll. rewrite withBoxes_modified.
    split; [apply withBoxes_other, Hj | tauto].
  - unfold clearSelection. rewrite withBoxes_modified.
    split; [apply withBoxes_other, Hj | tauto].
  - unfold toggleBoxSelection. rewrite withBoxes_modified.
    split; [apply withBoxes_other, Hj | tauto].
  - unfold selectBox, clearSelection. rewrite !withBoxes_modified.
    split; [|tauto].
    rewrite withBoxes_other by (rewrite withBoxes_index; exact Hj).
    apply withBoxes_other, Hj.
  - cbn. rewrite elem_of_union, elem_of_singleton. tauto.
  - rewrite updateModifiedState_states.
    split; [reflexivity | apply updateModifiedState_other, Hj].
  - apply markSaved_other, Hj.
  - unfold markSavedAt. cbn [setCurrentIndex imageStates globalModified].
    apply (markSaved_other (setCurrentIndex index s)). exact Hj.
  - cbn. rewrite elem_of_difference, elem_of_singleton.
    split; [apply lookup_delete_ne; congruence | tauto].
  - unfold resetCurrent. destruct (currentState s); [|tauto].
    cbn [imageStates globalModified currentIndex setState]. split.
    + apply lookup_insert_ne. congruence.
    + rewrite elem_of_difference, elem_of_singleton. tauto.
Qed.

Lemma other_images_untouched_witness :
  imageStates (step (initImageState 1 [boxB] (initImageState 0 [boxA] newStateManager))
                 (OpMarkSavedAt 0)) !! 1
  = imageStates (initImageState 1 [boxB] (initImageState 0 [boxA] newStateManager)) !! 1.
Proof.
  apply (other_images_untouched
           (initImageState 1 [boxB] (initImageState 0 [boxA] newStateManager))
           (OpMarkSavedAt 0) 1); [reflexivity | simpl; lia].
Defined.

(** ** StateManager: the snapshot and resetCurrent *)

Lemma withBoxes_snapshot f s st :
  currentState s = Some st ->
  currentIndex (withBoxes f s) = currentIndex s /\
  exists st', currentState (withBoxes f s) = Some st' /\
              originalBoxes st' = originalBoxes st.
Proof.
  intros H. split; [apply withBoxes_index|].
  rewrite (withBoxes_state _ _ _ H). eauto.
Qed.

Lemma recordAction_snapshot type bs now s st :
  currentState s = Some st ->
  currentIndex (recordAction type bs now s) = currentIndex s /\
  exists st', currentState (recordAction type bs now s) = Some st' /\
              originalBoxes st' = originalBoxes st.
Proof.
  intros H. split; [apply recordAction_index|].
  rewrite (recordAction_state _ _ _ _ _ H). eauto.
Qed.

Lemma edit_keeps_snapshot s o st :
  isEditOp o = true -> currentState s = Some st ->
  currentIndex (step s o) = currentIndex s /\
  exists st', currentState (step s o) = Some st' /\
              originalBoxes st' = originalBoxes st.
Proof.
  intros He Hs. destruct o; try discriminate He; cbn [step].
  - unfold setCurrentBoxes. rewrite Hs. split; [reflexivity|].
    rewrite currentState_setState. eauto.
  - apply recordAction_snapshot, Hs.
  - unfold undo. rewrite Hs.
    destruct (pop (undoStack st)) as [[a r]|]; cbn [snd]; [|eauto].
    rewrite updateModifiedState_index, currentState_updateModifiedState,
      currentState_setState. eauto.
  - unfold redo. rewrite Hs.
    destruct (pop (redoStack st)) as [[a r]|]; cbn [snd]; [|eauto].
    rewrite updateModifiedState_index, currentState_updateModifiedState,
      currentState_setState. eauto.
  - unfold deleteSelected. rewrite Hs.
    destruct (List.filter _ (boxes st)) as [|x l]; cbn [snd]; [eauto|].
    rewrite currentState_markModified.
    destruct (recordAction_snapshot "delete" (x :: l) now s st Hs)
      as (Hi & st1 & H1 & Ho1).
    destruct (withBoxes_snapshot (mutateWhere isSelectedLive (setFlags true)) _ _ H1)
      as (Hi2 & st2 & H2 & Ho2).
    split; [cbn [markModified currentIndex]; congruence|].
    exists st2. split; [exact H2 | congruence].
  - unfold restoreDeleted. rewrite Hs.
    destruct (List.filter _ (boxes st)) as [|x l]; cbn [snd]; [eauto|].
    rewrite currentState_markModified.
    destruct (recordAction_snapshot "restore" (x :: l) now s st Hs)
      as (Hi & st1 & H1 & Ho1).
    destruct (withBoxes_snapshot
                (mutateWhere (restoreFilter onlySelected) (setFlags false)) _ _ H1)
      as (Hi2 & st2 & H2 & Ho2).
    split; [cbn [markModified currentIndex]; congruence|].
    exists st2. split; [exact H2 | congruence].
  - apply withBoxes_snapshot, Hs.
  - apply withBoxes_snapshot, Hs.
  - apply withBoxes_snapshot, Hs.
  - unfold selectBox.
    destruct (withBoxes_snapshot (map (setSelected false)) s st Hs)
      as (Hi & st1 & H1 & Ho1).
    fold (clearSelection s) in *.
    destruct (withBoxes_snapshot
      (updateFound boxId (fun b => if deleted b then b else setSelected true b))
      _ _ H1) as (Hi2 & st2 & H2 & Ho2).
    split; [congruence|]. exists st2. split; [exact H2 | congruence].
  - rewrite currentState_markModified. split; [reflexivity | eauto].
  - rewrite updateModifiedState_index, currentState_updateModifiedState. eauto.
Qed.

Lemma edits_keep_snapshot ops s st :
  forallb isEditOp ops = true -> currentState s = Some st ->
  currentIndex (run ops s) = currentIndex s /\
  exists st', currentState (run ops s) = Some st' /\
              originalBoxes st' = originalBoxes st.
Proof.
  revert s st. induction ops as [|o ops IH]; intros s st He Hs.
  - simpl. eauto.
  - cbn [forallb] in He. apply andb_true_iff in He as [Ho He].
    destruct (edit_keeps_snapshot s o st Ho Hs) as (Hi & st1 & H1 & Ho1).
    destruct (IH (step s o) st1 He H1) as (Hi2 & st2 & H2 & Ho2).
    change (run (o :: ops) s) with (run ops (step s o)).
    split; [congruence|]. exists st2. split; [exact H2 | congruence].
Qed.

(** X11 : the snapshot of an image (originalBoxes) is not touched by any
    editing call (selection, delete, restore, undo, redo, setCurrentBoxes,
    recordAction, markModified, updateModifiedState); so after any sequence
    of such calls resetCurrent brings back exactly the boxes of the
    snapshot, empties both stacks and clears the modified mark of the
    image. *)
Theorem resetCurrent_discards_edits (s : StateManager) (st : ImageState)
    (ops : list Op) :
  currentState s = Some st -> forallb isEditOp ops = true ->
  let s' := resetCurrent (run ops s) in
  currentIndex s' = currentIndex s /\
  getCurrentBoxes s' = originalBoxes st /\
  isCurrentModified s' = false /\
  canUndo s' = false /\ canRedo s' = false.
Proof.
  intros Hs He.
  destruct (edits_keep_snapshot ops s st He Hs) as (Hi & st1 & H1 & Ho1).
  cbv zeta. unfold resetCurrent. rewrite H1.
  unfold getCurrentBoxes, isCurrentModified, canUndo, canRedo, currentState.
  cbn [currentIndex imageStates globalModified setState].
  rewrite lookup_insert_eq. cbn [boxes undoStack redoStack length].
  rewrite cloneBoxes_same.
  repeat split; try assumption.
  apply bool_decide_eq_false. rewrite elem_of_difference, elem_of_singleton.
  tauto.
Qed.

Lemma resetCurrent_discards_edits_witness :
  getCurrentBoxes
    (resetCurrent
       (run [OpSelectAll; OpDeleteSelected 7; OpUndo; OpRedo]
          (initImageState 0 [boxA; boxB] newStateManager)))
  = [boxA; boxB].
Proof.
  exact (proj1 (proj2 (resetCurrent_discards_edits
    (initImageState 0 [boxA; boxB] newStateManager)
    (mkImageState [boxA; boxB] [boxA; boxB] [] [])
    [OpSelectAll; OpDeleteSelected 7; OpUndo; OpRedo] eq_refl eq_refl))).
Defined.

(** ** StateManager: the selection *)

Lemma setSelected_twice u v b : setSelected u (setSelected v b) = setSelected u b.
Proof. destruct b; reflexivity. Qed.

Lemma setSelected_same b : setSelected (selected b) b = b.
Proof. destruct b; reflexivity. Qed.

Lemma sameButSelection_refl bs : sameButSelection bs bs.
Proof. reflexivity. Qed.

Lemma sameButSelection_trans bs1 bs2 bs3 :
  sameButSelection bs1 bs2 -> sameButSelection bs2 bs3 -> sameButSelection bs1 bs3.
Proof. unfold sameButSelection. congruence. Qed.

Lemma sameButSelection_pointwise (f : Box -> Box) bs :
  (forall b, setSelected false (f b) = setSelected false b) ->
  sameButSelection bs (map f bs).
Proof.
  intros H. unfold sameButSelection. rewrite map_map.
  apply map_ext. exact H.
Qed.

Lemma sameButSelection_mutateWhere p v bs :
  sameButSelection bs (mutateWhere p (setSelected v) bs).
Proof.
  apply sameButSelection_pointwise. intros b.
  destruct (p b); [apply setSelected_twice | reflexivity].
Qed.

Lemma sameButSelection_updateFound i (f : Box -> Box) bs :
  (forall b, setSelected false (f b) = setSelected false b) ->
  sameButSelection bs (updateFound i f bs).
Proof.
  intros H. unfold sameButSelection.
  induction bs as [|b r IH]; [reflexivity|].
  cbn [updateFound]. destruct (String.eqb (id b) i); cbn [map].
  - now rewrite H.
  - now rewrite IH.
Qed.

Lemma toggle_sameButSelection b :
  setSelected false (if deleted b then b else setSelected (negb (selected b)) b)
  = setSelected false b.
Proof. destruct (deleted b); [reflexivity | apply setSelected_twice]. Qed.

Lemma select_sameButSelection b :
  setSelected false (if deleted b then b else setSelected true b)
  = setSelected false b.
Proof. destruct (deleted b); [reflexivity | apply setSelected_twice]. Qed.

(** A predicate that does not look at [selected] counts the same boxes. *)
Lemma sameButSelection_count (p : Box -> bool) bs bs' :
  (forall b, p (setSelected false b) = p b) ->
  sameButSelection bs bs' ->
  length (List.filter p bs') = length (List.filter p bs).
Proof.
  intros Hp. unfold sameButSelection. revert bs'.
  induction bs as [|b r IH]; intros [|b' r'] H; try discriminate H; [reflexivity|].
  pose proof (f_equal (hd b) H) as Hb.
  change (setSelected false b' = setSelected false b) in Hb.
  pose proof (f_equal (@tl Box) H) as Hr.
  change (map (setSelected false) r' = map (setSelected false) r) in Hr.
  cbn [List.filter]. rewrite <- (Hp b'), Hb, (Hp b).
  destruct (p b); cbn [length]; rewrite (IH r' Hr); reflexivity.
Qed.

Lemma withBoxes_onlySelection f s :
  (forall bs, sameButSelection bs (f bs)) ->
  onlySelectionChanged s (withBoxes f s).
Proof.
  intros Hf. unfold onlySelectionChanged.
  split; [apply withBoxes_index|]. split; [apply withBoxes_modified|].
  split; [intros j Hj; apply withBoxes_other, Hj|].
  destruct (currentState s) as [st|] eqn:Hs.
  - rewrite (withBoxes_state _ _ _ Hs). eexists. split; [reflexivity|].
    cbn. repeat split. apply Hf.
  - apply withBoxes_none, Hs.
Qed.

Lemma onlySelectionChanged_trans s1 s2 s3 :
  onlySelectionChanged s1 s2 -> onlySelectionChanged s2 s3 ->
  onlySelectionChanged s1 s3.
Proof.
  intros (I1 & G1 & O1 & C1) (I2 & G2 & O2 & C2).
  unfold onlySelectionChanged.
  split; [congruence|]. split; [congruence|].
  split; [intros j Hj; rewrite O2, O1; congruence|].
  destruct (currentState s1) as [st|] eqn:Hs.
  - destruct C1 as (st2 & H2 & A2 & B2 & D2 & E2). rewrite H2 in C2.
    destruct C2 as (st3 & H3 & A3 & B3 & D3 & E3).
    exists st3. split; [exact H3|]. split; [congruence|].
    split; [congruence|]. split; [congruence|].
    eapply sameButSelection_trans; eassumption.
  - subst s2. rewrite Hs in C2. exact C2.
Qed.

Lemma onlySelectionChanged_counts s s' :
  onlySelectionChanged s s' ->
  getBoxCount s' = getBoxCount s /\ getDeletedCount s' = getDeletedCount s /\
  canUndo s' = canUndo s /\ canRedo s' = canRedo s /\
  map id (getCurrentBoxes s') = map id (getCurrentBoxes s) /\
  deletedFlags (getCurrentBoxes s') = deletedFlags (getCurrentBoxes s).
Proof.
  intros (I & G & O & C).
  unfold getBoxCount, getDeletedCount, countWhere, canUndo, canRedo,
    getCurrentBoxes, deletedFlags.
  destruct (currentState s) as [st|] eqn:Hs.
  - destruct C as (st' & H' & A & B & D & E). rewrite H', B, D.
    rewrite (sameButSelection_count (fun b => negb (deleted b)) _ _
               (fun b => eq_refl) E).
    rewrite (sameButSelection_count (fun b => deleted b) _ _ (fun b => eq_refl) E).
    repeat split.
    + unfold sameButSelection in E.
      apply (f_equal (map id)) in E. rewrite !map_map in E. exact E.
    + unfold sameButSelection in E.
      apply (f_equal (map deleted)) in E. rewrite !map_map in E. exact E.
  - subst s'. rewrite Hs. repeat split.
Qed.

Lemma selectionOp_onlySelection s o :
  isSelectionOp o = true -> onlySelectionChanged s (step s o).
Proof.
  intros Ho. destruct o; try discriminate Ho; cbn [step].
  - apply withBoxes_onlySelection. intros bs. apply sameButSelection_mutateWhere.
  - apply withBoxes_onlySelection. intros bs.
    apply sameButSelection_pointwise. intros b. apply setSelected_twice.
  - apply withBoxes_onlySelection. intros bs.
    apply sameButSelection_updateFound, toggle_sameButSelection.
  - unfold selectBox.
    apply (onlySelectionChanged_trans _ (clearSelection s)).
    + apply withBoxes_onlySelection. intros bs.
      apply sameButSelection_pointwise. intros b. apply setSelected_twice.
    + apply withBoxes_onlySelection. intros bs.
      apply sameButSelection_updateFound, select_sameButSelection.
Qed.

(** X12 : selectAll, clearSelection, toggleBoxSelection and selectBox write
    nothing but selected flags of boxes of the current image: ids, order,
    coordinates and deleted flags of the boxes, the snapshot, both stacks,
    the modified set and all other images stay as they are; so the counts
    of live and deleted boxes and canUndo / canRedo do not change, and with
    no state for the current image the calls do nothing. *)
Theorem selection_calls_only_select (s : StateManager) (o : Op) :
  isSelectionOp o = true ->
  onlySelectionChanged s (step s o) /\
  getBoxCount (step s o) = getBoxCount s /\
  getDeletedCount (step s o) = getDeletedCount s /\
  canUndo (step s o) = canUndo s /\ canRedo (step s o) = canRedo s /\
  map id (getCurrentBoxes (step s o)) = map id (getCurrentBoxes s) /\
  deletedFlags (getCurrentBoxes (step s o)) = deletedFlags (getCurrentBoxes s).
Proof.
  intros Ho. pose proof (selectionOp_onlySelection s o Ho) as H.
  split; [exact H|]. apply onlySelectionChanged_counts, H.
Qed.

Lemma selection_calls_only_select_witness :
  getDeletedCount (step deletedSession (OpSelectBox "id-b")) =
  getDeletedCount deletedSession.
Proof.
  exact (proj1 (proj2 (proj2 (selection_calls_only_select deletedSession
    (OpSelectBox "id-b") eq_refl)))).
Defined.

Lemma withBoxes_compose f g s :
  withBoxes g (withBoxes f s) = withBoxes (fun bs => g (f bs)) s.
Proof.
  unfold withBoxes at 2 3. destruct (currentState s) as [st|] eqn:Hs.
  - unfold withBoxes. rewrite currentState_setState.
    unfold setState. cbn [currentIndex imageStates globalModified boxes
      originalBoxes undoStack redoStack].
    now rewrite insert_insert_eq.
  - apply withBoxes_none, Hs.
Qed.

Lemma withBoxes_same f s :
  (forall bs, f bs = bs) -> withBoxes f s = s.
Proof.
  intros Hf. unfold withBoxes. destruct (currentState s) as [st|] eqn:Hs;
    [|reflexivity].
  unfold setState. rewrite Hf. destruct s as [i m g], st as [bs ob us rs].
  cbn in *. f_equal. apply insert_id. exact Hs.
Qed.

Lemma updateFound_toggle_twice i bs :
  updateFound i (fun b => if deleted b then b else setSelected (negb (selected b)) b)
    (updateFound i
       (fun b => if deleted b then b else setSelected (negb (selected b)) b) bs)
  = bs.
Proof.
  induction bs as [|b r IH]; [reflexivity|].
  cbn [updateFound]. destruct (String.eqb (id b) i) eqn:E.
  - cbn [updateFound].
    assert (Hid : id (if deleted b then b else setSelected (negb (selected b)) b)
                  = id b) by (destruct (deleted b); reflexivity).
    rewrite Hid, E. f_equal.
    destruct b as [bi bc bx by' bw bh bd bs' bl]. cbn.
    destruct bd; cbn; [reflexivity|]. now rewrite negb_involutive.
  - cbn [updateFound]. rewrite E, IH. reflexivity.
Qed.

(** X13 : toggleBoxSelection called twice with the same id gives back the
    session it started from, whatever the id (unknown ids and deleted boxes
    are left alone both times). *)
Theorem toggleBoxSelection_twice (boxId : string) (s : StateManager) :
  toggleBoxSelection boxId (toggleBoxSelection boxId s) = s.
Proof.
  unfold toggleBoxSelection. rewrite withBoxes_compose.
  apply withBoxes_same. intros bs. apply updateFound_toggle_twice.
Qed.

Lemma filter_length_le {A} (p q : A -> bool) (l : list A) :
  (forall x, p x = true -> q x = true) ->
  (length (List.filter p l) <= length (List.filter q l))%nat.
Proof.
  intros H. induction l as [|x r IH]; [reflexivity|].
  cbn [List.filter]. destruct (p x) eqn:Ep.
  - rewrite (H x Ep). cbn [length]. lia.
  - destruct (q x); cbn [length]; lia.
Qed.

Lemma filter_partition_length {A} (p : A -> bool) (l : list A) :
  (length (List.filter (fun x => negb (p x)) l) + length (List.filter p l)
   = length l)%nat.
Proof.
  induction l as [|x r IH]; [reflexivity|].
  cbn [List.filter]. destruct (p x); cbn [negb length]; lia.
Qed.

Lemma filter_map_count {A B} (p : B -> bool) (q : A -> bool) (f : A -> B)
    (l : list A) :
  (forall x, p (f x) = q x) ->
  length (List.filter p (map f l)) = length (List.filter q l).
Proof.
  intros H. induction l as [|x r IH]; [reflexivity|].
  cbn [map List.filter]. rewrite H. destruct (q x); cbn [length]; now rewrite IH.
Qed.

Lemma selectAll_count bs :
  length (List.filter (fun b => isSelectedLive b)
            (mutateWhere (fun b => negb (deleted b)) (setSelected true) bs))
  = length (List.filter (fun b => negb (deleted b)) bs).
Proof.
  apply filter_map_count. intros b. unfold isSelectedLive.
  destruct b as [bi bc bx by' bw bh bd bs' bl]. destruct bd; cbn.
  - apply andb_false_r.
  - reflexivity.
Qed.

Lemma clearSelection_count bs :
  List.filter (fun b => isSelectedLive b) (map (setSelected false) bs) = [].
Proof.
  induction bs as [|b r IH]; [reflexivity|].
  cbn [map List.filter]. unfold isSelectedLive at 1. cbn. exact IH.
Qed.

Lemma selectBox_count i bs :
  Z.of_nat (length (List.filter (fun b => isSelectedLive b)
    (updateFound i (fun b => if deleted b then b else setSelected true b)
       (map (setSelected false) bs))))
  = match findById i bs with
    | Some b => if deleted b then 0 else 1
    | None => 0
    end.
Proof.
  unfold findById. induction bs as [|b r IH]; [reflexivity|].
  cbn [map updateFound List.find].
  change (id (setSelected false b)) with (id b).
  destruct (String.eqb (id b) i) eqn:E.
  - cbn [List.filter]. rewrite clearSelection_count.
    change (deleted (setSelected false b)) with (deleted b).
    destruct (deleted b) eqn:Ed.
    + unfold isSelectedLive. cbn [setSelected selected andb]. reflexivity.
    + unfold isSelectedLive. cbn [setSelected selected deleted].
      rewrite Ed. reflexivity.
  - cbn [List.filter]. unfold isSelectedLive at 1.
    cbn [setSelected selected andb]. exact IH.
Qed.

(** X14 : after selectAll the number of selected boxes is the number of
    live (not deleted) boxes; after clearSelection it is 0; after
    selectBox(id) it is 1 when the first box with that id exists and is
    live, and 0 otherwise.  At all times the selected count is at most the
    live count, and the live and deleted counts add up to the number of
    boxes of the current image. *)
Theorem selection_counts (s : StateManager) :
  getSelectedCount (selectAll s) = getBoxCount s /\
  getSelectedCount (clearSelection s) = 0 /\
  (forall boxId,
     getSelectedCount (selectBox boxId s) =
       match findById boxId (getCurrentBoxes s) with
       | Some b => if deleted b then 0 else 1
       | None => 0
       end) /\
  0 <= getSelectedCount s <= getBoxCount s /\
  getBoxCount s + getDeletedCount s = Z.of_nat (length (getCurrentBoxes s)).
Proof.
  unfold getSelectedCount, getBoxCount, getDeletedCount, countWhere,
    getCurrentBoxes, selectBox, selectAll, clearSelection.
  destruct (currentState s) as [st|] eqn:Hs.
  - rewrite !(withBoxes_state _ _ _ Hs).
    cbn [boxes]. split; [|split; [|split; [|split]]].
    + now rewrite selectAll_count.
    + now rewrite clearSelection_count.
    + intros boxId. rewrite withBoxes_compose, (withBoxes_state _ _ _ Hs).
      cbn [boxes]. apply selectBox_count.
    + split; [lia|]. apply inj_le.
      apply filter_length_le. intros b Hb. unfold isSelectedLive in Hb.
      apply andb_true_iff in Hb. tauto.
    + rewrite <- Nat2Z.inj_add. f_equal.
      apply (filter_partition_length (fun b => deleted b)).
  - rewrite !(withBoxes_none _ _ Hs), Hs.
    repeat split; try reflexivity; try lia.
    intros boxId. rewrite (withBoxes_none _ _ Hs), Hs. reflexivity.
Qed.

(** ** StateManager: delete, restore and their counts *)

Lemma count_add {A} (p q r : A -> bool) (l : list A) :
  (forall x, Nat.b2n (r x) = (Nat.b2n (p x) + Nat.b2n (q x))%nat) ->
  (length (List.filter r l) =
   length (List.filter p l) + length (List.filter q l))%nat.
Proof.
  intros H. induction l as [|x t IH]; [reflexivity|].
  cbn [List.filter]. specialize (H x).
  destruct (p x), (q x), (r x); cbn [Nat.b2n length] in *; lia.
Qed.

Lemma count_none {A} (p : A -> bool) (l : list A) :
  (forall x, p x = false) -> List.filter p l = [].
Proof.
  intros H. induction l as [|x t IH]; [reflexivity|].
  cbn [List.filter]. now rewrite H.
Qed.

Lemma pushTrimmed_snoc (stack : list Action) (a : Action) :
  exists rest, pushTrimmed stack a = rest ++ [a].
Proof.
  unfold pushTrimmed. destruct stack as [|x t].
  - exists []. reflexivity.
  - destruct (Z.of_nat (length ((x :: t) ++ [a])) >? maxStackSize).
    + exists t. reflexivity.
    + exists (x :: t). reflexivity.
Qed.

Lemma currentIndex_markModified s : currentIndex (markModified s) = currentIndex s.
Proof. reflexivity. Qed.

Lemma markModified_modified s : isCurrentModified (markModified s) = true.
Proof.
  unfold isCurrentModified, markModified. cbn.
  apply bool_decide_eq_true. apply elem_of_union_l, elem_of_singleton.
  reflexivity.
Qed.

(** The session after a call that recorded [action] and rewrote the boxes
    with [f]. *)
Lemma recorded_call_state type chosen now f s st :
  currentState s = Some st ->
  let s' := markModified (withBoxes f (recordAction type chosen now s)) in
  currentState s' =
    Some (mkImageState (f (boxes st)) (originalBoxes st)
            (pushTrimmed (undoStack st) (mkAction type (map cloneBox chosen) now))
            []) /\
  isCurrentModified s' = true /\ canUndo s' = true /\ canRedo s' = false.
Proof.
  intros Hs s'.
  assert (H' : currentState s' =
    Some (mkImageState (f (boxes st)) (originalBoxes st)
            (pushTrimmed (undoStack st) (mkAction type (map cloneBox chosen) now))
            [])).
  { unfold s'. rewrite currentState_markModified.
    rewrite (withBoxes_state _ _ _ (recordAction_state _ _ _ _ _ Hs)).
    reflexivity. }
  split; [exact H'|]. split; [apply markModified_modified|].
  unfold canUndo, canRedo. rewrite H'. cbn [undoStack redoStack].
  destruct (pushTrimmed_snoc (undoStack st)
              (mkAction type (map cloneBox chosen) now)) as [rest ->].
  rewrite length_app. cbn [length]. split; [|reflexivity].
  apply Z.ltb_lt. lia.
Qed.

(** X15 : deleteSelected returns the number of boxes that were selected and
    live; afterwards no box is selected, the live count has gone down and
    the deleted count up by that number.  When it returns 0 the session is
    unchanged; otherwise the image is marked modified, canUndo is true and
    canRedo is false. *)
Theorem deleteSelected_counts (now : Z) (s : StateManager) :
  let n := fst (deleteSelected now s) in
  let s' := snd (deleteSelected now s) in
  n = getSelectedCount s /\
  getSelectedCount s' = 0 /\
  getBoxCount s' = getBoxCount s - n /\
  getDeletedCount s' = getDeletedCount s + n /\
  (n = 0 -> s' = s) /\
  (0 < n -> isCurrentModified s' = true /\ canUndo s' = true /\ canRedo s' = false).
Proof.
  cbv zeta. unfold deleteSelected.
  destruct (currentState s) as [st|] eqn:Hs.
  2:{ unfold getSelectedCount, getBoxCount, getDeletedCount, countWhere.
      cbn [fst snd]. rewrite Hs. repeat split; try reflexivity; lia. }
  destruct (List.filter (fun b => isSelectedLive b) (boxes st)) as [|x l] eqn:Hf.
  { unfold getSelectedCount, getBoxCount, getDeletedCount, countWhere.
    cbn [fst snd]. rewrite Hs, Hf. repeat split; try reflexivity; lia. }
  cbn [fst snd].
  destruct (recorded_call_state "delete" (x :: l) now
              (mutateWhere isSelectedLive (setFlags true)) s st Hs)
    as (H' & Hm & Hu & Hr).
  unfold getSelectedCount, getBoxCount, getDeletedCount, countWhere.
  rewrite H', Hs, Hf. cbn [boxes]. unfold mutateWhere.
  split; [reflexivity|]. split; [|split; [|split; [|split]]].
  - rewrite (filter_map_count _ (fun _ => false)).
    + now rewrite count_none.
    + intros b. destruct (isSelectedLive b) eqn:E; [|exact E].
      unfold isSelectedLive. cbn. reflexivity.
  - rewrite (filter_map_count _
      (fun b => negb (deleted b) && negb (isSelectedLive b))).
    + rewrite <- Hf.
      rewrite (count_add (fun b => negb (deleted b) && negb (isSelectedLive b))
                 (fun b => isSelectedLive b) (fun b => negb (deleted b))
                 (boxes st)); [lia|].
      intros b. unfold isSelectedLive. destruct (deleted b), (selected b); reflexivity.
    + intros b. unfold isSelectedLive.
      destruct (selected b) eqn:E1, (deleted b) eqn:E2; cbn; rewrite ?E2; reflexivity.
  - rewrite (filter_map_count _ (fun b => deleted b || isSelectedLive b)).
    + rewrite <- Hf.
      rewrite (count_add (fun b => deleted b) (fun b => isSelectedLive b)
                 (fun b => deleted b || isSelectedLive b) (boxes st)); [lia|].
      intros b. unfold isSelectedLive. destruct (deleted b), (selected b); reflexivity.
    + intros b. unfold isSelectedLive.
      destruct (selected b) eqn:E1, (deleted b) eqn:E2; cbn; rewrite ?E2; reflexivity.
  - cbn [length]. lia.
  - intros _. repeat split; assumption.
Qed.

Lemma deleteSelected_counts_witness :
  isCurrentModified (snd (deleteSelected 7 openedSession)) = true /\
  canUndo (snd (deleteSelected 7 openedSession)) = true /\
  canRedo (snd (deleteSelected 7 openedSession)) = false.
Proof.
  apply (proj2 (proj2 (proj2 (proj2 (proj2
    (deleteSelected_counts 7 openedSession)))))).
  reflexivity.
Defined.

(** X16 : restoreDeleted returns the number of boxes its filter keeps (the
    deleted boxes, or the deleted and selected ones when onlySelected is
    set); afterwards the deleted count has gone down and the live count up
    by that number, and without onlySelected no deleted box is left.  When
    it returns 0 the session is unchanged; otherwise the image is marked
    modified, canUndo is true and canRedo is false. *)
Theorem restoreDeleted_counts (onlySelected : bool) (now : Z) (s : StateManager) :
  let n := fst (restoreDeleted onlySelected now s) in
  let s' := snd (restoreDeleted onlySelected now s) in
  n = countWhere (restoreFilter onlySelected) s /\
  getDeletedCount s' = getDeletedCount s - n /\
  getBoxCount s' = getBoxCount s + n /\
  (onlySelected = false -> n = getDeletedCount s /\ getDeletedCount s' = 0) /\
  (n = 0 -> s' = s) /\
  (0 < n -> isCurrentModified s' = true /\ canUndo s' = true /\ canRedo s' = false).
Proof.
  cbv zeta. unfold restoreDeleted.
  destruct (currentState s) as [st|] eqn:Hs.
  2:{ unfold getBoxCount, getDeletedCount, countWhere.
      cbn [fst snd]. rewrite Hs. repeat split; try reflexivity; lia. }
  assert (Hsub : forall b, restoreFilter onlySelected b = true -> deleted b = true).
  { intros b. unfold restoreFilter. destruct onlySelected; [|tauto].
    intros H. apply andb_true_iff in H. tauto. }
  assert (Hall : onlySelected = false ->
    length (List.filter (fun b => restoreFilter onlySelected b) (boxes st)) =
    length (List.filter (fun b => deleted b) (boxes st))).
  { intros ->. reflexivity. }
  destruct (List.filter (fun b => restoreFilter onlySelected b) (boxes st))
    as [|x l] eqn:Hf.
  { unfold getBoxCount, getDeletedCount, countWhere.
    cbn [fst snd]. rewrite Hs, Hf. cbn [length].
    split; [reflexivity|]. split; [lia|]. split; [lia|].
    split; [intros Ho; rewrite <- (Hall Ho); cbn [length]; split; reflexivity|].
    split; [reflexivity | intros H; lia]. }
  cbn [fst snd].
  destruct (recorded_call_state "restore" (x :: l) now
              (mutateWhere (restoreFilter onlySelected) (setFlags false)) s st Hs)
    as (H' & Hm & Hu & Hr).
  unfold getBoxCount, getDeletedCount, countWhere.
  rewrite H', Hs, Hf. cbn [boxes]. unfold mutateWhere.
  assert (Hdel :
    length (List.filter (fun b => deleted b)
      (map (fun b => if restoreFilter onlySelected b then setFlags false b else b)
         (boxes st))) =
    (length (List.filter (fun b => deleted b) (boxes st)) - length (x :: l))%nat /\
    (length (x :: l) <= length (List.filter (fun b => deleted b) (boxes st)))%nat).
  { rewrite (filter_map_count _
      (fun b => deleted b && negb (restoreFilter onlySelected b))).
    - rewrite <- Hf.
      rewrite (count_add
                 (fun b => deleted b && negb (restoreFilter onlySelected b))
                 (fun b => restoreFilter onlySelected b) (fun b => deleted b)
                 (boxes st)); [lia|].
      intros b. pose proof (Hsub b).
      destruct (restoreFilter onlySelected b), (deleted b); try reflexivity.
      discriminate H; reflexivity.
    - intros b. destruct (restoreFilter onlySelected b); cbn;
        [now rewrite andb_false_r | now rewrite andb_true_r]. }
  destruct Hdel as [Hdel Hle].
  split; [reflexivity|]. split; [|split; [|split; [|split]]].
  - rewrite Hdel. lia.
  - rewrite (filter_map_count _
      (fun b => negb (deleted b) || restoreFilter onlySelected b)).
    + rewrite <- Hf.
      rewrite (count_add (fun b => negb (deleted b))
                 (fun b => restoreFilter onlySelected b)
                 (fun b => negb (deleted b) || restoreFilter onlySelected b)
                 (boxes st)); [lia|].
      intros b. pose proof (Hsub b).
      destruct (restoreFilter onlySelected b), (deleted b); try reflexivity.
      discriminate H; reflexivity.
    + intros b. destruct (restoreFilter onlySelected b); cbn;
        [now rewrite orb_true_r | now rewrite orb_false_r].
  - intros Ho. specialize (Hall Ho). rewrite Hdel, <- Hall.
    split; [reflexivity | lia].
  - cbn [length]. lia.
  - intros _. repeat split; assumption.
Qed.

Lemma restoreDeleted_counts_witness :
  fst (restoreDeleted false 9 deletedSession) = getDeletedCount deletedSession /\
  getDeletedCount (snd (restoreDeleted false 9 deletedSession)) = 0.
Proof.
  apply (proj1 (proj2 (proj2 (proj2 (restoreDeleted_counts false 9 deletedSession))))).
  reflexivity.
Defined.

(** ** StateManager: undo and redo of a delete, and the two stacks *)

Lemma replay_redoes_delete (bs : list Box) :
  NoDup (map id bs) ->
  replay true (map cloneBox (List.filter (fun b => isSelectedLive b) bs))
    (mutateWhere isSelectedLive (setFlags false) bs)
  = mutateWhere isSelectedLive (setFlags true) bs.
Proof.
  intros Hnd. fold (cloneBoxes (List.filter (fun b => isSelectedLive b) bs)).
  rewrite cloneBoxes_same.
  apply list_eq. intros k.
  destruct (bs !! k) as [b|] eqn:Hk.
  - assert (Hin : In b bs) by (apply list_elem_of_In, list_elem_of_lookup; eauto).
    pose proof (mutateWhere_lookup isSelectedLive (setFlags false) bs k b Hk) as Hd.
    rewrite (replay_lookup _ _ _ _ _ Hd), (mutateWhere_lookup _ _ _ _ _ Hk).
    f_equal.
    set (c := if isSelectedLive b then setFlags false b else b) in *.
    assert (Hc : id c = id b) by (subst c; destruct (isSelectedLive b); reflexivity).
    rewrite (isRecorded_ids _ c b Hc), (isRecorded_filter _ _ _ Hnd Hin).
    rewrite isFirst_unique; auto.
    + subst c. destruct (isSelectedLive b); reflexivity.
    + rewrite mutateWhere_ids. exact Hnd.
  - assert (Hlen : (length bs <= k)%nat) by (apply lookup_ge_None; auto).
    rewrite !(proj2 (lookup_ge_None _ _)); auto.
    + unfold mutateWhere. rewrite length_map. lia.
    + rewrite replay_length. unfold mutateWhere. rewrite length_map. lia.
Qed.

Lemma unselect_sameButSelection bs :
  sameButSelection bs (mutateWhere isSelectedLive (setFlags false) bs).
Proof.
  apply sameButSelection_pointwise. intros b.
  unfold isSelectedLive. destruct b as [bi bc bx by' bw bh bd bs' bl].
  destruct bs', bd; reflexivity.
Qed.

(** X17 : when the boxes of the current image have distinct ids and
    deleteSelected has deleted something, undo succeeds and gives every box
    its deleted flag back (the boxes are as before the delete, except that
    the restored ones are no longer selected), so the live and deleted
    counts are those from before the delete; a redo then succeeds and gives
    exactly the boxes as they were after the delete. *)
Theorem undo_reverses_delete (now : Z) (s : StateManager) :
  NoDup (map id (getCurrentBoxes s)) ->
  0 < fst (deleteSelected now s) ->
  let s1 := snd (deleteSelected now s) in
  let s2 := snd (undo s1) in
  let s3 := snd (redo s2) in
  fst (undo s1) = true /\
  sameButSelection (getCurrentBoxes s) (getCurrentBoxes s2) /\
  deletedFlags (getCurrentBoxes s2) = deletedFlags (getCurrentBoxes s) /\
  getSelectedCount s2 = 0 /\
  getBoxCount s2 = getBoxCount s /\ getDeletedCount s2 = getDeletedCount s /\
  fst (redo s2) = true /\
  getCurrentBoxes s3 = getCurrentBoxes s1.
Proof.
  intros Hnd Hpos. cbv zeta.
  destruct (currentState s) as [st|] eqn:Hs.
  2:{ unfold deleteSelected in Hpos. rewrite Hs in Hpos. simpl in Hpos. lia. }
  assert (Hbs : getCurrentBoxes s = boxes st)
    by (unfold getCurrentBoxes; now rewrite Hs).
  rewrite Hbs in *.
  assert (Hne : List.filter (fun b => isSelectedLive b) (boxes st) <> []).
  { intros E. unfold deleteSelected in Hpos. rewrite Hs, E in Hpos.
    simpl in Hpos. lia. }
  pose proof (deleteSelected_state now s st Hs Hne) as H1.
  set (s1 := snd (deleteSelected now s)) in *.
  set (action := mkAction "delete"
         (map cloneBox (List.filter (fun b => isSelectedLive b) (boxes st))) now) in *.
  destruct (pushTrimmed_snoc (undoStack st) action) as [rest Hrest].
  rewrite Hrest in H1.
  pose proof (undo_pops s1 _ action rest H1 eq_refl) as Hu.
  cbn [boxes originalBoxes redoStack action_type action_boxes action] in Hu.
  change (undoFlag "delete") with (Some false) in Hu. cbn [replayed] in Hu.
  rewrite (replay_reverses_delete _ Hnd) in Hu.
  assert (H2 : currentState (snd (undo s1)) =
    Some (mkImageState (mutateWhere isSelectedLive (setFlags false) (boxes st))
            (originalBoxes st) rest ([] ++ [action]))).
  { rewrite Hu. cbn [snd].
    rewrite currentState_updateModifiedState. apply currentState_setState. }
  set (s2 := snd (undo s1)) in *.
  pose proof (redo_pops s2 _ action [] H2 eq_refl) as Hr.
  cbn [boxes originalBoxes undoStack action_type action_boxes action] in Hr.
  change (redoFlag "delete") with (Some true) in Hr. cbn [replayed] in Hr.
  rewrite (replay_redoes_delete _ Hnd) in Hr.
  assert (Hb2 : getCurrentBoxes s2 =
                mutateWhere isSelectedLive (setFlags false) (boxes st))
    by (unfold getCurrentBoxes; now rewrite H2).
  pose proof (unselect_sameButSelection (boxes st)) as Hsame.
  split; [rewrite Hu; reflexivity|].
  split; [rewrite Hb2; exact Hsame|].
  split.
  { rewrite Hb2. unfold deletedFlags. unfold sameButSelection in Hsame.
    apply (f_equal (map deleted)) in Hsame. rewrite !map_map in Hsame.
    exact Hsame. }
  unfold getSelectedCount, getBoxCount, getDeletedCount, countWhere.
  rewrite H2, Hs. cbn [boxes].
  split.
  { unfold mutateWhere. rewrite (filter_map_count _ (fun _ => false)).
    - now rewrite count_none.
    - intros b. destruct (isSelectedLive b) eqn:E; [|exact E]. reflexivity. }
  split.
  { now rewrite (sameButSelection_count (fun b => negb (deleted b)) _ _
                   (fun b => eq_refl) Hsame). }
  split.
  { now rewrite (sameButSelection_count (fun b => deleted b) _ _
                   (fun b => eq_refl) Hsame). }
  split; [rewrite Hr; reflexivity|].
  rewrite Hr. cbn [snd]. unfold getCurrentBoxes.
  rewrite currentState_updateModifiedState, currentState_setState, H1.
  reflexivity.
Qed.

Lemma undo_reverses_delete_witness :
  deletedFlags (getCurrentBoxes (snd (undo (snd (deleteSelected 7 openedSession)))))
  = deletedFlags (getCurrentBoxes openedSession) /\
  getCurrentBoxes
    (snd (redo (snd (undo (snd (deleteSelected 7 openedSession))))))
  = getCurrentBoxes (snd (deleteSelected 7 openedSession)).
Proof.
  assert (Hnd : NoDup (map id (getCurrentBoxes openedSession))).
  { apply (bool_decide_unpack _). vm_compute. exact I. }
  assert (Hpos : 0 < fst (deleteSelected 7 openedSession)) by reflexivity.
  pose proof (undo_reverses_delete 7 openedSession Hnd Hpos) as H.
  cbv zeta in H. split; [apply H | apply H].
Defined.

Lemma pop_none_iff (l : list Action) : pop l = None <-> l = [].
Proof.
  split; [apply pop_nil_inv | intros ->; reflexivity].
Qed.

(** X18 : canUndo and canRedo tell what undo and redo will return.  After
    an undo that succeeded, redo succeeds and puts both stacks back exactly
    as they were before the undo; after a redo that succeeded, undo does the
    same.  Neither changes the ids or the order of the boxes. *)
Theorem undo_redo_restore_stacks (s : StateManager) :
  fst (undo s) = canUndo s /\ fst (redo s) = canRedo s /\
  (forall st, currentState s = Some st -> canUndo s = true ->
     fst (redo (snd (undo s))) = true /\
     exists st', currentState (snd (redo (snd (undo s)))) = Some st' /\
       undoStack st' = undoStack st /\ redoStack st' = redoStack st /\
       originalBoxes st' = originalBoxes st /\
       map id (boxes st') = map id (boxes st)) /\
  (forall st, currentState s = Some st -> canRedo s = true ->
     fst (undo (snd (redo s))) = true /\
     exists st', currentState (snd (undo (snd (redo s)))) = Some st' /\
       undoStack st' = undoStack st /\ redoStack st' = redoStack st /\
       originalBoxes st' = originalBoxes st /\
       map id (boxes st') = map id (boxes st)).
Proof.
  assert (Hids : forall f saved bs, map id (replayed f saved bs) = map id bs).
  { intros [d|] saved bs; [apply replay_ids | reflexivity]. }
  split; [|split; [|split]].
  - unfold undo, canUndo. destruct (currentState s) as [st|]; [|reflexivity].
    destruct (pop (undoStack st)) as [[a r]|] eqn:E.
    + apply pop_some_inv in E. rewrite E, length_app. cbn.
      symmetry. apply Z.ltb_lt. lia.
    + apply pop_nil_inv in E. rewrite E. reflexivity.
  - unfold redo, canRedo. destruct (currentState s) as [st|]; [|reflexivity].
    destruct (pop (redoStack st)) as [[a r]|] eqn:E.
    + apply pop_some_inv in E. rewrite E, length_app. cbn.
      symmetry. apply Z.ltb_lt. lia.
    + apply pop_nil_inv in E. rewrite E. reflexivity.
  - intros st Hs Hc. unfold canUndo in Hc. rewrite Hs in Hc.
    destruct (pop (undoStack st)) as [[a r]|] eqn:E.
    2:{ apply pop_nil_inv in E. rewrite E in Hc. discriminate Hc. }
    apply pop_some_inv in E.
    rewrite (undo_pops s st a r Hs E). cbn [snd].
    set (st1 := mkImageState (replayed (undoFlag (action_type a))
                   (action_boxes a) (boxes st)) (originalBoxes st) r
                   (redoStack st ++ [a])).
    assert (H1 : currentState (updateModifiedState (setState st1 s)) = Some st1)
      by (rewrite currentState_updateModifiedState; apply currentState_setState).
    rewrite (redo_pops _ st1 a (redoStack st) H1 eq_refl). cbn [fst snd].
    split; [reflexivity|].
    rewrite currentState_updateModifiedState, currentState_setState.
    eexists. split; [reflexivity|]. cbn [undoStack redoStack originalBoxes boxes st1].
    rewrite !Hids. repeat split. symmetry. exact E.
  - intros st Hs Hc. unfold canRedo in Hc. rewrite Hs in Hc.
    destruct (pop (redoStack st)) as [[a r]|] eqn:E.
    2:{ apply pop_nil_inv in E. rewrite E in Hc. discriminate Hc. }
    apply pop_some_inv in E.
    rewrite (redo_pops s st a r Hs E). cbn [snd].
    set (st1 := mkImageState (replayed (redoFlag (action_type a))
                   (action_boxes a) (boxes st)) (originalBoxes st)
                   (undoStack st ++ [a]) r).
    assert (H1 : currentState (updateModifiedState (setState st1 s)) = Some st1)
      by (rewrite currentState_updateModifiedState; apply currentState_setState).
    rewrite (undo_pops _ st1 a (undoStack st) H1 eq_refl). cbn [fst snd].
    split; [reflexivity|].
    rewrite currentState_updateModifiedState, currentState_setState.
    eexists. split; [reflexivity|]. cbn [undoStack redoStack originalBoxes boxes st1].
    rewrite !Hids. repeat split. symmetry. exact E.
Qed.

Lemma undo_redo_restore_stacks_witness :
  fst (redo (snd (undo deletedSession))) = true /\
  exists st', currentState (snd (redo (snd (undo deletedSession)))) = Some st' /\
    undoStack st' =
      undoStack (mkImageState (getCurrentBoxes deletedSession) [boxA; boxB]
                   [mkAction "delete" [boxA] 7] []) /\
    redoStack st' = [] /\
    originalBoxes st' = [boxA; boxB] /\
    map id (boxes st') = map id (getCurrentBoxes deletedSession).
Proof.
  exact (proj1 (proj2 (proj2 (undo_redo_restore_stacks deletedSession)))
    (mkImageState (getCurrentBoxes deletedSession) [boxA; boxB]
       [mkAction "delete" [boxA] 7] []) eq_refl eq_refl).
Defined.

(** ** StateManager: markSaved *)

Lemma filter_filter_same {A} (p : A -> bool) (l : list A) :
  List.filter p (List.filter p l) = List.filter p l.
Proof.
  induction l as [|x r IH]; [reflexivity|].
  cbn [List.filter]. destruct (p x) eqn:E; [|exact IH].
  cbn [List.filter]. now rewrite E, IH.
Qed.

Lemma filter_all {A} (p : A -> bool) (l : list A) :
  Forall (fun x => p x = true) (List.filter p l).
Proof.
  induction l as [|x r IH]; [constructor|].
  cbn [List.filter]. destruct (p x) eqn:E; [constructor; assumption | exact IH].
Qed.

Lemma filter_disjoint {A} (p q : A -> bool) (l : list A) :
  (forall x, q x = true -> p x = false) ->
  List.filter p (List.filter q l) = [].
Proof.
  intros H. induction l as [|x r IH]; [reflexivity|].
  cbn [List.filter]. destruct (q x) eqn:E; [|exact IH].
  cbn [List.filter]. now rewrite (H x E).
Qed.

Lemma saved_has_no_changes (bs : list Box) :
  Forall (fun b => negb (deleted b) = true) bs ->
  hasChanges (mkImageState bs bs [] []) = false.
Proof.
  intros Hall. unfold hasChanges. cbn [boxes originalBoxes].
  destruct (existsb (differsFromOriginal bs) bs) eqn:E; [|reflexivity].
  apply existsb_exists in E. destruct E as (b & Hin & Hd).
  unfold differsFromOriginal, findById in Hd.
  destruct (List.find (fun o => String.eqb (id o) (id b)) bs) as [o|] eqn:Ef.
  - apply find_some in Ef. destruct Ef as [Ho _].
    rewrite Forall_forall in Hall.
    pose proof (Hall o (proj2 (list_elem_of_In _ _) Ho)) as H1.
    pose proof (Hall b (proj2 (list_elem_of_In _ _) Hin)) as H2.
    destruct (deleted b), (deleted o); discriminate.
  - pose proof (find_none _ _ Ef b Hin) as Hn. cbn in Hn.
    rewrite String.eqb_refl in Hn. discriminate Hn.
Qed.

(** X19 : markSaved on an opened image keeps exactly the boxes that
    getBoxesForSave returned, as working collection and as new snapshot;
    no deleted box is left, both stacks are empty, the image is not marked
    modified and the rule of updateModifiedState agrees (no box differs
    from the snapshot); the session serializes to the same text as before,
    and a second markSaved changes nothing. *)
Theorem markSaved_keeps_saved_boxes (s : StateManager) (st : ImageState) :
  currentState s = Some st ->
  let s' := markSaved s in
  getCurrentBoxes s' = getBoxesForSave s /\
  (exists st', currentState s' = Some st' /\
     originalBoxes st' = getBoxesForSave s /\ hasChanges st' = false) /\
  isCurrentModified s' = false /\ canUndo s' = false /\ canRedo s' = false /\
  getDeletedCount s' = 0 /\ getBoxCount s' = getBoxCount s /\
  serialize (getCurrentBoxes s') = serialize (getCurrentBoxes s) /\
  markSaved s' = s'.
Proof.
  intros Hs. cbv zeta.
  set (nd := List.filter (fun b => negb (deleted b)) (boxes st)).
  assert (Hsave : getBoxesForSave s = nd)
    by (unfold getBoxesForSave; now rewrite Hs).
  assert (Hm : markSaved s =
    mkStateManager (currentIndex s)
      (<[currentIndex s := mkImageState nd nd [] []]> (imageStates s))
      (globalModified s ∖ {[currentIndex s]})).
  { unfold markSaved. rewrite Hs. cbn. rewrite cloneBoxes_same. reflexivity. }
  assert (H' : currentState (markSaved s) = Some (mkImageState nd nd [] [])).
  { rewrite Hm. unfold currentState. cbn. apply lookup_insert_eq. }
  rewrite Hsave.
  unfold getCurrentBoxes, canUndo, canRedo, getDeletedCount, getBoxCount,
    countWhere. rewrite H', Hs. cbn [boxes undoStack redoStack length].
  split; [reflexivity|].
  split.
  { eexists. split; [reflexivity|]. split; [reflexivity|].
    apply saved_has_no_changes. apply filter_all. }
  split.
  { rewrite Hm. unfold isCurrentModified. cbn.
    apply bool_decide_eq_false. rewrite elem_of_difference, elem_of_singleton.
    tauto. }
  split; [reflexivity|]. split; [reflexivity|].
  split.
  { unfold nd. rewrite (filter_disjoint (fun b => deleted b)); [reflexivity|].
    intros b Hb. now apply negb_true_iff in Hb. }
  split.
  { unfold nd. now rewrite filter_filter_same. }
  split.
  { unfold serialize, nd. now rewrite filter_filter_same. }
  assert (Hnd : List.filter (fun b => negb (deleted b)) nd = nd)
    by (unfold nd; apply filter_filter_same).
  unfold markSaved at 1. rewrite H'. cbn [boxes].
  rewrite Hnd, cloneBoxes_same, Hm. cbn. f_equal.
  - apply insert_insert_eq.
  - apply set_eq. intros x. rewrite !elem_of_difference. tauto.
Qed.

Lemma markSaved_keeps_saved_boxes_witness :
  getCurrentBoxes (markSaved deletedSession) = getBoxesForSave deletedSession /\
  getDeletedCount (markSaved deletedSession) = 0.
Proof.
  pose proof (markSaved_keeps_saved_boxes deletedSession
    (mkImageState (getCurrentBoxes deletedSession) [boxA; boxB]
       [mkAction "delete" [boxA] 7] []) eq_refl) as H.
  cbv zeta in H. split; apply H.
Defined.

(** ** StateManager: deleted boxes are not selected *)

Lemma nds_map (g : Box -> Box) bs :
  (forall b, deleted b && selected b = false ->
             deleted (g b) && selected (g b) = false) ->
  noDeletedSelected bs -> noDeletedSelected (map g bs).
Proof.
  intros Hg H. unfold noDeletedSelected in *.
  induction H as [|b r Hb Hr IH]; cbn [map]; constructor; auto.
Qed.

Lemma nds_updateFound i (g : Box -> Box) bs :
  (forall b, deleted b && selected b = false ->
             deleted (g b) && selected (g b) = false) ->
  noDeletedSelected bs -> noDeletedSelected (updateFound i g bs).
Proof.
  intros Hg H. unfold noDeletedSelected in *.
  induction H as [|b r Hb Hr IH]; cbn [updateFound]; [constructor|].
  destruct (String.eqb (id b) i); constructor; auto.
Qed.

Lemma nds_setFlags d b : deleted (setFlags d b) && selected (setFlags d b) = false.
Proof. cbn. apply andb_false_r. Qed.

Lemma nds_mutateWhere_setFlags p d bs :
  noDeletedSelected bs -> noDeletedSelected (mutateWhere p (setFlags d) bs).
Proof.
  apply nds_map. intros b Hb. destruct (p b); [apply nds_setFlags | exact Hb].
Qed.

Lemma nds_replay d saved bs :
  noDeletedSelected bs -> noDeletedSelected (replay d saved bs).
Proof.
  unfold replay. revert bs. induction saved as [|x r IH]; intros bs H; [exact H|].
  cbn [fold_left]. apply IH. apply nds_updateFound; [|exact H].
  intros b _. apply nds_setFlags.
Qed.

Lemma nds_filter p bs :
  noDeletedSelected bs -> noDeletedSelected (List.filter p bs).
Proof.
  intros H. unfold noDeletedSelected in *.
  induction H as [|b r Hb Hr IH]; cbn [List.filter]; [constructor|].
  destruct (p b); [constructor|]; auto.
Qed.

Lemma nds_selectLive bs :
  noDeletedSelected bs ->
  noDeletedSelected (mutateWhere (fun b => negb (deleted b)) (setSelected true) bs).
Proof.
  apply nds_map. intros [bi bc bx by' bw bh bd bs' bl] Hb.
  cbn in *. destruct bd; cbn in *; [exact Hb | reflexivity].
Qed.

Lemma nds_clear bs :
  noDeletedSelected bs -> noDeletedSelected (map (setSelected false) bs).
Proof. apply nds_map. intros b _. cbn. apply andb_false_r. Qed.

Lemma nds_toggle i bs :
  noDeletedSelected bs ->
  noDeletedSelected
    (updateFound i
       (fun b => if deleted b then b else setSelected (negb (selected b)) b) bs).
Proof.
  apply nds_updateFound. intros [bi bc bx by' bw bh bd bs' bl] Hb.
  cbn in *. destruct bd; cbn in *; [exact Hb | reflexivity].
Qed.

Lemma nds_select i bs :
  noDeletedSelected bs ->
  noDeletedSelected
    (updateFound i (fun b => if deleted b then b else setSelected true b) bs).
Proof.
  apply nds_updateFound. intros [bi bc bx by' bw bh bd bs' bl] Hb.
  cbn in *. destruct bd; cbn in *; [exact Hb | reflexivity].
Qed.

Lemma ndsIn_insert s i k g bs ob us rs :
  noDeletedSelectedIn s -> noDeletedSelected bs -> noDeletedSelected ob ->
  noDeletedSelectedIn
    (mkStateManager i (<[k := mkImageState bs ob us rs]> (imageStates s)) g).
Proof.
  intros H Hb Ho j st Hj. cbn in Hj.
  destruct (decide (k = j)) as [->|Hne].
  - rewrite lookup_insert_eq in Hj. injection Hj as <-. split; assumption.
  - rewrite lookup_insert_ne in Hj by exact Hne. apply (H j st Hj).
Qed.

Lemma ndsIn_same s s' :
  imageStates s' = imageStates s -> noDeletedSelectedIn s -> noDeletedSelectedIn s'.
Proof. intros E H j st Hj. rewrite E in Hj. apply (H j st Hj). Qed.

Lemma ndsIn_withBoxes f s :
  (forall bs, noDeletedSelected bs -> noDeletedSelected (f bs)) ->
  noDeletedSelectedIn s -> noDeletedSelectedIn (withBoxes f s).
Proof.
  intros Hf H. unfold withBoxes. destruct (currentState s) as [st|] eqn:Hs;
    [|exact H].
  destruct (H _ _ Hs) as [Hb Ho].
  apply ndsIn_insert; auto.
Qed.

Lemma ndsIn_recordAction type bs now s :
  noDeletedSelectedIn s -> noDeletedSelectedIn (recordAction type bs now s).
Proof.
  intros H. unfold recordAction. destruct (currentState s) as [st|] eqn:Hs;
    [|exact H].
  destruct (H _ _ Hs) as [Hb Ho].
  apply ndsIn_insert; auto.
Qed.

Lemma ndsIn_markSaved s :
  noDeletedSelectedIn s -> noDeletedSelectedIn (markSaved s).
Proof.
  intros H. unfold markSaved. destruct (currentState s) as [st|] eqn:Hs;
    [|exact H].
  destruct (H _ _ Hs) as [Hb Ho]. rewrite cloneBoxes_same.
  apply ndsIn_insert; auto using nds_filter.
Qed.

Lemma ndsIn_step s o :
  noDeletedSelected (broughtIn o) ->
  noDeletedSelectedIn s -> noDeletedSelectedIn (step s o).
Proof.
  intros Hin H. destruct o; cbn [step broughtIn] in *.
  - unfold initImageState. destruct (imageStates s !! index) eqn:E.
    + apply (ndsIn_same s); [reflexivity | exact H].
    + rewrite cloneBoxes_same. apply ndsIn_insert; auto.
  - apply (ndsIn_same s); [reflexivity | exact H].
  - unfold setCurrentBoxes. destruct (currentState s) as [st|] eqn:Hs; [|exact H].
    destruct (H _ _ Hs) as [Hb Ho]. rewrite cloneBoxes_same.
    apply ndsIn_insert; auto.
  - apply ndsIn_recordAction, H.
  - unfold undo. destruct (currentState s) as [st|] eqn:Hs; [|exact H].
    destruct (pop (undoStack st)) as [[a r]|]; [|exact H]. cbn [snd].
    eapply ndsIn_same; [apply updateModifiedState_states|].
    destruct (H _ _ Hs) as [Hb Ho].
    unfold setState. apply ndsIn_insert; auto.
    destruct (String.eqb (action_type a) "delete"); [apply nds_replay, Hb|].
    destruct (String.eqb (action_type a) "restore"); [apply nds_replay, Hb|].
    exact Hb.
  - unfold redo. destruct (currentState s) as [st|] eqn:Hs; [|exact H].
    destruct (pop (redoStack st)) as [[a r]|]; [|exact H]. cbn [snd].
    eapply ndsIn_same; [apply updateModifiedState_states|].
    destruct (H _ _ Hs) as [Hb Ho].
    unfold setState. apply ndsIn_insert; auto.
    destruct (String.eqb (action_type a) "delete"); [apply nds_replay, Hb|].
    destruct (String.eqb (action_type a) "restore"); [apply nds_replay, Hb|].
    exact Hb.
  - unfold deleteSelected. destruct (currentState s) as [st|] eqn:Hs; [|exact H].
    destruct (List.filter _ (boxes st)); [exact H|]. cbn [snd].
    eapply ndsIn_same; [reflexivity|].
    apply ndsIn_withBoxes; [apply nds_mutateWhere_setFlags|].
    apply ndsIn_recordAction, H.
  - unfold restoreDeleted. destruct (currentState s) as [st|] eqn:Hs; [|exact H].
    destruct (List.filter _ (boxes st)); [exact H|]. cbn [snd].
    eapply ndsIn_same; [reflexivity|].
    apply ndsIn_withBoxes; [apply nds_mutateWhere_setFlags|].
    apply ndsIn_recordAction, H.
  - apply ndsIn_withBoxes; [apply nds_selectLive | exact H].
  - apply ndsIn_withBoxes; [apply nds_clear | exact H].
  - apply ndsIn_withBoxes; [apply nds_toggle | exact H].
  - apply ndsIn_withBoxes; [apply nds_select|].
    apply ndsIn_withBoxes; [apply nds_clear | exact H].
  - apply (ndsIn_same s); [reflexivity | exact H].
  - apply (ndsIn_same s); [apply updateModifiedState_states | exact H].
  - apply ndsIn_markSaved, H.
  - unfold markSavedAt.
    apply (ndsIn_same (markSaved (setCurrentIndex index s))); [reflexivity|].
    apply ndsIn_markSaved. apply (ndsIn_same s); [reflexivity | exact H].
  - intros j st Hj. cbn in Hj. apply lookup_delete_Some in Hj.
    apply (H j st). apply Hj.
  - intros j st Hj. cbn in Hj. rewrite lookup_empty in Hj. discriminate Hj.
  - unfold resetCurrent. destruct (currentState s) as [st|] eqn:Hs; [|exact H].
    destruct (H _ _ Hs) as [Hb Ho]. rewrite cloneBoxes_same.
    apply ndsIn_insert; auto.
Qed.

Lemma ndsIn_run ops s :
  Forall (fun o => noDeletedSelected (broughtIn o)) ops ->
  noDeletedSelectedIn s -> noDeletedSelectedIn (run ops s).
Proof.
  intros Hops. revert s. induction Hops as [|o ops Ho Hops IH]; intros s H;
    [exact H|].
  change (run (o :: ops) s) with (run ops (step s o)).
  apply IH, ndsIn_step; assumption.
Qed.

Lemma parse_noDeletedSelected (uuid : nat -> string) (content : string) :
  noDeletedSelected (parse uuid content).
Proof.
  destruct (parse_flags uuid content) as [H _]. unfold noDeletedSelected.
  eapply Forall_impl; [exact H|]. intros b [-> _]. reflexivity.
Qed.

(** X20 : in a session that starts from new StateManager() and receives
    its boxes through initImageState and setCurrentBoxes without a box that
    is deleted and selected at once (the boxes parse returns are neither),
    no call of the session ever produces such a box, in any image; hence
    restoreDeleted(true), which restores the boxes that are deleted and
    selected, always returns 0 and leaves such a session unchanged. *)
Theorem deleted_boxes_never_selected (ops : list Op) :
  Forall (fun o => noDeletedSelected (broughtIn o)) ops ->
  let s := run ops newStateManager in
  noDeletedSelectedIn s /\
  (forall now, restoreDeleted true now s = (0, s)) /\
  (forall uuid content, noDeletedSelected (parse uuid content)).
Proof.
  intros Hops. cbv zeta.
  assert (H : noDeletedSelectedIn (run ops newStateManager)).
  { apply ndsIn_run; [exact Hops|]. intros j st Hj. cbn in Hj.
    rewrite lookup_empty in Hj. discriminate Hj. }
  split; [exact H|]. split; [|apply parse_noDeletedSelected].
  intros now. unfold restoreDeleted.
  destruct (currentState (run ops newStateManager)) as [st|] eqn:Hs;
    [|reflexivity].
  destruct (H _ _ Hs) as [Hb _].
  assert (E : List.filter (fun b => restoreFilter true b) (boxes st) = []).
  { unfold noDeletedSelected in Hb.
    induction Hb as [|b r Hb Hr IH]; [reflexivity|].
    cbn [List.filter restoreFilter]. rewrite Hb. exact IH. }
  rewrite E. reflexivity.
Qed.

Lemma deleted_boxes_never_selected_witness :
  restoreDeleted true 9
    (run [OpInitImageState 0 [boxA; boxB]; OpSelectAll; OpDeleteSelected 7;
          OpSelectAll] newStateManager)
  = (0, run [OpInitImageState 0 [boxA; boxB]; OpSelectAll; OpDeleteSelected 7;
             OpSelectAll] newStateManager).
Proof.
  apply (proj1 (proj2 (deleted_boxes_never_selected
    [OpInitImageState 0 [boxA; boxB]; OpSelectAll; OpDeleteSelected 7;
     OpSelectAll]
    ltac:(repeat constructor)))).
Defined.

(** ** StateManager: calls made while no image is open *)

Lemma size_of_member (X : gset Z) (i : Z) : i ∈ X -> (0 < size X)%nat.
Proof.
  intros Hi. destruct (size X) eqn:E; [|lia].
  apply size_empty_iff in E. rewrite E in Hi. apply elem_of_empty in Hi.
  contradiction.
Qed.

(** X21 : while the current index has no state (before an image is opened,
    after clearImageState or clearAll) the reads give the empty list, 0 and
    false, and every editing call, markSaved and resetCurrent leave the
    session as it is; deleteSelected and restoreDeleted return 0.  The
    exception is markModified: it adds the current index to the modified
    set all the same, hasUnsavedChanges then answers true, and markSaved,
    resetCurrent and updateModifiedState do not take the mark away. *)
Theorem calls_without_image_state (s : StateManager) :
  currentState s = None ->
  (getCurrentBoxes s = [] /\ getBoxesForSave s = [] /\
   getSelectedCount s = 0 /\ getBoxCount s = 0 /\ getDeletedCount s = 0 /\
   canUndo s = false /\ canRedo s = false) /\
  (forall o, isEditOp o = true \/ o = OpMarkSaved \/ o = OpResetCurrent ->
             o <> OpMarkModified -> step s o = s) /\
  (forall now onlySelected,
     fst (deleteSelected now s) = 0 /\
     fst (restoreDeleted onlySelected now s) = 0) /\
  (let s' := markModified s in
   isCurrentModified s' = true /\ hasUnsavedChanges s' = true /\
   markSaved s' = s' /\ resetCurrent s' = s' /\ updateModifiedState s' = s').
Proof.
  intros Hs. split; [|split; [|split]].
  - unfold getCurrentBoxes, getBoxesForSave, getSelectedCount, getBoxCount,
      getDeletedCount, countWhere, canUndo, canRedo. rewrite Hs.
    repeat split.
  - intros o Ho Hne. destruct Ho as [Ho | [-> | ->]].
    + destruct o; try discriminate Ho; cbn [step];
        try (apply withBoxes_none; exact Hs).
      * unfold setCurrentBoxes. now rewrite Hs.
      * unfold recordAction. now rewrite Hs.
      * unfold undo. now rewrite Hs.
      * unfold redo. now rewrite Hs.
      * unfold deleteSelected. now rewrite Hs.
      * unfold restoreDeleted. now rewrite Hs.
      * unfold selectBox, clearSelection. rewrite (withBoxes_none _ _ Hs).
        apply withBoxes_none, Hs.
      * congruence.
      * unfold updateModifiedState. now rewrite Hs.
    + cbn [step]. unfold markSaved. now rewrite Hs.
    + cbn [step]. unfold resetCurrent. now rewrite Hs.
  - intros now onlySelected. unfold deleteSelected, restoreDeleted.
    rewrite Hs. split; reflexivity.
  - cbv zeta.
    assert (Hs' : currentState (markModified s) = None)
      by (rewrite currentState_markModified; exact Hs).
    split; [apply markModified_modified|]. split.
    + unfold hasUnsavedChanges. apply Z.ltb_lt.
      assert (Hin : currentIndex s ∈ globalModified (markModified s))
        by (cbn; apply elem_of_union_l, elem_of_singleton; reflexivity).
      apply size_of_member in Hin. lia.
    + unfold markSaved, resetCurrent, updateModifiedState. rewrite Hs'.
      repeat split.
Qed.

Lemma calls_without_image_state_witness :
  hasUnsavedChanges (markModified newStateManager) = true /\
  markSaved (markModified newStateManager) = markModified newStateManager.
Proof.
  pose proof (calls_without_image_state newStateManager eq_refl) as H.
  cbv zeta in H. split; apply H.
Defined.

(** ** main.js: the rubber-band selection and the rectangle of a box *)

Lemma caught_sameButSelection v rectImg bs :
  sameButSelection bs (mutateWhere (caughtBy v rectImg) (setSelected true) bs).
Proof. apply sameButSelection_mutateWhere. Qed.

Lemma nds_caught v rectImg bs :
  noDeletedSelected bs ->
  noDeletedSelected (mutateWhere (caughtBy v rectImg) (setSelected true) bs).
Proof.
  apply nds_map. intros b Hb. unfold caughtBy.
  destruct (deleted b) eqn:E; cbn [negb andb]; [rewrite E; exact Hb|].
  destruct (rectsIntersect _ _); [|rewrite E; exact Hb].
  cbn. now rewrite E.
Qed.

Lemma selected_kept_mutateWhere p bs :
  Forall2 (fun b b' => selected b = true -> selected b' = true) bs
    (mutateWhere p (setSelected true) bs).
Proof.
  induction bs as [|b r IH]; [constructor|].
  unfold mutateWhere in *. cbn [map]. constructor; [|exact IH].
  destruct (p b); [reflexivity | tauto].
Qed.

Lemma deleted_not_caught v rectImg bs :
  Forall2 (fun b b' => deleted b = true -> selected b' = true -> selected b = true)
    bs (mutateWhere (caughtBy v rectImg) (setSelected true) bs).
Proof.
  induction bs as [|b r IH]; [constructor|].
  unfold mutateWhere in *. cbn [map]. constructor; [|exact IH].
  intros Hd. unfold caughtBy. rewrite Hd. cbn [negb andb]. tauto.
Qed.

Lemma deleted_not_caught_cleared v rectImg bs :
  Forall2 (fun b b' => deleted b = true -> selected b' = true -> selected b = true)
    bs (mutateWhere (caughtBy v rectImg) (setSelected true)
          (map (setSelected false) bs)).
Proof.
  induction bs as [|b r IH]; [constructor|].
  unfold mutateWhere in *. cbn [map]. constructor; [|exact IH].
  intros Hd. unfold caughtBy.
  change (deleted (setSelected false b)) with (deleted b). rewrite Hd.
  cbn [negb andb]. cbn. discriminate.
Qed.

Lemma drag_small (a b : Q) :
  less (nabs (nsub (nmax (Finite a) (Finite b)) (nmin (Finite a) (Finite b))))
       three = true <->
  (Qabs (b - a) < 3)%Q.
Proof.
  unfold nmax, nmin, three. cbn [lessEq].
  destruct (Qle_bool a b) eqn:E; cbn [nsub nneg nadd nabs];
    rewrite less_finite, !Qabs_Qlt_condition.
  - lra.
  - lra.
Qed.

(** X22 : finalizeSelectionRect writes nothing but selected flags of boxes
    of the current image: ids, coordinates and deleted flags, the snapshot,
    both stacks, the modified set and the other images stay as they are.
    A deleted box is never selected by it; called with addToSelection it
    never deselects a box; and without a selection rectangle, or with one less
    than 3 canvas pixels wide or high, it changes nothing at all. *)
Theorem finalizeSelectionRect_only_selects (addToSelection : bool)
    (selectionRect : option Corners.t) (v : View) (s : StateManager) :
  let s' := finalizeSelectionRect addToSelection selectionRect v s in
  onlySelectionChanged s s' /\
  getBoxCount s' = getBoxCount s /\ getDeletedCount s' = getDeletedCount s /\
  (noDeletedSelectedIn s -> noDeletedSelectedIn s') /\
  Forall2 (fun b b' => deleted b = true -> selected b' = true -> selected b = true)
    (getCurrentBoxes s) (getCurrentBoxes s') /\
  (addToSelection = true ->
     Forall2 (fun b b' => selected b = true -> selected b' = true)
       (getCurrentBoxes s) (getCurrentBoxes s')) /\
  (selectionRect = None -> s' = s) /\
  (forall a1 b1 a2 b2 : Q,
     selectionRect =
       Some (Corners.make (Finite a1) (Finite b1) (Finite a2) (Finite b2)) ->
     (Qabs (a2 - a1) < 3)%Q \/ (Qabs (b2 - b1) < 3)%Q -> s' = s).
Proof.
  cbv zeta.
  assert (Hrefl : onlySelectionChanged s s).
  { unfold onlySelectionChanged. repeat split; auto.
    destruct (currentState s) as [st|]; [|reflexivity].
    exists st. repeat split. }
  assert (Hsame : forall s',
    s' = s ->
    onlySelectionChanged s s' /\
    getBoxCount s' = getBoxCount s /\ getDeletedCount s' = getDeletedCount s /\
    (noDeletedSelectedIn s -> noDeletedSelectedIn s') /\
    Forall2 (fun b b' => deleted b = true -> selected b' = true -> selected b = true)
      (getCurrentBoxes s) (getCurrentBoxes s') /\
    (addToSelection = true ->
       Forall2 (fun b b' => selected b = true -> selected b' = true)
         (getCurrentBoxes s) (getCurrentBoxes s'))).
  { intros s' ->. split; [exact Hrefl|]. split; [reflexivity|].
    split; [reflexivity|]. split; [tauto|]. split.
    - induction (getCurrentBoxes s); constructor; auto.
    - intros _. induction (getCurrentBoxes s); constructor; auto. }
  unfold finalizeSelectionRect.
  destruct selectionRect as [r|].
  2:{ destruct (Hsame s eq_refl) as (A & B & C & D & D' & E).
      split; [exact A|]. split; [exact B|]. split; [exact C|].
      split; [exact D|]. split; [exact D'|]. split; [exact E|].
      split; [reflexivity|].
      intros a1 b1 a2 b2 Hr. discriminate Hr. }
  set (x1 := nmin (Corners.x1 r) (Corners.x2 r)).
  set (y1 := nmin (Corners.y1 r) (Corners.y2 r)).
  set (x2 := nmax (Corners.x1 r) (Corners.x2 r)).
  set (y2 := nmax (Corners.y1 r) (Corners.y2 r)).
  destruct (less (nabs (nsub x2 x1)) three || less (nabs (nsub y2 y1)) three)
    eqn:Esmall.
  { destruct (Hsame s eq_refl) as (A & B & C & D & D' & E).
    split; [exact A|]. split; [exact B|]. split; [exact C|].
    split; [exact D|]. split; [exact D'|]. split; [exact E|].
    split; reflexivity. }
  set (rectImg := XYWH _ _ _ _).
  set (f := mutateWhere (caughtBy v rectImg) (setSelected true)).
  assert (Hsel : onlySelectionChanged s
            (withBoxes f (if addToSelection then s else clearSelection s))).
  { destruct addToSelection.
    - apply withBoxes_onlySelection. intros bs. apply caught_sameButSelection.
    - apply (onlySelectionChanged_trans _ (clearSelection s)).
      + apply withBoxes_onlySelection. intros bs.
        apply sameButSelection_pointwise. intros b. apply setSelected_twice.
      + apply withBoxes_onlySelection. intros bs. apply caught_sameButSelection. }
  split; [exact Hsel|].
  destruct (onlySelectionChanged_counts _ _ Hsel) as (C1 & C2 & _).
  split; [exact C1|]. split; [exact C2|].
  split.
  { intros H. apply ndsIn_withBoxes; [intros bs; apply nds_caught|].
    destruct addToSelection; [exact H|].
    apply ndsIn_withBoxes; [apply nds_clear | exact H]. }
  split.
  { unfold getCurrentBoxes.
    destruct (currentState s) as [st|] eqn:Hs.
    - destruct addToSelection.
      + rewrite (withBoxes_state _ _ _ Hs). cbn [boxes].
        apply deleted_not_caught.
      + unfold clearSelection. rewrite withBoxes_compose.
        rewrite (withBoxes_state _ _ _ Hs). cbn [boxes].
        apply deleted_not_caught_cleared.
    - destruct addToSelection.
      + rewrite (withBoxes_none _ _ Hs), Hs. constructor.
      + unfold clearSelection.
        rewrite (withBoxes_none _ _ Hs), (withBoxes_none _ _ Hs), Hs.
        constructor. }
  split.
  { intros ->. unfold getCurrentBoxes.
    destruct (currentState s) as [st|] eqn:Hs.
    - rewrite (withBoxes_state _ _ _ Hs). cbn [boxes].
      apply selected_kept_mutateWhere.
    - rewrite (withBoxes_none _ _ Hs), Hs. constructor. }
  split; [intros H; discriminate H|].
  intros a1 b1 a2 b2 Hr Hs. exfalso. injection Hr as ->.
  unfold x1, x2, y1, y2 in Esmall. cbn [Corners.x1 Corners.x2 Corners.y1
    Corners.y2] in Esmall.
  apply orb_false_iff in Esmall as [E1 E2].
  destruct Hs as [Hs|Hs]; apply drag_small in Hs; congruence.
Qed.

Lemma finalizeSelectionRect_only_selects_witness :
  finalizeSelectionRect true
    (Some (Corners.make (Finite 10) (Finite 10) (Finite 12) (Finite 200)))
    (mkView true (Finite 640) (Finite 480) (Finite 1) (Finite 800) (Finite 600))
    openedSession
  = openedSession.
Proof.
  apply (proj2 (proj2 (proj2 (proj2 (proj2 (proj2 (proj2
    (finalizeSelectionRect_only_selects true
       (Some (Corners.make (Finite 10) (Finite 10) (Finite 12) (Finite 200)))
       (mkView true (Finite 640) (Finite 480) (Finite 1) (Finite 800) (Finite 600))
       openedSession))))))) 10%Q 10%Q 12%Q 200%Q eq_refl).
  left. reflexivity.
Defined.

(** X23 : with numbers as exact rationals (the products, sums and
    differences of getBoxCanvasRect are not rounded to binary64, where a
    width far below one pixel can come out as 0), for a view and a box
    whose numbers are finite, getBoxCanvasRect returns finite numbers: the
    width and height are the normalized width and height times the image
    size times the scale of the view transform, and the centre of the
    rectangle is the canvas point of the box centre.  With a canvas of
    positive size, a zoom between 0.05 and 20 and a box and image of
    positive size the rectangle has positive width and height. *)
Theorem getBoxCanvasRect_scaled (bitmap : bool) (iw ih z cw ch : Q)
    (i : string) (c : Z) (xc yc wd ht : Q) (d sel : bool) (li : nat) :
  let v := mkView bitmap (Finite iw) (Finite ih) (Finite z) (Finite cw) (Finite ch) in
  let sc := scaleQ bitmap iw ih z cw ch in
  exists rx ry rw rh,
    getBoxCanvasRect v
      (mkBox i c (Finite xc) (Finite yc) (Finite wd) (Finite ht) d sel li)
    = (Finite rx, Finite ry, Finite rw, Finite rh) /\
    (rw == wd * iw * sc)%Q /\ (rh == ht * ih * sc)%Q /\
    (rx + rw / 2 == offsetQ cw iw sc + xc * iw * sc)%Q /\
    (ry + rh / 2 == offsetQ ch ih sc + yc * ih * sc)%Q /\
    ((0 < cw)%Q -> (0 < ch)%Q -> inZoomRange z ->
     (0 < iw)%Q -> (0 < ih)%Q -> (0 < wd)%Q -> (0 < ht)%Q ->
     (0 < rw)%Q /\ (0 < rh)%Q).
Proof.
  cbv zeta. unfold getBoxCanvasRect, ofBox, imagePxToCanvasPx.
  cbn [id classId xCenter yCenter width height deleted selected
       currentImageWidth currentImageHeight].
  rewrite toPixelCoords_finite, getViewTransform_finite.
  cbn [Pixel.x Pixel.y Pixel.w Pixel.h scale offsetX offsetY nadd nmul nsub
       nneg fst snd].
  set (sc := scaleQ bitmap iw ih z cw ch).
  eexists _, _, _, _. split; [reflexivity|].
  unfold offsetQ.
  split; [field|]. split; [field|]. split; [field|]. split; [field|].
  intros Hcw Hch [Hz1 Hz2] Hiw Hih Hwd Hht.
  assert (Hsc : (0 < sc)%Q).
  { unfold sc, scaleQ. pose proof (fitScaleQ_pos bitmap iw ih cw ch Hcw Hch).
    apply Qmult_lt_0_compat; lra. }
  split.
  - match goal with
    | |- (0 < ?t)%Q => assert (E : (t == wd * iw * sc)%Q) by field; rewrite E
    end.
    apply Qmult_lt_0_compat; [apply Qmult_lt_0_compat|]; assumption.
  - match goal with
    | |- (0 < ?t)%Q => assert (E : (t == ht * ih * sc)%Q) by field; rewrite E
    end.
    apply Qmult_lt_0_compat; [apply Qmult_lt_0_compat|]; assumption.
Qed.

Lemma getBoxCanvasRect_scaled_witness :
  exists rx ry rw rh,
    getBoxCanvasRect
      (mkView true (Finite 640) (Finite 480) (Finite 1) (Finite 800) (Finite 600))
      (mkBox "a" 0 (Finite (1 # 2)) (Finite (1 # 2)) (Finite (1 # 5))
         (Finite (2 # 5)) false true 0)
    = (Finite rx, Finite ry, Finite rw, Finite rh) /\
    (0 < rw)%Q /\ (0 < rh)%Q.
Proof.
  destruct (getBoxCanvasRect_scaled true 640 480 1 800 600 "a" 0
              (1 # 2) (1 # 2) (1 # 5) (2 # 5) false true 0)
    as (rx & ry & rw & rh & H & _ & _ & _ & _ & Hpos).
  exists rx, ry, rw, rh. split; [exact H|].
  apply Hpos; try reflexivity. split; intros E; discriminate E.
Defined.

(** ** LRUCache: capacity and lookups *)

Section LRUCacheMoreFacts.
Context {K V : Type} `{EqDecision K}.
Variable hasClose : V -> bool.

Lemma mapGet_mapSet (k key : K) (value : V) (m : list (K * V)) :
  mapGet k (mapSet key value m) =
    if decide (k = key) then Some value else mapGet k m.
Proof.
  induction m as [|[k0 v0] r IH]; cbn [mapSet mapGet].
  - destruct (decide (key = k)), (decide (k = key)); congruence.
  - destruct (decide (k0 = key)) as [E|E]; cbn [mapGet].
    + destruct (decide (k0 = k)), (decide (k = key)); congruence.
    + destruct (decide (k0 = k)), (decide (k = key)); try congruence.
Qed.

Lemma mapGet_mapDelete_other (k key : K) (m : list (K * V)) :
  k <> key -> mapGet k (mapDelete key m) = mapGet k m.
Proof.
  intros Hne. induction m as [|[k0 v0] r IH]; cbn [mapDelete mapGet]; [reflexivity|].
  destruct (decide (k0 = key)) as [E|E]; cbn [mapGet].
  - destruct (decide (k0 = k)); [congruence | reflexivity].
  - destruct (decide (k0 = k)); [reflexivity | exact IH].
Qed.

Lemma mapGet_mapDelete_same (key : K) (m : list (K * V)) :
  NoDup (map fst m) -> mapGet key (mapDelete key m) = None.
Proof. intros Hnd. apply mapGet_none, mapDelete_removes, Hnd. Qed.

Lemma mapHas_false (key : K) (m : list (K * V)) :
  mapHas key m = false <-> ~ In key (map fst m).
Proof.
  rewrite <- mapHas_true. destruct (mapHas key m); split; congruence.
Qed.

Lemma promoted_NoDup (key : K) (value : V) (m : list (K * V)) :
  NoDup (map fst m) -> NoDup (map fst (promoted key value m)).
Proof.
  intros Hnd. unfold promoted. rewrite map_app. cbn [map fst].
  apply NoDup_app.
  split; [apply (mapDelete_NoDup hasClose), Hnd|]. split; [|apply NoDup_singleton].
  - intros x Hx Hx1. apply list_elem_of_In in Hx. apply list_elem_of_In in Hx1.
    cbn in Hx1. destruct Hx1 as [<-|[]].
    exact (mapDelete_removes key m Hnd Hx).
Qed.

Lemma promoted_length (key : K) (value : V) (m : list (K * V)) :
  In key (map fst m) -> length (promoted key value m) = length m.
Proof.
  intros Hin. unfold promoted. rewrite length_app. cbn [length].
  pose proof (mapDelete_length key m Hin). lia.
Qed.

Lemma lruWellFormed_step (c : LRUCache K V) (o : LruOp K V) :
  lruWellFormed c ->
  lruWellFormed (lruStep hasClose c o) /\
  maxSize (lruStep hasClose c o) = maxSize c.
Proof.
  unfold lruWellFormed, lruKeys, lruSize. intros [Hnd Hsz].
  destruct o as [key | key value | key | key |]; cbn [lruStep].
  - destruct (mapGet key (cache c)) as [value|] eqn:Eg.
    + rewrite (lruGet_present key value c Hnd Eg). cbn [snd cache maxSize].
      assert (Hin : In key (map fst (cache c))).
      { apply mapHas_true. unfold mapHas. now rewrite Eg. }
      rewrite promoted_length by exact Hin.
      split; [split; [apply promoted_NoDup, Hnd | exact Hsz] | reflexivity].
    + unfold lruGet. rewrite Eg. cbn [snd]. auto.
  - destruct (mapHas key (cache c)) eqn:Eh.
    + rewrite (lruSet_present hasClose key value c Hnd Eh). cbn [cache maxSize].
      rewrite promoted_length by (apply mapHas_true, Eh).
      split; [split; [apply promoted_NoDup, Hnd | exact Hsz] | reflexivity].
    + assert (Hnin : ~ In key (map fst (cache c))) by (apply mapHas_false, Eh).
      destruct (Z_lt_le_dec (Z.of_nat (length (cache c))) (maxSize c)) as [Hlt|Hge].
      * rewrite (lruSet_room hasClose key value c Eh Hlt). cbn [cache maxSize].
        split; [|reflexivity]. split.
        -- rewrite map_app. cbn [map fst].
           apply NoDup_app. split; [exact Hnd|]. split; [|apply NoDup_singleton].
           intros x Hx Hx1. apply list_elem_of_In in Hx.
           apply list_elem_of_In in Hx1. cbn in Hx1. destruct Hx1 as [<-|[]].
           contradiction.
        -- rewrite length_app. cbn [length]. lia.
      * destruct (cache c) as [|[fk ev] rest] eqn:Ec.
        -- unfold lruSet. rewrite Ec. unfold mapHas. cbn [mapGet length].
           destruct (Z.of_nat 0 >=? maxSize c); cbn [cache maxSize mapSet];
             (split; [|reflexivity]); (split; [|cbn; lia]);
             cbn; apply NoDup_singleton.
        -- rewrite (lruSet_evicts hasClose key value c fk ev rest);
             [|rewrite Ec; exact Hnd | rewrite Ec; exact Eh | rewrite Ec; lia | exact Ec].
           cbn [cache maxSize]. split; [|reflexivity].
           cbn [map fst] in Hnd, Hnin. apply NoDup_cons in Hnd as [Hfk Hrest].
           split.
           ++ rewrite map_app. cbn [map fst].
              apply NoDup_app. split; [exact Hrest|].
              split; [|apply NoDup_singleton].
              intros x Hx Hx1. apply list_elem_of_In in Hx.
              apply list_elem_of_In in Hx1. cbn in Hx1. destruct Hx1 as [<-|[]].
              apply Hnin. right. exact Hx.
           ++ rewrite length_app. cbn [length] in *. lia.
  - auto.
  - unfold lruDelete. destruct (mapGet key (cache c)) as [value|] eqn:Eg;
      cbn [snd cache maxSize]; [|auto].
    assert (Hin : In key (map fst (cache c))).
    { apply mapHas_true. unfold mapHas. now rewrite Eg. }
    pose proof (mapDelete_length key (cache c) Hin).
    split; [split; [apply (mapDelete_NoDup hasClose), Hnd | lia] | reflexivity].
  - unfold lruClear. cbn [cache maxSize]. split; [|reflexivity].
    split; [apply NoDup_nil_2 | cbn; lia].
Qed.

(** X24 : starting from new LRUCache(n), after any sequence of get, set,
    has, delete and clear the cache holds every key once and at most
    max(1, n) entries, and its capacity is still n: set evicts before it
    inserts, and a capacity of 0 or less still keeps the one entry that
    was set last. *)
Theorem lru_capacity_invariant (n : Z) (ops : list (LruOp K V)) :
  let c := lruRun hasClose ops (newLRUCache n) in
  NoDup (lruKeys c) /\ lruSize c <= Z.max 1 n /\ maxSize c = n /\
  (forall key value,
     n <= 0 -> lruKeys (lruSet hasClose key value c) = [key]).
Proof.
  cbv zeta.
  assert (Hgen : forall c : LRUCache K V,
    lruWellFormed c ->
    lruWellFormed (lruRun hasClose ops c) /\
    maxSize (lruRun hasClose ops c) = maxSize c).
  { induction ops as [|o r IH]; intros c Hc; [auto|].
    change (lruRun hasClose (o :: r) c) with (lruRun hasClose r (lruStep hasClose c o)).
    destruct (lruWellFormed_step c o Hc) as [H1 H2].
    destruct (IH _ H1) as [H3 H4]. split; [exact H3 | congruence]. }
  destruct (Hgen (newLRUCache n)) as [[Hnd Hsz] Hm].
  { split; [apply NoDup_nil_2 | unfold lruSize; cbn; lia]. }
  cbn [newLRUCache maxSize] in Hm. rewrite Hm in Hsz.
  split; [exact Hnd|]. split; [exact Hsz|]. split; [exact Hm|].
  intros key value Hn.
  set (c := lruRun hasClose ops (newLRUCache n)) in *.
  unfold lruSize in Hsz. rewrite Z.max_l in Hsz by lia.
  unfold lruKeys in *.
  destruct (cache c) as [|[k0 v0] [|kv rest]] eqn:Ec;
    [| |cbn [length] in Hsz; lia].
  - unfold lruSet, mapHas. rewrite Ec. cbn [mapGet length].
    destruct (Z.of_nat 0 >=? maxSize c); reflexivity.
  - unfold lruSet, mapHas. rewrite Ec. cbn [mapGet mapDelete mapSet length].
    destruct (decide (k0 = key)) as [->|Hne].
    + cbn. destruct (decide (key = key)); [reflexivity | congruence].
    + rewrite Hm. destruct (Z.of_nat 1 >=? n) eqn:E.
      * cbn. destruct (decide (k0 = k0)); [reflexivity | congruence].
      * rewrite Z.geb_leb in E. apply Z.leb_gt in E. lia.
Qed.

(** X25 : on a cache that holds every key once, set(key, value) makes
    get(key) return the value and makes the key the newest one; every
    other key keeps its value, except the oldest key when the key was
    absent and the cache was full, which is the one entry that goes. *)
Theorem lru_lookup_after_set (c : LRUCache K V) (key : K) (value : V) :
  NoDup (lruKeys c) ->
  let c' := lruSet hasClose key value c in
  fst (lruGet key c') = Some value /\
  (exists older, lruKeys c' = older ++ [key]) /\
  (forall k, k <> key ->
     lruHas key c = true \/ lruSize c < maxSize c \/ head (lruKeys c) <> Some k ->
     mapGet k (cache c') = mapGet k (cache c)) /\
  (forall k, lruHas key c = false -> maxSize c <= lruSize c ->
     head (lruKeys c) = Some k -> lruHas k c' = false).
Proof.
  unfold lruKeys, lruHas, lruSize. intros Hnd. cbv zeta.
  assert (Hget : forall m, mapGet key (m ++ [(key, value)]) = Some value ->
            fst (lruGet key (mkLRUCache (maxSize c) (m ++ [(key, value)])
                               (closeCalls c))) = Some value).
  { intros m Hm. unfold lruGet. cbn [cache]. now rewrite Hm. }
  destruct (mapHas key (cache c)) eqn:Eh.
  - rewrite (lruSet_present hasClose key value c Hnd Eh). unfold promoted.
    cbn [cache].
    assert (Hnin : ~ In key (map fst (mapDelete key (cache c))))
      by (apply mapDelete_removes, Hnd).
    rewrite <- (mapSet_absent key value _ Hnin).
    split; [|split; [|split]].
    + unfold lruGet. cbn [cache]. rewrite mapGet_mapSet.
      destruct (decide (key = key)); [reflexivity | congruence].
    + rewrite (mapSet_absent key value _ Hnin), map_app. cbn. eauto.
    + intros k Hk _. rewrite mapGet_mapSet.
      destruct (decide (k = key)); [congruence|].
      apply mapGet_mapDelete_other, Hk.
    + intros k Hf. discriminate Hf.
  - assert (Hnin : ~ In key (map fst (cache c))) by (apply mapHas_false, Eh).
    destruct (Z_lt_le_dec (Z.of_nat (length (cache c))) (maxSize c)) as [Hlt|Hge].
    + rewrite (lruSet_room hasClose key value c Eh Hlt). cbn [cache].
      rewrite <- (mapSet_absent key value _ Hnin).
      split; [|split; [|split]].
      * unfold lruGet. cbn [cache]. rewrite mapGet_mapSet.
        destruct (decide (key = key)); [reflexivity | congruence].
      * rewrite (mapSet_absent key value _ Hnin), map_app. cbn. eauto.
      * intros k Hk _. rewrite mapGet_mapSet.
        destruct (decide (k = key)); [congruence | reflexivity].
      * intros k _ Hfull. lia.
    + destruct (cache c) as [|[fk ev] rest] eqn:Ec.
      * unfold lruSet. rewrite Ec. unfold mapHas. cbn [mapGet length].
        assert (E : mkLRUCache (maxSize c) (mapSet key value []) (closeCalls c)
                    = mkLRUCache (maxSize c) [(key, value)] (closeCalls c))
          by reflexivity.
        assert (Hres : (if Z.of_nat 0 >=? maxSize c
                        then mkLRUCache (maxSize c) (mapSet key value [])
                               (closeCalls c)
                        else mkLRUCache (maxSize c) (mapSet key value [])
                               (closeCalls c))
                       = mkLRUCache (maxSize c) [(key, value)] (closeCalls c))
          by (destruct (Z.of_nat 0 >=? maxSize c); reflexivity).
        rewrite Hres. cbn [cache].
        split; [|split; [|split]].
        -- unfold lruGet. cbn [cache mapGet].
           destruct (decide (key = key)); [reflexivity | congruence].
        -- exists []. reflexivity.
        -- intros k Hk _. cbn [mapGet].
           destruct (decide (key = k)); [congruence | reflexivity].
        -- intros k _ _ Hhead. discriminate Hhead.
      * rewrite (lruSet_evicts hasClose key value c fk ev rest);
          [|rewrite Ec; exact Hnd | rewrite Ec; exact Eh | rewrite Ec; lia | exact Ec].
        cbn [cache].
        cbn [map fst] in Hnd, Hnin. apply NoDup_cons in Hnd as [Hfk Hrest].
        assert (Hnin' : ~ In key (map fst rest))
          by (intros Hin; apply Hnin; right; exact Hin).
        rewrite <- (mapSet_absent key value _ Hnin').
        split; [|split; [|split]].
        -- unfold lruGet. cbn [cache]. rewrite mapGet_mapSet.
           destruct (decide (key = key)); [reflexivity | congruence].
        -- rewrite (mapSet_absent key value _ Hnin'), map_app. cbn. eauto.
        -- intros k Hk Hcase. rewrite mapGet_mapSet.
           destruct (decide (k = key)); [congruence|].
           cbn [mapGet]. destruct (decide (fk = k)) as [->|Hne]; [|reflexivity].
           exfalso. destruct Hcase as [Hc | [Hc | Hc]];
             [discriminate Hc | cbn [length] in *; lia | apply Hc; reflexivity].
        -- intros k _ _ Hhead. cbn in Hhead. injection Hhead as <-.
           unfold mapHas. rewrite mapGet_mapSet.
           destruct (decide (fk = key)) as [->|Hne];
             [exfalso; apply Hnin; left; reflexivity|].
           assert (Hn : mapGet fk rest = None).
           { apply mapGet_none. intros Hin. apply Hfk, list_elem_of_In, Hin. }
           now rewrite Hn.
Qed.

(** X26 : on a cache that holds every key once, get changes the order
    only: every key maps to what it mapped to before, a hit returns the
    stored value and a miss returns null and leaves the cache as it is.
    delete returns whether the key was present; afterwards has(key) is
    false, every other key maps to what it mapped to before, and deleting
    an absent key changes nothing. *)
Theorem lru_get_delete_lookup (c : LRUCache K V) (key : K) :
  NoDup (lruKeys c) ->
  fst (lruGet key c) = mapGet key (cache c) /\
  (forall k, mapGet k (cache (snd (lruGet key c))) = mapGet k (cache c)) /\
  (lruHas key c = false -> lruGet key c = (None, c)) /\
  fst (lruDelete hasClose key c) = lruHas key c /\
  lruHas key (snd (lruDelete hasClose key c)) = false /\
  (forall k, k <> key ->
     mapGet k (cache (snd (lruDelete hasClose key c))) = mapGet k (cache c)) /\
  (lruHas key c = false -> lruDelete hasClose key c = (false, c)).
Proof.
  unfold lruKeys, lruHas, mapHas, lruGet, lruDelete. intros Hnd.
  destruct (mapGet key (cache c)) as [value|] eqn:Eg; cbn [fst snd cache].
  - split; [reflexivity|]. split.
    { intros k. rewrite mapGet_mapSet. destruct (decide (k = key)) as [->|Hne].
      - now rewrite Eg.
      - apply mapGet_mapDelete_other, Hne. }
    split; [discriminate|]. split; [reflexivity|].
    split; [now rewrite (mapGet_mapDelete_same key _ Hnd)|].
    split; [intros k Hk; apply mapGet_mapDelete_other, Hk | discriminate].
  - rewrite Eg. repeat split; reflexivity.
Qed.

End LRUCacheMoreFacts.

Lemma lru_lookup_after_set_witness :
  fst (lruGet 3 (lruSet (fun _ : string => true) 3 "c"
                   (mkLRUCache 2 [(1, "a"); (2, "b")] []))) = Some "c" /\
  lruHas 1 (lruSet (fun _ : string => true) 3 "c"
              (mkLRUCache 2 [(1, "a"); (2, "b")] [])) = false.
Proof.
  assert (Hnd : NoDup (lruKeys (mkLRUCache 2 [(1, "a"); (2, "b")] ([] : list string)))).
  { apply (bool_decide_unpack _). vm_compute. exact I. }
  pose proof (lru_lookup_after_set (fun _ : string => true)
    (mkLRUCache 2 [(1, "a"); (2, "b")] []) 3 "c" Hnd) as H.
  cbv zeta in H. destruct H as (H1 & _ & _ & H4).
  split; [exact H1|]. apply (H4 1); [reflexivity | unfold lruSize; cbn; lia | reflexivity].
Defined.

Lemma lru_get_delete_lookup_witness :
  lruHas 1 (snd (lruDelete (fun _ : string => true) 1
                   (mkLRUCache 2 [(1, "a"); (2, "b")] []))) = false /\
  lruDelete (fun _ : string => true) 5 (mkLRUCache 2 [(1, "a"); (2, "b")] [])
    = (false, mkLRUCache 2 [(1, "a"); (2, "b")] []).
Proof.
  assert (Hnd : NoDup (lruKeys (mkLRUCache 2 [(1, "a"); (2, "b")] ([] : list string)))).
  { apply (bool_decide_unpack _). vm_compute. exact I. }
  split.
  - exact (proj1 (proj2 (proj2 (proj2 (proj2
      (lru_get_delete_lookup (fun _ : string => true)
         (mkLRUCache 2 [(1, "a"); (2, "b")] []) 1 Hnd)))))).
  - apply (proj2 (proj2 (proj2 (proj2 (proj2 (proj2
      (lru_get_delete_lookup (fun _ : string => true)
         (mkLRUCache 2 [(1, "a"); (2, "b")] []) 5 Hnd))))))).
    reflexivity.
Defined.

Lemma lru_capacity_invariant_witness :
  lruKeys (lruSet (fun _ : string => true) 3 "c"
             (lruRun (fun _ : string => true) [LruSet 1 "a"; LruSet 2 "b"]
                (newLRUCache 0))) = [3].
Proof.
  apply (proj2 (proj2 (proj2 (lru_capacity_invariant (fun _ : string => true) 0
    [LruSet 1 "a"; LruSet 2 "b"])))).
  lia.
Defined.

(** ** DatasetLoader: the index, the modified flags and the search *)

Lemma at_Some (i : Z) (d : DatasetLoader.t) (e : DatasetLoader.Entry) :
  DatasetLoader.at_ i d = Some e ->
  0 <= i /\ DatasetLoader.index d !! Z.to_nat i = Some e /\
  DatasetLoader.inRange i d = true.
Proof.
  unfold DatasetLoader.at_, DatasetLoader.inRange, DatasetLoader.count.
  destruct (i >=? 0) eqn:E; [|discriminate].
  rewrite Z.geb_leb in E. apply Z.leb_le in E. intros H.
  split; [exact E|]. split; [exact H|].
  apply lookup_lt_Some in H. cbn [andb]. apply Z.ltb_lt. lia.
Qed.

Lemma at_inRange (i : Z) (d : DatasetLoader.t) :
  DatasetLoader.inRange i d = true ->
  exists e, DatasetLoader.at_ i d = Some e /\
            DatasetLoader.index d !! Z.to_nat i = Some e.
Proof.
  unfold DatasetLoader.at_, DatasetLoader.inRange, DatasetLoader.count.
  intros H. apply andb_true_iff in H as [H1 H2]. rewrite H1.
  rewrite Z.geb_leb in H1. apply Z.leb_le in H1. apply Z.ltb_lt in H2.
  destruct (DatasetLoader.index d !! Z.to_nat i) as [e|] eqn:E; [eauto|].
  apply lookup_ge_None in E. lia.
Qed.

Lemma at_outOfRange (i : Z) (d : DatasetLoader.t) :
  DatasetLoader.inRange i d = false -> DatasetLoader.at_ i d = None.
Proof.
  intros H. destruct (DatasetLoader.at_ i d) as [e|] eqn:E; [|reflexivity].
  apply at_Some in E. destruct E as (_ & _ & E). congruence.
Qed.

Lemma at_alter_same f (i : Z) (d : DatasetLoader.t) (c : gmap Z (list Box)) :
  DatasetLoader.at_ i
    (DatasetLoader.mk (alter f (Z.to_nat i) (DatasetLoader.index d)) c)
  = f <$> DatasetLoader.at_ i d.
Proof.
  unfold DatasetLoader.at_. cbn [DatasetLoader.index].
  destruct (i >=? 0); [apply list_lookup_alter_eq | reflexivity].
Qed.

Lemma at_alter_other f (i j : Z) (d : DatasetLoader.t) (c : gmap Z (list Box)) :
  0 <= i -> j <> i ->
  DatasetLoader.at_ j
    (DatasetLoader.mk (alter f (Z.to_nat i) (DatasetLoader.index d)) c)
  = DatasetLoader.at_ j d.
Proof.
  intros Hi Hne. unfold DatasetLoader.at_. cbn [DatasetLoader.index].
  destruct (j >=? 0) eqn:E; [|reflexivity].
  rewrite Z.geb_leb in E. apply Z.leb_le in E.
  apply list_lookup_alter_ne. lia.
Qed.

Lemma inRange_alter f (i j : Z) (d : DatasetLoader.t) (c : gmap Z (list Box)) :
  DatasetLoader.inRange j
    (DatasetLoader.mk (alter f (Z.to_nat i) (DatasetLoader.index d)) c)
  = DatasetLoader.inRange j d.
Proof.
  unfold DatasetLoader.inRange, DatasetLoader.count. cbn [DatasetLoader.index].
  now rewrite length_alter.
Qed.

Lemma inRange_nonneg (i : Z) (d : DatasetLoader.t) :
  DatasetLoader.inRange i d = true -> 0 <= i.
Proof.
  unfold DatasetLoader.inRange. intros H. apply andb_true_iff in H as [H _].
  rewrite Z.geb_leb in H. now apply Z.leb_le in H.
Qed.

(** [markModified], [markSaved] and [isModified] of the loader check the
    index: outside [0 .. count - 1] the first two change nothing and
    [isModified] answers false; inside, [isModified] answers true after
    [markModified] and false after [markSaved], and no other entry
    changes. *)
Lemma loader_flag_in_bounds (i : Z) (d : DatasetLoader.t) :
  (DatasetLoader.inRange i d = false ->
     DatasetLoader.markModified i d = d /\ DatasetLoader.markSaved i d = d /\
     DatasetLoader.isModified i d = false /\ DatasetLoader.getEntry i d = None) /\
  (DatasetLoader.inRange i d = true ->
     DatasetLoader.isModified i (DatasetLoader.markModified i d) = true /\
     DatasetLoader.isModified i (DatasetLoader.markSaved i d) = false /\
     DatasetLoader.count (DatasetLoader.markModified i d) = DatasetLoader.count d /\
     DatasetLoader.count (DatasetLoader.markSaved i d) = DatasetLoader.count d /\
     (forall j, j <> i ->
        DatasetLoader.getEntry j (DatasetLoader.markModified i d)
          = DatasetLoader.getEntry j d /\
        DatasetLoader.getEntry j (DatasetLoader.markSaved i d)
          = DatasetLoader.getEntry j d)).
Proof.
  split.
  - intros H. unfold DatasetLoader.markModified, DatasetLoader.markSaved,
      DatasetLoader.isModified, DatasetLoader.getEntry. rewrite H.
    repeat split. apply at_outOfRange, H.
  - intros H. pose proof (inRange_nonneg i d H) as Hi.
    destruct (at_inRange i d H) as (e & He & _).
    unfold DatasetLoader.markModified, DatasetLoader.markSaved,
      DatasetLoader.isModified, DatasetLoader.getEntry, DatasetLoader.count.
    rewrite H, !inRange_alter, H, !at_alter_same, He.
    cbn [fmap option_fmap option_map DatasetLoader.setModified
         DatasetLoader.modified DatasetLoader.index].
    rewrite !length_alter.
    split; [reflexivity|]. split; [reflexivity|]. split; [reflexivity|].
    split; [reflexivity|].
    intros j Hj. split; apply at_alter_other; assumption.
Qed.

Lemma indexed_In (l : list DatasetLoader.Entry) (i : Z) (e : DatasetLoader.Entry) :
  In (i, e) (DatasetLoader.indexed l) <-> 0 <= i /\ l !! Z.to_nat i = Some e.
Proof.
  unfold DatasetLoader.indexed. rewrite <- list_elem_of_In, elem_of_lookup_imap.
  split.
  - intros (k & y & Hxy & Hk). injection Hxy as -> ->.
    split; [lia|]. now rewrite Nat2Z.id.
  - intros [Hi He]. exists (Z.to_nat i), e. split; [|exact He].
    f_equal. lia.
Qed.

Lemma indexed_at (d : DatasetLoader.t) (i : Z) (e : DatasetLoader.Entry) :
  In (i, e) (DatasetLoader.indexed (DatasetLoader.index d)) <->
  DatasetLoader.getEntry i d = Some e.
Proof.
  rewrite indexed_In. unfold DatasetLoader.getEntry, DatasetLoader.at_.
  destruct (i >=? 0) eqn:E; rewrite Z.geb_leb in E.
  - apply Z.leb_le in E. tauto.
  - apply Z.leb_gt in E. split; [lia | discriminate].
Qed.

Lemma increasing_cons (a : Z) (r : list Z) :
  Forall (fun j => a < j) r -> increasing r -> increasing (a :: r).
Proof.
  intros Hall Hr. cbn [increasing]. split; [|exact Hr].
  destruct r as [|b r']; [exact I|]. now inversion Hall.
Qed.

Lemma filter_indexed_increasing (p : Z * DatasetLoader.Entry -> bool)
    (l : list DatasetLoader.Entry) (k : nat) :
  let r := List.filter p (imap (fun i e => (Z.of_nat (k + i), e)) l) in
  increasing (map fst r) /\ Forall (fun j => Z.of_nat k <= j) (map fst r).
Proof.
  revert k. induction l as [|x l IH]; intros k; cbn zeta.
  - cbn. split; [exact I | constructor].
  - rewrite imap_cons. cbn [List.filter].
    assert (Hext : imap ((fun i e => (Z.of_nat (k + i), e)) ∘ S) l
                   = imap (fun i e => (Z.of_nat (S k + i), e)) l).
    { apply imap_ext. intros i y _. cbn. f_equal. lia. }
    rewrite Hext. destruct (IH (S k)) as [Hinc Hall]. cbv zeta in Hinc, Hall.
    assert (Hall' : Forall (fun j => Z.of_nat k < j)
              (map fst (List.filter p
                 (imap (fun i e => (Z.of_nat (S k + i), e)) l)))).
    { eapply Forall_impl; [exact Hall|]. cbn. intros j Hj. lia. }
    destruct (p (Z.of_nat (k + 0), x)).
    + cbn [map fst]. split.
      * apply increasing_cons; [|exact Hinc].
        rewrite Nat.add_0_r. exact Hall'.
      * constructor; [lia|].
        eapply Forall_impl; [exact Hall'|]. cbn. intros j Hj. lia.
    + split; [exact Hinc|].
      eapply Forall_impl; [exact Hall'|]. cbn. intros j Hj. lia.
Qed.

Lemma filter_indexed_sorted (p : Z * DatasetLoader.Entry -> bool)
    (l : list DatasetLoader.Entry) :
  increasing (indicesOf (List.filter p (DatasetLoader.indexed l))).
Proof.
  exact (proj1 (filter_indexed_increasing p l 0)).
Qed.

Lemma filter_imap_length (q : DatasetLoader.Entry -> bool)
    (l : list DatasetLoader.Entry) :
  forall f : nat -> DatasetLoader.Entry -> Z * DatasetLoader.Entry,
    (forall i e, snd (f i e) = e) ->
    length (List.filter (fun p => q (snd p)) (imap f l))
    = length (List.filter q l).
Proof.
  induction l as [|x l IH]; intros f Hf; [reflexivity|].
  rewrite imap_cons. cbn [List.filter]. rewrite Hf.
  assert (Hr : length (List.filter (fun p => q (snd p)) (imap (f ∘ S) l))
               = length (List.filter q l))
    by (apply IH; intros i e; apply Hf).
  destruct (q x); cbn [length]; now rewrite Hr.
Qed.

Lemma filter_true {A} (l : list A) : List.filter (fun _ => true) l = l.
Proof.
  induction l as [|x l IH]; [reflexivity|]. cbn [List.filter]. now rewrite IH.
Qed.

Lemma isModified_iff (i : Z) (d : DatasetLoader.t) :
  DatasetLoader.isModified i d = true <->
  exists e, DatasetLoader.getEntry i d = Some e /\
            DatasetLoader.modified e = true.
Proof.
  unfold DatasetLoader.isModified, DatasetLoader.getEntry.
  destruct (DatasetLoader.inRange i d) eqn:Er.
  - destruct (DatasetLoader.at_ i d) as [e|].
    + split; [eauto | intros (e' & He & Hm); congruence].
    + split; [discriminate | intros (e' & He & _); discriminate].
  - rewrite (at_outOfRange i d Er).
    split; [discriminate | intros (e' & He & _); discriminate].
Qed.

(** X27 : getModifiedEntries lists exactly the entries whose modified flag
    is set, each with its own position in the index, in increasing order
    of position; an index appears in it exactly when isModified answers
    true.  getModifiedCount is the length of that list, and in getStats
    the modified count is the same number, withLabels and withoutLabels
    add up to the total, and no count is negative. *)
Theorem getModifiedEntries_exact (d : DatasetLoader.t) :
  (forall i e, In (i, e) (DatasetLoader.getModifiedEntries d) <->
     DatasetLoader.getEntry i d = Some e /\ DatasetLoader.modified e = true) /\
  (forall i, In i (indicesOf (DatasetLoader.getModifiedEntries d)) <->
     DatasetLoader.isModified i d = true) /\
  increasing (indicesOf (DatasetLoader.getModifiedEntries d)) /\
  DatasetLoader.getModifiedCount d
    = Z.of_nat (length (DatasetLoader.getModifiedEntries d)) /\
  (let st := DatasetLoader.getStats d in
   DatasetLoader.modifiedCount st = DatasetLoader.getModifiedCount d /\
   DatasetLoader.total st = DatasetLoader.count d /\
   DatasetLoader.withLabels st + DatasetLoader.withoutLabels st
     = DatasetLoader.total st /\
   0 <= DatasetLoader.withLabels st /\ 0 <= DatasetLoader.withoutLabels st /\
   0 <= DatasetLoader.modifiedCount st <= DatasetLoader.total st).
Proof.
  assert (Hin : forall i e, In (i, e) (DatasetLoader.getModifiedEntries d) <->
     DatasetLoader.getEntry i d = Some e /\ DatasetLoader.modified e = true).
  { intros i e. unfold DatasetLoader.getModifiedEntries.
    rewrite filter_In, indexed_at. cbn [snd]. tauto. }
  split; [exact Hin|]. split; [|split; [|split]].
  - intros i. rewrite isModified_iff. unfold indicesOf. rewrite in_map_iff.
    split.
    + intros ([j e] & Hj & Hp). cbn in Hj. subst j. exists e. now apply Hin.
    + intros (e & He). exists (i, e). split; [reflexivity | now apply Hin].
  - apply filter_indexed_sorted.
  - unfold DatasetLoader.getModifiedCount, DatasetLoader.getModifiedEntries,
      DatasetLoader.indexed.
    now rewrite (filter_imap_length (fun e => DatasetLoader.modified e)).
  - cbv zeta. unfold DatasetLoader.getStats, DatasetLoader.getModifiedCount,
      DatasetLoader.count.
    cbn [DatasetLoader.modifiedCount DatasetLoader.total DatasetLoader.withLabels
         DatasetLoader.withoutLabels].
    pose proof (filter_length_le (fun e => DatasetLoader.hasLabel e)
                  (fun _ => true) (DatasetLoader.index d) (fun _ _ => eq_refl)) as H1.
    pose proof (filter_length_le (fun e => DatasetLoader.modified e)
                  (fun _ => true) (DatasetLoader.index d) (fun _ _ => eq_refl)) as H2.
    rewrite filter_true in H1, H2. repeat split; lia.
Qed.

Lemma getModifiedEntries_exact_witness :
  In 1 (indicesOf (DatasetLoader.getModifiedEntries
    (DatasetLoader.mk
       [DatasetLoader.mkEntry "a.jpg" "a" true false true false None;
        DatasetLoader.mkEntry "b.jpg" "b" false false false true None] ∅))).
Proof.
  apply (proj2 (proj1 (proj2 (getModifiedEntries_exact
    (DatasetLoader.mk
       [DatasetLoader.mkEntry "a.jpg" "a" true false true false None;
        DatasetLoader.mkEntry "b.jpg" "b" false false false true None] ∅))) 1)).
  reflexivity.
Defined.

Lemma isPrefix_spec (p s : chars) :
  isPrefix p s = true <-> exists b, s = p ++ b.
Proof.
  revert s. induction p as [|a p IH]; intros s; cbn [isPrefix].
  - split; [intros _; exists s; reflexivity | reflexivity].
  - destruct s as [|c s].
    + split; [discriminate | intros [b Hb]; discriminate Hb].
    + rewrite andb_true_iff, Ascii.eqb_eq, IH. split.
      * intros [-> [b ->]]. exists b. reflexivity.
      * intros [b Hb]. injection Hb as -> ->. eauto.
Qed.

Lemma includes_spec (s sub : chars) :
  includes s sub = true <-> exists a b, s = a ++ sub ++ b.
Proof.
  induction s as [|c s IH]; cbn [includes]; rewrite orb_true_iff, isPrefix_spec.
  - split.
    + intros [[b Hb] | H]; [exists [], b; exact Hb | discriminate H].
    + intros (a & b & H). left. destruct a as [|x a]; [|discriminate H].
      exists b. exact H.
  - rewrite IH. split.
    + intros [[b Hb] | (a & b & ->)]; [exists [], b; exact Hb|].
      exists (c :: a), b. reflexivity.
    + intros (a & b & H). destruct a as [|x a].
      * left. exists b. exact H.
      * right. injection H as -> ->. eauto.
Qed.

Lemma lowerChar_white (c : ascii) : isWhiteSpace (lowerChar c) = isWhiteSpace c.
Proof. destruct c as [[] [] [] [] [] [] [] []]; reflexivity. Qed.

Lemma forallb_dropWhile (s : chars) :
  forallb isWhiteSpace (dropWhile isWhiteSpace s) = forallb isWhiteSpace s.
Proof.
  induction s as [|c s IH]; [reflexivity|]. cbn [dropWhile forallb].
  destruct (isWhiteSpace c) eqn:E; [exact IH|].
  cbn [forallb]. now rewrite E.
Qed.

Lemma trim_nil_iff (s : chars) :
  trim s = [] <-> forallb isWhiteSpace s = true.
Proof.
  unfold trim, trimStart. now rewrite trimEnd_nil_iff, forallb_dropWhile.
Qed.

Lemma blank_toLowerCase (s : chars) :
  forallb isWhiteSpace (toLowerCase s) = forallb isWhiteSpace s.
Proof.
  unfold toLowerCase. induction s as [|c s IH]; [reflexivity|].
  cbn [map forallb]. now rewrite lowerChar_white, IH.
Qed.

Lemma search_unfold (query : string) (d : DatasetLoader.t) :
  DatasetLoader.search query d =
    if forallb isWhiteSpace (chr query)
    then DatasetLoader.indexed (DatasetLoader.index d)
    else List.filter
           (fun p => includes (toLowerCase (chr (DatasetLoader.name (snd p))))
                       (toLowerCase (chr query)))
           (DatasetLoader.indexed (DatasetLoader.index d)).
Proof.
  unfold DatasetLoader.search.
  destruct (forallb isWhiteSpace (chr query)) eqn:E.
  - apply trim_nil_iff in E. rewrite E. destruct (chr query); reflexivity.
  - destruct (trim (chr query)) as [|c t] eqn:Et.
    + apply trim_nil_iff in Et. congruence.
    + destruct (chr query) as [|c0 q0]; [discriminate E | reflexivity].
Qed.

(** X28 : search returns entries of the index, each with its own position,
    in increasing order of position.  A query that is empty or only white
    space returns every entry; any other query returns exactly the entries
    whose lower-cased name contains the lower-cased query as a contiguous
    piece; two queries that differ only in the case of their letters give
    the same result. *)
Theorem search_results (query : string) (d : DatasetLoader.t) :
  (forall i e, In (i, e) (DatasetLoader.search query d) ->
     DatasetLoader.getEntry i d = Some e) /\
  increasing (indicesOf (DatasetLoader.search query d)) /\
  (trim (chr query) = [] ->
     DatasetLoader.search query d = DatasetLoader.indexed (DatasetLoader.index d) /\
     Z.of_nat (length (DatasetLoader.search query d)) = DatasetLoader.count d) /\
  (trim (chr query) <> [] ->
     forall i e, In (i, e) (DatasetLoader.search query d) <->
       DatasetLoader.getEntry i d = Some e /\
       exists a b, toLowerCase (chr (DatasetLoader.name e))
                   = a ++ toLowerCase (chr query) ++ b) /\
  (forall query', toLowerCase (chr query') = toLowerCase (chr query) ->
     DatasetLoader.search query' d = DatasetLoader.search query d).
Proof.
  rewrite search_unfold.
  split; [|split; [|split; [|split]]].
  - intros i e. destruct (forallb isWhiteSpace (chr query)).
    + apply indexed_at.
    + rewrite filter_In, indexed_at. tauto.
  - destruct (forallb isWhiteSpace (chr query)).
    + rewrite <- (filter_true (DatasetLoader.indexed (DatasetLoader.index d))).
      apply filter_indexed_sorted.
    + apply filter_indexed_sorted.
  - intros Ht. apply trim_nil_iff in Ht. rewrite Ht. split; [reflexivity|].
    unfold DatasetLoader.indexed, DatasetLoader.count. now rewrite length_imap.
  - intros Ht i e.
    destruct (forallb isWhiteSpace (chr query)) eqn:E;
      [apply trim_nil_iff in E; contradiction|].
    rewrite filter_In, indexed_at, includes_spec. cbn [snd]. tauto.
  - intros query' Hq. rewrite search_unfold.
    rewrite <- (blank_toLowerCase (chr query')), Hq, blank_toLowerCase.
    reflexivity.
Qed.

Lemma search_results_witness :
  DatasetLoader.search "IMG"
    (DatasetLoader.mk
       [DatasetLoader.mkEntry "img_1.jpg" "img_1" true false true false None;
        DatasetLoader.mkEntry "cat.png" "cat" false false false false None] ∅)
  = DatasetLoader.search "img"
      (DatasetLoader.mk
         [DatasetLoader.mkEntry "img_1.jpg" "img_1" true false true false None;
          DatasetLoader.mkEntry "cat.png" "cat" false false false false None] ∅).
Proof.
  apply (proj2 (proj2 (proj2 (proj2 (search_results "img"
    (DatasetLoader.mk
       [DatasetLoader.mkEntry "img_1.jpg" "img_1" true false true false None;
        DatasetLoader.mkEntry "cat.png" "cat" false false false false None] ∅))))) "IMG").
  reflexivity.
Defined.

(** ** DatasetLoader: the label cache, and the flag main.js keeps in step *)








